(** * RealTimeChat: a shallow embedding of the chat back end

    The development follows the four back-end modules of the repository:
    [config], [rateLimiter] (class RateLimiter), [clients] (class
    ClientsManager) and [chatController] (class ChatController), together
    with the glue of [server.js] that feeds them.

    Conventions.
    - A JavaScript string is its sequence of UTF-16 code units ([jsstring]);
      [s.length] is the length of that list and the regular expressions of
      the source (none carries the [u] flag) work on code units.
    - [Date.now()] is an integer number of milliseconds; every handler takes
      the clock reading as an argument [now : Z] (one reading per handler
      run).
    - A [Map] keeps insertion order; the registry is an association list with
      the [Map] operations written out.  The rate limiter's map is never
      iterated by the code under study and is a [gmap].
    - A socket is owned by the environment: the model keeps its [readyState]
      and whether [send] throws, and records every frame that was written in
      the world's [wire] log.  Frames are kept as structured payloads
      ([JSON.stringify] is not modelled).
    - Calls to the logger only write text to files and are left out. *)

From stdpp Require Import base option list gmap strings pretty.
From Stdlib Require Import ZArith NArith Ascii Lia.

Local Open Scope Z_scope.

(** ** JavaScript strings *)

Abbreviation char := N (only parsing).
Abbreviation jsstring := (list N) (only parsing).

(** An ASCII literal as a JavaScript string. *)
Definition lit (s : string) : jsstring :=
  (fun a => N_of_ascii a) <$> String.list_ascii_of_string s.

(** [String(n)] for an integer. *)
Definition decimal (n : Z) : jsstring := lit (pretty n).

(** ECMAScript WhiteSpace and LineTerminator code points: what
    [String.prototype.trim] strips and what [\s] matches. *)
Definition is_whitespace (c : char) : bool :=
  ((9 <=? c) && (c <=? 13) ||
   (c =? 32) || (c =? 160) || (c =? 5760) ||
   ((8192 <=? c) && (c <=? 8202)) ||
   (c =? 8232) || (c =? 8233) || (c =? 8239) || (c =? 8287) ||
   (c =? 12288) || (c =? 65279))%N.

Fixpoint trimStart (s : jsstring) : jsstring :=
  match s with
  | [] => []
  | c :: s' => if is_whitespace c then trimStart s' else s
  end.

Definition trimEnd (s : jsstring) : jsstring :=
  reverse (trimStart (reverse s)).

Definition trim (s : jsstring) : jsstring := trimEnd (trimStart s).

(** [s.replace(/c/g, r)] for a one-character pattern. *)
Fixpoint replaceAll (c : char) (r : jsstring) (s : jsstring) : jsstring :=
  match s with
  | [] => []
  | x :: s' => (if (x =? c)%N then r else [x]) ++ replaceAll c r s'
  end.

(** ** Parsed JSON values, as [JSON.parse] hands them to the controller *)

Local Set Warnings "-register-all".

Inductive json : Type :=
  | JNull
  | JBool (b : bool)
  | JNum (n : Z)
  | JStr (s : jsstring)
  | JArr (items : list json)
  | JObj (props : list (jsstring * json)).

(** Property read [data.key]; [None] is [undefined].  The list of a [JObj]
    holds the properties of the parsed object, each key once; no other
    JSON value has the properties the controller reads. *)
Fixpoint assoc_get {V} (k : jsstring) (l : list (jsstring * V)) : option V :=
  match l with
  | [] => None
  | (k', v) :: l' => if decide (k' = k) then Some v else assoc_get k l'
  end.

Definition prop (data : json) (key : jsstring) : option json :=
  match data with
  | JObj props => assoc_get key props
  | _ => None
  end.

(** ToBoolean. *)
Definition truthy (v : option json) : bool :=
  match v with
  | None | Some JNull => false
  | Some (JBool b) => b
  | Some (JNum n) => negb (n =? 0)
  | Some (JStr s) => negb (bool_decide (s = []))
  | Some (JArr _) | Some (JObj _) => true
  end.

(** [typeof v === 'object'] ([typeof null] is ['object'] too). *)
Definition typeof_object (v : json) : bool :=
  match v with
  | JNull | JArr _ | JObj _ => true
  | _ => false
  end.

(** ** config *)

Module config.
Definition MAX_MESSAGES_PER_MINUTE : Z := 10.
Definition RATE_LIMIT_WINDOW : Z := 60000.
Definition MESSAGE_DELAY : Z := 100.
Definition MAX_MESSAGE_LENGTH : Z := 500.
Definition MIN_MESSAGE_LENGTH : Z := 1.
Definition MAX_USERNAME_LENGTH : Z := 30.
Definition MIN_USERNAME_LENGTH : Z := 2.

Module MESSAGES.
Definition USER_JOINED : jsstring := lit "se ha unido al chat".
Definition USER_LEFT : jsstring := lit "ha abandonado el chat".
Definition CONNECTION_SUCCESS : jsstring := lit "Conectado al servidor".
Definition MESSAGE_TOO_LONG : jsstring := lit "El mensaje es demasiado largo".
Definition MESSAGE_TOO_SHORT : jsstring := lit "El mensaje es demasiado corto".
Definition USERNAME_TAKEN : jsstring :=
  lit "Este nombre de usuario ya est" ++ [225%N] ++ lit " en uso".
Definition SERVER_ERROR : jsstring :=
  lit "Error del servidor. Intenta nuevamente.".
End MESSAGES.
End config.

(** ** ChatController: validation and sanitization *)

Inductive validation (A : Type) : Type :=
  | Valid (a : A)
  | Invalid (error : jsstring).
Arguments Valid {A} a.
Arguments Invalid {A} error.

Definition is_valid {A} (v : validation A) : bool :=
  match v with Valid _ => true | Invalid _ => false end.

(** [x.length] for a string or an array. *)
Definition jslength {A} (x : list A) : Z := Z.of_nat (length x).

(** The character class of [validPattern]:
    [[a-zA-Z0-9áéíóúÁÉÍÓÚñÑ\s_-]]. *)
Definition validPattern_class (c : char) : bool :=
  ((97 <=? c) && (c <=? 122) ||        (* a-z *)
   (65 <=? c) && (c <=? 90) ||         (* A-Z *)
   (48 <=? c) && (c <=? 57) ||         (* 0-9 *)
   (c =? 225) || (c =? 233) || (c =? 237) || (c =? 243) || (c =? 250) ||
   (c =? 193) || (c =? 201) || (c =? 205) || (c =? 211) || (c =? 218) ||
   (c =? 241) || (c =? 209) ||
   is_whitespace c ||
   (c =? 95) ||                        (* _ *)
   (c =? 45))%N.                       (* - *)

(** [/^[...]+$/.test(s)]: one or more code units, all of the class. *)
Definition validPattern_test (s : jsstring) : bool :=
  negb (bool_decide (s = [])) && forallb validPattern_class s.

Definition validateUsername (username : option json) : validation jsstring :=
  match username with
  | Some (JStr s) =>
      if negb (truthy username) then
        Invalid (lit "Nombre de usuario inv" ++ [225%N] ++ lit "lido")
      else
        let trimmed := trim s in
        if jslength trimmed <? config.MIN_USERNAME_LENGTH then
          Invalid (lit "El nombre debe tener al menos " ++
                   decimal config.MIN_USERNAME_LENGTH ++ lit " caracteres")
        else if jslength trimmed >? config.MAX_USERNAME_LENGTH then
          Invalid (lit "El nombre no puede exceder " ++
                   decimal config.MAX_USERNAME_LENGTH ++ lit " caracteres")
        else if negb (validPattern_test trimmed) then
          Invalid (lit "El nombre contiene caracteres no permitidos")
        else Valid trimmed
  | _ => Invalid (lit "Nombre de usuario inv" ++ [225%N] ++ lit "lido")
  end.

Definition validateMessageContent (content : option json) : validation jsstring :=
  match content with
  | Some (JStr s) =>
      if negb (truthy content) then
        Invalid (lit "Contenido inv" ++ [225%N] ++ lit "lido")
      else
        let trimmed := trim s in
        if jslength trimmed <? config.MIN_MESSAGE_LENGTH then
          Invalid config.MESSAGES.MESSAGE_TOO_SHORT
        else if jslength trimmed >? config.MAX_MESSAGE_LENGTH then
          Invalid config.MESSAGES.MESSAGE_TOO_LONG
        else Valid trimmed
  | _ => Invalid (lit "Contenido inv" ++ [225%N] ++ lit "lido")
  end.

(** [sanitize] on a string: the six replacements in source order. *)
Definition sanitize (str : jsstring) : jsstring :=
  replaceAll 47 (lit "&#x2F;")
    (replaceAll 39 (lit "&#x27;")
      (replaceAll 34 (lit "&quot;")
        (replaceAll 62 (lit "&gt;")
          (replaceAll 60 (lit "&lt;")
            (replaceAll 38 (lit "&amp;") str))))).

(** ** RateLimiter *)

Module RateLimiter.

Record RateCheck : Type := {
  allowed : bool;
  remaining : Z;
  resetIn : Z;
  message : option jsstring
}.

(** [Math.ceil(x / d)] on integers, [d > 0]. *)
Definition ceil_div (x d : Z) : Z := - ((- x) / d).

(** [ip && ip !== 'unknown' ? `ip:${ip}` : `client:${clientId}`];
    [None] is the default [null]. *)
Definition getClientIdentifier (clientId : jsstring) (ip : option jsstring)
  : jsstring :=
  match ip with
  | Some a =>
      if negb (bool_decide (a = [])) && negb (bool_decide (a = lit "unknown"))
      then lit "ip:" ++ a
      else lit "client:" ++ clientId
  | None => lit "client:" ++ clientId
  end.

(** [ts => ts > windowStart] *)
Definition in_window (windowStart : Z) (timestamps : list Z) : list Z :=
  filter (λ ts, windowStart < ts) timestamps.

Definition checkLimit (now : Z) (clientId : jsstring) (ip : option jsstring)
    (messageTracking : gmap (list N) (list Z))
  : RateCheck * gmap (list N) (list Z) :=
  let identifier := getClientIdentifier clientId ip in
  let windowStart := now - config.RATE_LIMIT_WINDOW in
  let timestamps := default [] (messageTracking !! identifier) in
  let timestamps := in_window windowStart timestamps in
  if jslength timestamps >=? config.MAX_MESSAGES_PER_MINUTE then
    (* [timestamps[0]]: the array holds at least
       MAX_MESSAGES_PER_MINUTE = 10 elements here *)
    let oldestTimestamp := default 0 (head timestamps) in
    let resetIn :=
      ceil_div (oldestTimestamp + config.RATE_LIMIT_WINDOW - now) 1000 in
    ({| allowed := false;
        remaining := 0;
        resetIn := resetIn;
        message := Some (lit "L" ++ [237%N] ++ lit "mite excedido. Espera " ++
                         decimal resetIn ++ lit " segundos.") |},
     messageTracking)
  else
    let timestamps := timestamps ++ [now] in
    ({| allowed := true;
        remaining := config.MAX_MESSAGES_PER_MINUTE - jslength timestamps;
        resetIn := ceil_div config.RATE_LIMIT_WINDOW 1000;
        message := None |},
     <[identifier := timestamps]> messageTracking).

Definition resetClient (clientId : jsstring) (ip : option jsstring)
    (messageTracking : gmap (list N) (list Z)) : gmap (list N) (list Z) :=
  delete (getClientIdentifier clientId ip) messageTracking.

(** [cleanup]: entries without a timestamp in the window are deleted, the
    others keep their timestamps of the window. *)
Definition cleanup (now : Z) (messageTracking : gmap (list N) (list Z))
  : gmap (list N) (list Z) :=
  let windowStart := now - config.RATE_LIMIT_WINDOW in
  omap (λ timestamps,
          let validTimestamps := in_window windowStart timestamps in
          if bool_decide (validTimestamps = []) then None
          else Some validTimestamps) messageTracking.

(** Successive calls for one client, one per clock reading. *)
Fixpoint checkLimits (nows : list Z) (clientId : jsstring)
    (ip : option jsstring) (messageTracking : gmap (list N) (list Z))
  : list RateCheck * gmap (list N) (list Z) :=
  match nows with
  | [] => ([], messageTracking)
  | now :: nows' =>
      let '(r, mt) := checkLimit now clientId ip messageTracking in
      let '(rs, mt') := checkLimits nows' clientId ip mt in
      (r :: rs, mt')
  end.

Record ClientStats : Type := {
  stats_identifier : jsstring;
  messagesSent : Z;
  limit : Z;
  stats_remaining : Z;
  windowSeconds : Z
}.

(** [getClientStats]: the same pruning as [checkLimit], nothing stored. *)
Definition getClientStats (now : Z) (clientId : jsstring)
    (ip : option jsstring) (messageTracking : gmap (list N) (list Z))
  : ClientStats :=
  let identifier := getClientIdentifier clientId ip in
  let windowStart := now - config.RATE_LIMIT_WINDOW in
  let timestamps := default [] (messageTracking !! identifier) in
  let timestamps := in_window windowStart timestamps in
  {| stats_identifier := identifier;
     messagesSent := jslength timestamps;
     limit := config.MAX_MESSAGES_PER_MINUTE;
     stats_remaining := config.MAX_MESSAGES_PER_MINUTE - jslength timestamps;
     windowSeconds := config.RATE_LIMIT_WINDOW / 1000 |}.

Record GlobalStats : Type := {
  global_totalClients : Z;
  maxMessagesPerMinute : Z;
  global_windowSeconds : Z
}.

Definition getGlobalStats (messageTracking : gmap (list N) (list Z))
  : GlobalStats :=
  {| global_totalClients := Z.of_nat (size messageTracking);
     maxMessagesPerMinute := config.MAX_MESSAGES_PER_MINUTE;
     global_windowSeconds := config.RATE_LIMIT_WINDOW / 1000 |}.

End RateLimiter.

(** ** The server's state *)

(** [readyState] is 1 for an open socket; [sendThrows] tells whether
    [ws.send] raises.  Both belong to the environment. *)
Record WebSocket : Type := {
  readyState : Z;
  sendThrows : bool
}.

Record Client : Type := {
  client_id : jsstring;
  ws : option WebSocket;
  username : option jsstring;   (* [null] until the user joins *)
  ip : jsstring;
  connectedAt : Z;
  lastActivity : Z
}.

Abbreviation client_username := username (only parsing).

(** An element of the [users] roster. *)
Record User : Type := {
  user_username : jsstring;
  user_connectedAt : Z
}.

(** Server-to-client frames, by their [type]. *)
Inductive Payload : Type :=
  | Connection (message clientId : jsstring) (timestamp : Z)
  | Joined (username message : jsstring) (users : list User)
  | UserJoined (username message : jsstring) (timestamp : Z) (users : list User)
  | UserLeft (username message : jsstring) (timestamp : Z) (users : list User)
  | Message (username content : jsstring) (timestamp : Z)
  | Error (message : jsstring) (timestamp : Z)
  | Pong (timestamp : Z).

(** An element of [ChatController.messageQueue]. *)
Record QueuedMessage : Type := {
  q_clientId : jsstring;
  q_username : jsstring;
  q_content : jsstring;
  q_timestamp : Z
}.

(** The three singletons.  [sleepers] counts the runs of
    [processMessageQueue] that are suspended in [await this.sleep(...)].
    The last three fields are history variables, which the code does not
    keep: the frames handed to [ws.send] without an exception (recipient and
    payload), the payloads given to [ClientsManager.broadcast], and the
    messages given to [ChatController.queueMessage], each in call order. *)
Record World : Type := {
  clients : list (jsstring * Client);
  messageTracking : gmap (list N) (list Z);
  messageQueue : list QueuedMessage;
  isProcessingQueue : bool;
  sleepers : nat;
  wire : list (jsstring * Payload);
  broadcasts : list Payload;
  enqueued : list QueuedMessage
}.

Definition initial : World :=
  {| clients := []; messageTracking := ∅; messageQueue := [];
     isProcessingQueue := false; sleepers := 0;
     wire := []; broadcasts := []; enqueued := [] |}.

Definition with_clients (x : list (jsstring * Client)) (w : World) : World :=
  {| clients := x; messageTracking := messageTracking w;
     messageQueue := messageQueue w; isProcessingQueue := isProcessingQueue w;
     sleepers := sleepers w; wire := wire w; broadcasts := broadcasts w;
     enqueued := enqueued w |}.

Definition with_messageTracking (x : gmap (list N) (list Z)) (w : World) : World :=
  {| clients := clients w; messageTracking := x;
     messageQueue := messageQueue w; isProcessingQueue := isProcessingQueue w;
     sleepers := sleepers w; wire := wire w; broadcasts := broadcasts w;
     enqueued := enqueued w |}.

Definition with_messageQueue (x : list QueuedMessage) (w : World) : World :=
  {| clients := clients w; messageTracking := messageTracking w;
     messageQueue := x; isProcessingQueue := isProcessingQueue w;
     sleepers := sleepers w; wire := wire w; broadcasts := broadcasts w;
     enqueued := enqueued w |}.

Definition with_isProcessingQueue (x : bool) (w : World) : World :=
  {| clients := clients w; messageTracking := messageTracking w;
     messageQueue := messageQueue w; isProcessingQueue := x;
     sleepers := sleepers w; wire := wire w; broadcasts := broadcasts w;
     enqueued := enqueued w |}.

Definition with_sleepers (x : nat) (w : World) : World :=
  {| clients := clients w; messageTracking := messageTracking w;
     messageQueue := messageQueue w; isProcessingQueue := isProcessingQueue w;
     sleepers := x; wire := wire w; broadcasts := broadcasts w;
     enqueued := enqueued w |}.

Definition with_wire (x : list (jsstring * Payload)) (w : World) : World :=
  {| clients := clients w; messageTracking := messageTracking w;
     messageQueue := messageQueue w; isProcessingQueue := isProcessingQueue w;
     sleepers := sleepers w; wire := x; broadcasts := broadcasts w;
     enqueued := enqueued w |}.

Definition with_broadcasts (x : list Payload) (w : World) : World :=
  {| clients := clients w; messageTracking := messageTracking w;
     messageQueue := messageQueue w; isProcessingQueue := isProcessingQueue w;
     sleepers := sleepers w; wire := wire w; broadcasts := x;
     enqueued := enqueued w |}.

Definition with_enqueued (x : list QueuedMessage) (w : World) : World :=
  {| clients := clients w; messageTracking := messageTracking w;
     messageQueue := messageQueue w; isProcessingQueue := isProcessingQueue w;
     sleepers := sleepers w; wire := wire w; broadcasts := broadcasts w;
     enqueued := x |}.

(** [Map.prototype.set]: an existing key keeps its place. *)
Fixpoint map_set {V} (k : jsstring) (v : V) (l : list (jsstring * V))
  : list (jsstring * V) :=
  match l with
  | [] => [(k, v)]
  | (k', v') :: l' =>
      if decide (k' = k) then (k, v) :: l' else (k', v') :: map_set k v l'
  end.

(** [Map.prototype.delete] *)
Definition map_delete {V} (k : jsstring) (l : list (jsstring * V))
  : list (jsstring * V) :=
  filter (λ e, e.1 ≠ k) l.

(** ** ClientsManager *)

Module ClientsManager.

(** [addClient]: [clientId] is what [generateClientId] returned and [ip]
    what [getClientIp] extracted from the request. *)
Definition addClient (now : Z) (clientId : jsstring) (ws : option WebSocket)
    (ip : jsstring) (w : World) : jsstring * World :=
  let client :=
    {| client_id := clientId; ws := ws; username := None; ip := ip;
       connectedAt := now; lastActivity := now |} in
  (clientId, with_clients (map_set clientId client (clients w)) w).

Definition getClient (clientId : jsstring) (w : World) : option Client :=
  assoc_get clientId (clients w).

Definition removeClient (clientId : jsstring) (w : World)
  : option Client * World :=
  match getClient clientId w with
  | Some client =>
      (Some client, with_clients (map_delete clientId (clients w)) w)
  | None => (None, w)
  end.

Definition setUsername (now : Z) (clientId username : jsstring) (w : World)
  : bool * World :=
  match getClient clientId w with
  | Some client =>
      let client :=
        {| client_id := client_id client; ws := ws client;
           username := Some username; ip := ip client;
           connectedAt := connectedAt client; lastActivity := now |} in
      (true, with_clients (map_set clientId client (clients w)) w)
  | None => (false, w)
  end.

(** [client.username === username] for some registered client. *)
Definition isUsernameTaken (username : jsstring) (w : World) : bool :=
  existsb (λ e : jsstring * Client,
             bool_decide (client_username e.2 = Some username))
          (clients w).

Definition getClientByUsername (username : jsstring) (w : World)
  : option (jsstring * Client) :=
  find (λ e : jsstring * Client,
          bool_decide (client_username e.2 = Some username))
       (clients w).

Definition updateActivity (now : Z) (clientId : jsstring) (w : World)
  : World :=
  match getClient clientId w with
  | Some client =>
      let client :=
        {| client_id := client_id client; ws := ws client;
           username := client_username client; ip := ip client;
           connectedAt := connectedAt client; lastActivity := now |} in
      with_clients (map_set clientId client (clients w)) w
  | None => w
  end.

(** [if (client.username)] holds for a name that is neither [null] nor
    empty. *)
Definition getActiveUsers (w : World) : list User :=
  omap (λ e : jsstring * Client,
          match client_username e.2 with
          | Some (c :: u) =>
              Some {| user_username := c :: u;
                      user_connectedAt := connectedAt e.2 |}
          | _ => None
          end)
       (clients w).

(** [client.ws && client.ws.readyState === 1] *)
Definition is_open (client : Client) : bool :=
  match ws client with
  | Some s => readyState s =? 1
  | None => false
  end.

Definition send_throws (client : Client) : bool :=
  match ws client with
  | Some s => sendThrows s
  | None => false
  end.

Definition sendToClient (clientId : jsstring) (data : Payload) (w : World)
  : bool * World :=
  match getClient clientId w with
  | Some client =>
      if is_open client then
        if send_throws client then (false, w)
        else (true, with_wire (wire w ++ [(clientId, data)]) w)
      else (false, w)
  | None => (false, w)
  end.

(** [excludeClientId && clientId === excludeClientId] *)
Definition excluded (excludeClientId : option jsstring) (clientId : jsstring)
  : bool :=
  match excludeClientId with
  | Some (c :: e) => bool_decide (clientId = c :: e)
  | _ => false
  end.

(** The loop of [broadcast]: the frames written, [successCount] and
    [failCount]. *)
Fixpoint broadcast_loop (entries : list (jsstring * Client)) (data : Payload)
    (excludeClientId : option jsstring)
  : list (jsstring * Payload) * nat * nat :=
  match entries with
  | [] => ([], 0%nat, 0%nat)
  | (clientId, client) :: entries' =>
      let '(frames, successCount, failCount) :=
        broadcast_loop entries' data excludeClientId in
      if excluded excludeClientId clientId then
        (frames, successCount, failCount)
      else if is_open client then
        if send_throws client then (frames, successCount, S failCount)
        else ((clientId, data) :: frames, S successCount, failCount)
      else (frames, successCount, failCount)
  end.

Definition broadcast (data : Payload) (excludeClientId : option jsstring)
    (w : World) : (nat * nat) * World :=
  let '(frames, successCount, failCount) :=
    broadcast_loop (clients w) data excludeClientId in
  ((successCount, failCount),
   with_broadcasts (broadcasts w ++ [data]) (with_wire (wire w ++ frames) w)).

Definition is_dead (now : Z) (client : Client) : bool :=
  let timeout := 5 * 60 * 1000 in
  let isInactive := now - lastActivity client >? timeout in
  let isClosed := negb (is_open client) in
  isInactive || isClosed.

Definition cleanupDeadConnections (now : Z) (w : World) : nat * World :=
  let deadClients :=
    omap (λ e : jsstring * Client,
            if is_dead now e.2 then Some e.1 else None) (clients w) in
  (length deadClients,
   foldl (λ w clientId, (removeClient clientId w).2) w deadClients).

(** The parts of the upgrade request that [getClientIp] reads: the
    headers [x-forwarded-for] and [x-real-ip] and the address of the
    socket, each of them possibly missing. *)
Record Request : Type := {
  x_forwarded_for : option jsstring;
  x_real_ip : option jsstring;
  remoteAddress : option jsstring
}.

(** [s.split(',')[0]]: what stands before the first comma. *)
Fixpoint before_comma (s : jsstring) : jsstring :=
  match s with
  | [] => []
  | c :: s' => if (c =? 44)%N then [] else c :: before_comma s'
  end.

(** Truthiness of a header value: present and not empty. *)
Definition present (v : option jsstring) : bool :=
  match v with
  | Some (_ :: _) => true
  | _ => false
  end.

Definition getClientIp (request : Request) : jsstring :=
  if present (x_forwarded_for request) then
    trim (before_comma (default [] (x_forwarded_for request)))
  else if present (x_real_ip request) then
    default [] (x_real_ip request)
  else if present (remoteAddress request) then
    default [] (remoteAddress request)
  else lit "unknown".

(** An element of [getAllClients()]. *)
Record ClientInfo : Type := {
  info_id : jsstring;
  info_username : option jsstring;
  info_ip : jsstring;
  info_connectedAt : Z;
  info_lastActivity : Z
}.

Definition getAllClients (w : World) : list ClientInfo :=
  (λ e : jsstring * Client,
     {| info_id := e.1; info_username := client_username e.2;
        info_ip := ip e.2; info_connectedAt := connectedAt e.2;
        info_lastActivity := lastActivity e.2 |}) <$> clients w.

Definition getClientCount (w : World) : Z := jslength (clients w).

(** The loop of [getActiveUserCount]. *)
Fixpoint count_named (entries : list (jsstring * Client)) : Z :=
  match entries with
  | [] => 0
  | (_, client) :: entries' =>
      match client_username client with
      | Some (_ :: _) => 1 + count_named entries'
      | _ => count_named entries'
      end
  end.

Definition getActiveUserCount (w : World) : Z := count_named (clients w).

(** The loop of [broadcastToActiveUsers]: the frames written and
    [successCount]. *)
Fixpoint broadcastToActiveUsers_loop (entries : list (jsstring * Client))
    (data : Payload) (excludeClientId : option jsstring)
  : list (jsstring * Payload) * nat :=
  match entries with
  | [] => ([], 0%nat)
  | (clientId, client) :: entries' =>
      let '(frames, successCount) :=
        broadcastToActiveUsers_loop entries' data excludeClientId in
      match client_username client with
      | Some (_ :: _) =>
          if excluded excludeClientId clientId then (frames, successCount)
          else if is_open client then
            if send_throws client then (frames, successCount)
            else ((clientId, data) :: frames, S successCount)
          else (frames, successCount)
      | _ => (frames, successCount)
      end
  end.

Definition broadcastToActiveUsers (data : Payload)
    (excludeClientId : option jsstring) (w : World) : nat * World :=
  let '(frames, successCount) :=
    broadcastToActiveUsers_loop (clients w) data excludeClientId in
  (successCount, with_wire (wire w ++ frames) w).

Record RegistryStats : Type := {
  totalClients : Z;
  activeUsers : Z;
  anonymousClients : Z
}.

Definition getStats (w : World) : RegistryStats :=
  {| totalClients := getClientCount w;
     activeUsers := getActiveUserCount w;
     anonymousClients := getClientCount w - getActiveUserCount w |}.

End ClientsManager.

(** ** ChatController *)

Module ChatController.
Import ClientsManager.

Definition validateMessage (data : json) : validation unit :=
  if negb (truthy (Some data)) || negb (typeof_object data) then
    Invalid (lit "Formato inv" ++ [225%N] ++ lit "lido")
  else if negb (truthy (prop data (lit "type"))) then
    Invalid (lit "Tipo de mensaje no especificado")
  else Valid ().

Definition sendError (now : Z) (clientId message : jsstring) (w : World)
  : World :=
  (sendToClient clientId (Error message now) w).2.

Definition message_payload (message : QueuedMessage) : Payload :=
  Message (q_username message) (q_content message) (q_timestamp message).

(** The loop of [processMessageQueue], from its test on: [queue] is
    [this.messageQueue].  At [await this.sleep(...)] the run is suspended
    and control goes back to the caller. *)
Fixpoint drain (queue : list QueuedMessage) (w : World) : World :=
  match queue with
  | [] => with_isProcessingQueue false (with_messageQueue [] w)
  | message :: queue' =>
      let w := with_messageQueue queue' w in
      let w := (broadcast (message_payload message) None w).2 in
      if (jslength queue' >? 0) && (config.MESSAGE_DELAY >? 0) then
        with_sleepers (S (sleepers w)) w
      else drain queue' w
  end.

Definition processMessageQueue (w : World) : World :=
  drain (messageQueue w) (with_isProcessingQueue true w).

(** The timer of [sleep] fires: a suspended run goes on with the loop. *)
Definition wake (w : World) : World :=
  match sleepers w with
  | O => w
  | S n => drain (messageQueue w) (with_sleepers n w)
  end.

Definition queueMessage (message : QueuedMessage) (w : World) : World :=
  let w := with_enqueued (enqueued w ++ [message])
             (with_messageQueue (messageQueue w ++ [message]) w) in
  if negb (isProcessingQueue w) then processMessageQueue w else w.

Definition handleJoin (now : Z) (clientId : jsstring) (data : json)
    (w : World) : World :=
  match getClient clientId w with
  | None => w
  | Some client =>
      match validateUsername (prop data (lit "username")) with
      | Invalid error => sendError now clientId error w
      | Valid trimmed =>
          let username := sanitize trimmed in
          if isUsernameTaken username w then
            sendError now clientId config.MESSAGES.USERNAME_TAKEN w
          else
            let w := (setUsername now clientId username w).2 in
            let w :=
              (sendToClient clientId
                 (Joined username (lit "Te has unido al chat exitosamente")
                         (getActiveUsers w)) w).2 in
            (broadcast
               (UserJoined username
                  (username ++ lit " " ++ config.MESSAGES.USER_JOINED)
                  now (getActiveUsers w))
               (Some clientId) w).2
      end
  end.

Definition handleChatMessage (now : Z) (clientId : jsstring) (data : json)
    (w : World) : World :=
  match getClient clientId w with
  | None => w
  | Some client =>
      match client_username client with
      | Some (c :: u) =>
          match validateMessageContent (prop data (lit "content")) with
          | Invalid error => sendError now clientId error w
          | Valid trimmed =>
              let content := sanitize trimmed in
              let '(rateCheck, tracking) :=
                RateLimiter.checkLimit now clientId (Some (ip client))
                  (messageTracking w) in
              let w := with_messageTracking tracking w in
              if negb (RateLimiter.allowed rateCheck) then
                sendError now clientId
                  (default [] (RateLimiter.message rateCheck)) w
              else
                queueMessage
                  {| q_clientId := clientId; q_username := c :: u;
                     q_content := content; q_timestamp := now |} w
          end
      | _ => sendError now clientId (lit "Debes unirte al chat primero") w
      end
  end.

Definition handlePing (now : Z) (clientId : jsstring) (w : World) : World :=
  (sendToClient clientId (Pong now) w).2.

(** [rawData] is what [JSON.parse] made of the frame, [None] when it
    threw.  The outer [catch] is not modelled: the handlers do not throw,
    and the calls of the logger are taken to return.  Were an argument of
    a logger call to throw while it is turned into text, the code would
    answer the sender with [SERVER_ERROR] instead of the text of the
    branch; the recipient, the kind of frame and the state would be the
    same. *)
Definition handleMessage (now : Z) (clientId : jsstring)
    (rawData : option json) (w : World) : World :=
  match rawData with
  | None =>
      sendError now clientId
        (lit "Formato de mensaje inv" ++ [225%N] ++ lit "lido") w
  | Some data =>
      match validateMessage data with
      | Invalid error => sendError now clientId error w
      | Valid _ =>
          let w := updateActivity now clientId w in
          match prop data (lit "type") with
          | Some (JStr type) =>
              if decide (type = lit "join") then
                handleJoin now clientId data w
              else if decide (type = lit "message") then
                handleChatMessage now clientId data w
              else if decide (type = lit "ping") then
                handlePing now clientId w
              else
                sendError now clientId (lit "Tipo de mensaje no soportado") w
          | _ =>
              sendError now clientId (lit "Tipo de mensaje no soportado") w
          end
      end
  end.

Definition handleDisconnect (now : Z) (clientId : jsstring) (w : World)
  : World :=
  let client := getClient clientId w in
  let w :=
    match client with
    | Some c =>
        match client_username c with
        | Some (a :: u) =>
            let name := a :: u in
            (broadcast
               (UserLeft name (name ++ lit " " ++ config.MESSAGES.USER_LEFT)
                  now
                  (filter (λ u, user_username u ≠ name) (getActiveUsers w)))
               None w).2
        | _ => w
        end
    | None => w
    end in
  (removeClient clientId w).2.

Definition handleError (now : Z) (clientId : jsstring) (w : World) : World :=
  match getClient clientId w with
  | Some _ => sendError now clientId config.MESSAGES.SERVER_ERROR w
  | None => w
  end.

Record ChatStats : Type := {
  stats_clients : RegistryStats;
  stats_rateLimiter : RateLimiter.GlobalStats;
  stats_messageQueue : Z
}.

Definition getStats (w : World) : ChatStats :=
  {| stats_clients := ClientsManager.getStats w;
     stats_rateLimiter := RateLimiter.getGlobalStats (messageTracking w);
     stats_messageQueue := jslength (messageQueue w) |}.

End ChatController.

(** ** server.js: the events that drive the singletons *)

Inductive Event : Type :=
  (* wss.on('connection'): a socket, the generated id, the request's ip *)
  | EvConnection (now : Z) (clientId : jsstring) (ws : option WebSocket)
                 (ip : jsstring)
  (* ws.on('message') *)
  | EvMessage (now : Z) (clientId : jsstring) (rawData : option json)
  (* ws.on('error') *)
  | EvError (now : Z) (clientId : jsstring)
  (* ws.on('close') *)
  | EvClose (now : Z) (clientId : jsstring)
  (* the 30 s interval of startPeriodicCleanup *)
  | EvCleanup (now : Z)
  (* the 5 min interval of the rate limiter *)
  | EvLimiterCleanup (now : Z)
  (* the timer of sleep(MESSAGE_DELAY) *)
  | EvTimer
  (* the environment changes the state of a client's socket *)
  | EvSocket (clientId : jsstring) (ws : option WebSocket).

Definition set_socket (clientId : jsstring) (s : option WebSocket) (w : World)
  : World :=
  match ClientsManager.getClient clientId w with
  | Some client =>
      let client :=
        {| client_id := client_id client; ws := s;
           username := username client; ip := ip client;
           connectedAt := connectedAt client;
           lastActivity := lastActivity client |} in
      with_clients (map_set clientId client (clients w)) w
  | None => w
  end.

Definition step (ev : Event) (w : World) : World :=
  match ev with
  | EvConnection now clientId ws ip =>
      let '(clientId, w) := ClientsManager.addClient now clientId ws ip w in
      (ClientsManager.sendToClient clientId
         (Connection config.MESSAGES.CONNECTION_SUCCESS clientId now) w).2
  | EvMessage now clientId rawData =>
      ChatController.handleMessage now clientId rawData w
  | EvError now clientId => ChatController.handleError now clientId w
  | EvClose now clientId => ChatController.handleDisconnect now clientId w
  | EvCleanup now => (ClientsManager.cleanupDeadConnections now w).2
  | EvLimiterCleanup now =>
      with_messageTracking (RateLimiter.cleanup now (messageTracking w)) w
  | EvTimer => ChatController.wake w
  | EvSocket clientId s => set_socket clientId s w
  end.

Definition run (evs : list Event) (w : World) : World :=
  foldl (λ w ev, step ev w) w evs.

(** ** Scenarios *)

Module Scenarios.
Import ClientsManager ChatController.

Definition open_socket : option WebSocket :=
  Some {| readyState := 1; sendThrows := false |}.
Definition closed_socket : option WebSocket :=
  Some {| readyState := 3; sendThrows := false |}.

Definition join (name : jsstring) : option json :=
  Some (JObj [(lit "type", JStr (lit "join")); (lit "username", JStr name)]).
Definition say (content : jsstring) : option json :=
  Some (JObj [(lit "type", JStr (lit "message")); (lit "content", JStr content)]).

Definition c1 : jsstring := lit "client_1_a".
Definition c2 : jsstring := lit "client_2_b".

(** C1 connects and joins as Ana; C2 connects. *)
Definition ana_joined : World :=
  run [EvConnection 100 c1 open_socket (lit "10.0.0.1");
       EvMessage 110 c1 (join (lit "Ana"));
       EvConnection 120 c2 open_socket (lit "10.0.0.2")] initial.

End Scenarios.

(** ** Predicates and views used by the properties *)

(** What [sanitize] does to one code unit. *)
Definition escape (c : char) : jsstring :=
  if (c =? 38)%N then lit "&amp;"
  else if (c =? 60)%N then lit "&lt;"
  else if (c =? 62)%N then lit "&gt;"
  else if (c =? 34)%N then lit "&quot;"
  else if (c =? 39)%N then lit "&#x27;"
  else if (c =? 47)%N then lit "&#x2F;"
  else [c].

(** A code unit that is none of less-than, greater-than, double quote,
    apostrophe and slash. *)
Definition harmless (x : char) : Prop :=
  x ≠ 60%N ∧ x ≠ 62%N ∧ x ≠ 34%N ∧ x ≠ 39%N ∧ x ≠ 47%N.

Module Predicates.
Import ClientsManager ChatController.

(** The non-null display names, in registry order. *)
Definition names (l : list (jsstring * Client)) : list jsstring :=
  omap (λ e : jsstring * Client, username e.2) l.

(** No two registered connections hold the same non-null name: two
    places of the registry with the same name are the same place. *)
Definition names_unique (w : World) : Prop :=
  ∀ (i j : nat) (e1 e2 : jsstring * Client) (name : jsstring),
    clients w !! i = Some e1 → clients w !! j = Some e2 →
    username e1.2 = Some name → username e2.2 = Some name → i = j.

(** A [Map] holds a key once. *)
Definition keys_unique (w : World) : Prop := NoDup (clients w).*1.

(** The registry seen as connection ids with their names. *)
Definition name_view (w : World) : list (jsstring * option jsstring) :=
  (λ e : jsstring * Client, (e.1, username e.2)) <$> clients w.

(** A registry entry with its name and last activity set. *)
Definition rename (name : option jsstring) (now : Z) (c : Client) : Client :=
  {| client_id := client_id c; ws := ws c; username := name; ip := ip c;
     connectedAt := connectedAt c; lastActivity := now |}.

(** The connections [broadcast] writes to: registered, not excluded, with
    an open socket whose [send] does not throw; in registry order. *)
Definition recipients (l : list (jsstring * Client))
    (excludeClientId : option jsstring) : list jsstring :=
  omap (λ e : jsstring * Client,
          if excluded excludeClientId e.1 then None
          else if is_open e.2 && negb (send_throws e.2) then Some e.1
          else None) l.

(** The connection [sendToClient] writes to, if any. *)
Definition reachable (clientId : jsstring) (w : World) : bool :=
  match getClient clientId w with
  | Some client => is_open client && negb (send_throws client)
  | None => false
  end.

(** The roster of [getActiveUsers], as a function of the registry. *)
Definition active (l : list (jsstring * Client)) : list User :=
  omap (λ e : jsstring * Client,
          match username e.2 with
          | Some (c :: u) =>
              Some {| user_username := c :: u;
                      user_connectedAt := connectedAt e.2 |}
          | _ => None
          end) l.

(** A frame of type [message]. *)
Definition is_message (p : Payload) : bool :=
  match p with
  | Message _ _ _ => true
  | _ => false
  end.

(** The chat messages broadcast so far, in the order of the calls of
    [broadcast].  A call of [broadcast] has no suspension point: it
    returns before anything else runs. *)
Definition message_log (w : World) : list Payload :=
  filter (λ p, is_message p = true) (broadcasts w).

(** Either nothing is queued and no run of [processMessageQueue] exists,
    or the flag is set and exactly one run sleeps on a non-empty queue. *)
Definition coherent (w : World) : Prop :=
  (isProcessingQueue w = false ∧ sleepers w = 0%nat ∧ messageQueue w = []) ∨
  (isProcessingQueue w = true ∧ sleepers w = 1%nat ∧ messageQueue w ≠ []).

(** What was broadcast, followed by what is queued, is what was enqueued,
    in the same order. *)
Definition fifo (w : World) : Prop :=
  message_log w ++ (message_payload <$> messageQueue w) =
  message_payload <$> enqueued w.

(** Nothing is queued and no run of [processMessageQueue] exists. *)
Definition idle (w : World) : Prop :=
  isProcessingQueue w = false ∧ sleepers w = 0%nat ∧ messageQueue w = [].

(** The part of the state the queue lives in. *)
Definition qstate (w : World)
  : list QueuedMessage * bool * nat * list QueuedMessage * list Payload :=
  (messageQueue w, isProcessingQueue w, sleepers w, enqueued w,
   message_log w).

(** Two chat messages of Ana. *)
Definition first_message : QueuedMessage :=
  {| q_clientId := Scenarios.c1; q_username := lit "Ana";
     q_content := lit "uno"; q_timestamp := 200 |}.

Definition second_message : QueuedMessage :=
  {| q_clientId := Scenarios.c1; q_username := lit "Ana";
     q_content := lit "dos"; q_timestamp := 210 |}.

(** A run sleeps in front of the second message. *)
Definition draining : World :=
  with_broadcasts [message_payload first_message]
    (with_enqueued [first_message; second_message]
       (with_sleepers 1
          (with_isProcessingQueue true
             (with_messageQueue [second_message] Scenarios.ana_joined)))).

(** The content of a chat message carries none of less-than, greater-than,
    double quote, apostrophe and slash. *)
Definition clean_queued (m : QueuedMessage) : Prop :=
  Forall harmless (q_content m).

(** The same for a frame; frames of other types carry no chat content. *)
Definition clean_payload (p : Payload) : Prop :=
  match p with
  | Message _ content _ => Forall harmless content
  | _ => True
  end.

(** Everything queued, enqueued, broadcast and written is clean. *)
Definition clean (w : World) : Prop :=
  Forall clean_queued (messageQueue w) ∧
  Forall clean_queued (enqueued w) ∧
  Forall clean_payload (broadcasts w) ∧
  Forall (λ f : jsstring * Payload, clean_payload f.2) (wire w).

(** The characters [validPattern] admits, spelled out. *)
Definition admitted (c : char) : Prop :=
  (97 <= c <= 122)%N ∨ (65 <= c <= 90)%N ∨ (48 <= c <= 57)%N ∨
  c ∈ [225; 233; 237; 243; 250; 193; 201; 205; 211; 218; 241; 209]%N ∨
  is_whitespace c = true ∨ c = 95%N ∨ c = 45%N.

(** Following the spec's words, [letters including accented]: the ASCII
    letters and the letters of the Latin-1 supplement (U+00C0 to U+00FF
    without the multiplication and division signs).  Accented letters
    beyond Latin-1 are left out; they are not needed below. *)
Definition spec_letter (c : char) : bool :=
  ((97 <=? c) && (c <=? 122) || (65 <=? c) && (c <=? 90) ||
   (192 <=? c) && (c <=? 255) && negb (c =? 215) && negb (c =? 247))%N.

(** Following the spec's words: letters including accented, digits,
    whitespace, underscore, hyphen. *)
Definition spec_username_char (c : char) : bool :=
  (spec_letter c || (48 <=? c) && (c <=? 57) || is_whitespace c ||
   (c =? 95) || (c =? 45))%N.

End Predicates.

(** ** Further views, for the properties beyond the claims *)

Module Views.
Import ClientsManager ChatController Predicates.

(** How many of the answers of [checkLimit] say [allowed]. *)
Definition count_allowed (rs : list RateLimiter.RateCheck) : nat :=
  length (filter (λ r, RateLimiter.allowed r = true) rs).

(** No stored array is longer than the limit. *)
Definition tracking_bounded (mt : gmap (list N) (list Z)) : Prop :=
  map_Forall (λ (_ : list N) (ts : list Z),
                jslength ts <= config.MAX_MESSAGES_PER_MINUTE) mt.

(** An address the limiter keys on: present, not empty, not
    ['unknown']. *)
Definition known_ip (ip : option jsstring) : Prop :=
  ∃ a, ip = Some a ∧ a ≠ [] ∧ a ≠ lit "unknown".

(** A connection with a display name: [client.username] is truthy. *)
Definition named (c : Client) : bool :=
  match username c with
  | Some (_ :: _) => true
  | _ => false
  end.

(** A connection that takes a frame: open socket, [send] does not throw. *)
Definition takes_frames (c : Client) : bool :=
  is_open c && negb (send_throws c).

(** One of the six characters that [sanitize] escapes: ampersand,
    double quote, apostrophe, slash, less-than, greater-than. *)
Definition special (c : char) : Prop :=
  c = 38%N ∨ c = 34%N ∨ c = 39%N ∨ c = 47%N ∨ c = 60%N ∨ c = 62%N.

(** A frame that is fanned out to the other connections: [userJoined] or
    [message]. *)
Definition is_fanout (p : Payload) : bool :=
  match p with
  | UserJoined _ _ _ _ | Message _ _ _ => true
  | _ => false
  end.

(** Nothing but frames on sockets: every field of the state except the
    log of written frames is the same. *)
Definition quiet (w w' : World) : Prop :=
  clients w' = clients w ∧ messageTracking w' = messageTracking w ∧
  messageQueue w' = messageQueue w ∧
  isProcessingQueue w' = isProcessingQueue w ∧ sleepers w' = sleepers w ∧
  broadcasts w' = broadcasts w ∧ enqueued w' = enqueued w.

(** The frames written between two states all satisfy [P]. *)
Definition writes (P : jsstring * Payload → Prop) (w w' : World) : Prop :=
  ∃ fs, wire w' = wire w ++ fs ∧ Forall P fs.

End Views.

(** * Properties *)

(** ** Strings *)

Example sanitize_script :
  sanitize (lit "<script>alert(1)</script>") =
  lit "&lt;script&gt;alert(1)&lt;&#x2F;script&gt;".
Proof. vm_compute. reflexivity. Qed.

Example decimal_30 : decimal 30 = lit "30".
Proof. vm_compute. reflexivity. Qed.

Example decimal_neg : decimal (-5) = lit "-5".
Proof. vm_compute. reflexivity. Qed.

Example trim_ex : trim (lit "  Ana Li  ") = lit "Ana Li".
Proof. vm_compute. reflexivity. Qed.

Lemma replaceAll_app c r a b :
  replaceAll c r (a ++ b) = replaceAll c r a ++ replaceAll c r b.
Proof.
  induction a as [|x a IH]; [done|].
  cbn [replaceAll app]. by rewrite IH, app_assoc.
Qed.

Lemma sanitize_app a b : sanitize (a ++ b) = sanitize a ++ sanitize b.
Proof. unfold sanitize. by rewrite !replaceAll_app. Qed.

Lemma sanitize_one c : sanitize [c] = escape c.
Proof.
  unfold escape.
  destruct (c =? 38)%N eqn:E1; [apply N.eqb_eq in E1; by subst|].
  destruct (c =? 60)%N eqn:E2; [apply N.eqb_eq in E2; by subst|].
  destruct (c =? 62)%N eqn:E3; [apply N.eqb_eq in E3; by subst|].
  destruct (c =? 34)%N eqn:E4; [apply N.eqb_eq in E4; by subst|].
  destruct (c =? 39)%N eqn:E5; [apply N.eqb_eq in E5; by subst|].
  destruct (c =? 47)%N eqn:E6; [apply N.eqb_eq in E6; by subst|].
  unfold sanitize. cbn [replaceAll app].
  rewrite E1. cbn [replaceAll app]. rewrite E2. cbn [replaceAll app].
  rewrite E3. cbn [replaceAll app]. rewrite E4. cbn [replaceAll app].
  rewrite E5. cbn [replaceAll app]. by rewrite E6.
Qed.

(** The chain of replacements is the character-wise escape: no
    replacement text contains a character that a later step replaces. *)
Lemma sanitize_escape s : sanitize s = s ≫= escape.
Proof.
  induction s as [|c s IH]; [done|].
  change (c :: s) with ([c] ++ s).
  rewrite sanitize_app, sanitize_one, IH. done.
Qed.

Lemma escape_clean c : Forall harmless (escape c).
Proof.
  unfold escape.
  destruct (c =? 38)%N eqn:E1; [repeat constructor; discriminate|].
  destruct (c =? 60)%N eqn:E2; [repeat constructor; discriminate|].
  destruct (c =? 62)%N eqn:E3; [repeat constructor; discriminate|].
  destruct (c =? 34)%N eqn:E4; [repeat constructor; discriminate|].
  destruct (c =? 39)%N eqn:E5; [repeat constructor; discriminate|].
  destruct (c =? 47)%N eqn:E6; [repeat constructor; discriminate|].
  apply N.eqb_neq in E1, E2, E3, E4, E5, E6.
  repeat constructor; done.
Qed.

Lemma sanitize_clean s : Forall harmless (sanitize s).
Proof.
  rewrite sanitize_escape. apply Forall_bind, Forall_forall.
  intros c _. apply escape_clean.
Qed.

Lemma escape_valid c : validPattern_class c = true → escape c = [c].
Proof.
  intros Hc. unfold escape.
  destruct (c =? 38)%N eqn:E1; [apply N.eqb_eq in E1; by subst|].
  destruct (c =? 60)%N eqn:E2; [apply N.eqb_eq in E2; by subst|].
  destruct (c =? 62)%N eqn:E3; [apply N.eqb_eq in E3; by subst|].
  destruct (c =? 34)%N eqn:E4; [apply N.eqb_eq in E4; by subst|].
  destruct (c =? 39)%N eqn:E5; [apply N.eqb_eq in E5; by subst|].
  destruct (c =? 47)%N eqn:E6; [apply N.eqb_eq in E6; by subst|].
  done.
Qed.

Lemma sanitize_valid s :
  forallb validPattern_class s = true → sanitize s = s.
Proof.
  rewrite sanitize_escape.
  induction s as [|c s IH]; [done|].
  cbn [forallb]. intros [Hc Hs]%andb_true_iff.
  change ((c :: s) ≫= escape) with (escape c ++ (s ≫= escape)).
  rewrite escape_valid, IH by done. done.
Qed.

(** What an accepted username looks like. *)
Lemma validateUsername_Valid v u :
  validateUsername v = Valid u →
  ∃ s, v = Some (JStr s) ∧ u = trim s ∧
       config.MIN_USERNAME_LENGTH <= jslength u <= config.MAX_USERNAME_LENGTH ∧
       forallb validPattern_class u = true.
Proof.
  unfold validateUsername.
  destruct v as [[| | |s| |]|]; try discriminate.
  destruct (negb (truthy _)); [discriminate|].
  cbv zeta.
  destruct (jslength (trim s) <? _) eqn:E1; [discriminate|].
  destruct (jslength (trim s) >? _) eqn:E2; [discriminate|].
  destruct (negb (validPattern_test (trim s))) eqn:E3; [discriminate|].
  intros [= <-]. exists s.
  apply Z.ltb_ge in E1. rewrite Z.gtb_ltb in E2. apply Z.ltb_ge in E2.
  apply negb_false_iff in E3. unfold validPattern_test in E3.
  apply andb_true_iff in E3 as [_ E3]. done.
Qed.

(** ** RateLimiter *)

Module RateLimiterFacts.
Import RateLimiter.

Example eleven_calls :
  (λ r, (allowed r, remaining r, resetIn r)) <$>
    (checkLimits [1000; 1001; 1002; 1003; 1004; 1005; 1006; 1007; 1008; 1009; 1500; 61000; 61010]
                 (lit "c1") (Some (lit "10.0.0.1")) ∅).1
  = [(true, 9, 60); (true, 8, 60); (true, 7, 60); (true, 6, 60); (true, 5, 60);
     (true, 4, 60); (true, 3, 60); (true, 2, 60); (true, 1, 60); (true, 0, 60);
     (false, 0, 60); (true, 0, 60); (true, 8, 60)].
Proof. vm_compute. reflexivity. Qed.

Lemma in_window_all (w : Z) (l : list Z) :
  Forall (λ t, w < t) l → in_window w l = l.
Proof.
  unfold in_window. induction 1 as [|t l Ht _ IH]; [done|].
  rewrite filter_cons_True by done. by rewrite IH.
Qed.

Lemma in_window_none (w : Z) (l : list Z) :
  Forall (λ t, t <= w) l → in_window w l = [].
Proof.
  unfold in_window. induction 1 as [|t l Ht _ IH]; [done|].
  rewrite filter_cons_False by lia. done.
Qed.

Lemma in_window_spec (now t : Z) (l : list Z) :
  t ∈ in_window (now - config.RATE_LIMIT_WINDOW) l ↔
  t ∈ l ∧ ¬ (now - t >= config.RATE_LIMIT_WINDOW).
Proof.
  unfold in_window. rewrite list_elem_of_filter. split.
  - intros [? ?]. split; [done | lia].
  - intros [? ?]. split; [lia | done].
Qed.

Lemma allowed_all (rs : list RateCheck) :
  Forall (λ r, allowed r = true) rs →
  allowed <$> rs = replicate (length rs) true.
Proof.
  induction 1 as [|r rs Hr _ IH]; [done|].
  rewrite fmap_cons, Hr, IH. done.
Qed.

Lemma ceil_div_pos (x : Z) : 0 < x → 0 < ceil_div x 1000.
Proof.
  intros Hx. unfold ceil_div.
  assert ((- x) / 1000 < 0); [|lia].
  apply Z.div_lt_upper_bound; lia.
Qed.

Section one_identifier.
Variables (clientId : jsstring) (ip : option jsstring).
Let ident := getClientIdentifier clientId ip.

(** A call that finds only expired timestamps starts a new window. *)
Lemma checkLimit_expired now mt :
  Forall (λ t, now - t >= config.RATE_LIMIT_WINDOW)
         (default [] (mt !! ident)) →
  checkLimit now clientId ip mt =
    ({| allowed := true; remaining := 9; resetIn := 60; message := None |},
     <[ident := [now]]> mt).
Proof.
  intros Hold. unfold checkLimit. fold ident.
  rewrite in_window_none; [done|].
  eapply Forall_impl; [exact Hold|]. simpl. intros. lia.
Qed.

(** A call that finds [k < 10] timestamps, all of the window, is
    accepted and appends the clock reading. *)
Lemma checkLimit_fresh now mt pre :
  mt !! ident = Some pre →
  Forall (λ t, now - t < config.RATE_LIMIT_WINDOW) pre →
  jslength pre < config.MAX_MESSAGES_PER_MINUTE →
  checkLimit now clientId ip mt =
    ({| allowed := true;
        remaining := config.MAX_MESSAGES_PER_MINUTE - (jslength pre + 1);
        resetIn := 60; message := None |},
     <[ident := pre ++ [now]]> mt).
Proof.
  intros Hmt Hpre Hlen. unfold checkLimit. fold ident. rewrite Hmt. simpl.
  rewrite in_window_all
    by (eapply Forall_impl; [exact Hpre|]; simpl; intros; lia).
  destruct (jslength pre >=? config.MAX_MESSAGES_PER_MINUTE) eqn:E.
  { apply Z.geb_le in E. lia. }
  do 3 f_equal. unfold jslength. rewrite length_app. simpl. lia.
Qed.

(** A call that finds ten or more timestamps of the window is rejected
    and leaves the map alone. *)
Lemma checkLimit_full now mt o pre :
  mt !! ident = Some (o :: pre) →
  Forall (λ t, now - t < config.RATE_LIMIT_WINDOW) (o :: pre) →
  config.MAX_MESSAGES_PER_MINUTE <= jslength (o :: pre) →
  ∃ r, checkLimit now clientId ip mt = (r, mt) ∧
       allowed r = false ∧ remaining r = 0 ∧
       resetIn r = ceil_div (o + config.RATE_LIMIT_WINDOW - now) 1000.
Proof.
  intros Hmt Hpre Hlen. unfold checkLimit. fold ident. rewrite Hmt.
  change (default [] (Some (o :: pre))) with (o :: pre).
  rewrite in_window_all
    by (eapply Forall_impl; [exact Hpre|]; simpl; intros; lia).
  destruct (jslength (o :: pre) >=? config.MAX_MESSAGES_PER_MINUTE) eqn:E.
  - eexists. split; [reflexivity|]. done.
  - rewrite Z.geb_leb in E. apply Z.leb_gt in E. lia.
Qed.

(** Calls within one window after [pre], while the limit is not
    reached, are all accepted; the stored array grows by the clock
    readings, in order. *)
Lemma checkLimits_fresh nows : ∀ mt pre,
  mt !! ident = Some pre →
  (∀ t n, t ∈ pre ++ nows → n ∈ nows → n - t < config.RATE_LIMIT_WINDOW) →
  jslength pre + jslength nows <= config.MAX_MESSAGES_PER_MINUTE →
  ∃ rs mt',
    checkLimits nows clientId ip mt = (rs, mt') ∧
    mt' !! ident = Some (pre ++ nows) ∧
    Forall (λ r, allowed r = true) rs ∧
    remaining <$> rs =
      (λ k, config.MAX_MESSAGES_PER_MINUTE - (jslength pre + 1 + Z.of_nat k))
        <$> seq 0 (length nows).
Proof.
  induction nows as [|now nows IH]; intros mt pre Hmt Hwin Hlen.
  - exists [], mt. simpl. rewrite app_nil_r. done.
  - unfold jslength in Hlen. simpl in Hlen.
    assert (Hstep := checkLimit_fresh now mt pre Hmt).
    cbn [checkLimits]. rewrite Hstep; clear Hstep.
    2:{ apply Forall_forall. intros t Ht. apply Hwin.
        - apply elem_of_app. by left.
        - apply list_elem_of_here. }
    2:{ unfold jslength. lia. }
    destruct (IH (<[ident := pre ++ [now]]> mt) (pre ++ [now]))
      as (rs & mt' & Hrun & Hst & Hall & Hrem).
    + by rewrite lookup_insert_eq.
    + intros t n Ht Hn. apply Hwin; [|by apply list_elem_of_further].
      rewrite <- app_assoc in Ht. done.
    + unfold jslength. rewrite length_app. simpl. lia.
    + rewrite Hrun. eexists _, _. split; [reflexivity|].
      split; [by rewrite Hst, <- app_assoc|].
      split; [by constructor|].
      rewrite fmap_cons, Hrem. cbn [length seq fmap list_fmap remaining].
      f_equal; [unfold jslength; lia|].
      rewrite <- fmap_S_seq, <- list_fmap_compose.
      apply list_fmap_ext. intros _ k _. simpl.
      unfold jslength. rewrite length_app. simpl. lia.
Qed.

End one_identifier.

(** C2, general part: what one call computes.  Timestamps [t] with
    [now - t >= W] are pruned before counting; with [M] or more left the
    call is rejected with [resetIn = ceil((oldest + W - now) / 1000)],
    [oldest] being the first kept timestamp; otherwise [now] is appended,
    the call is accepted and [remaining = M - count], [count] being the
    number of timestamps stored after the append. *)
Lemma checkLimit_spec now clientId ip mt :
  let ident := getClientIdentifier clientId ip in
  let stored := default [] (mt !! ident) in
  let kept := filter (λ t, ¬ (now - t >= config.RATE_LIMIT_WINDOW)) stored in
  let '(r, mt') := checkLimit now clientId ip mt in
  if decide (config.MAX_MESSAGES_PER_MINUTE <= jslength kept) then
    allowed r = false ∧
    (∀ oldest, head kept = Some oldest →
       resetIn r = ceil_div (oldest + config.RATE_LIMIT_WINDOW - now) 1000)
  else
    allowed r = true ∧
    mt' = <[ident := kept ++ [now]]> mt ∧
    remaining r = config.MAX_MESSAGES_PER_MINUTE - jslength (kept ++ [now]).
Proof.
  intros ident stored kept.
  assert (Hk : in_window (now - config.RATE_LIMIT_WINDOW) stored = kept).
  { unfold in_window, kept. apply list_filter_iff. intros t. lia. }
  unfold checkLimit. fold ident. fold stored. rewrite Hk.
  destruct (jslength kept >=? config.MAX_MESSAGES_PER_MINUTE) eqn:E;
    case_decide as Hd.
  - split; [done|]. intros oldest ->. done.
  - apply Z.geb_le in E. lia.
  - rewrite Z.geb_leb in E. apply Z.leb_gt in E. lia.
  - done.
Qed.

(** C2 (rate limit exactness).  With [M = 10] and [W = 60000] ms:
    - one call prunes the timestamps [t] with [now - t >= W] before
      counting; with [M] or more left it is rejected with
      [resetIn = ceil((oldest + W - now) / 1000)]; otherwise it appends
      [now], is accepted and reports [remaining = M - count], [count]
      being the number of stored timestamps after the append;
    - eleven back-to-back calls for one identifier (clock readings
      pairwise less than [W] apart, nothing of the identifier left in the
      window at the first call) give [allowed = true] ten times, with
      [remaining] going from 9 down to 0, then [allowed = false] with
      [resetIn > 0]; a further call at least [W] after all of them is
      accepted again. *)
Theorem rate_limit_exactness :
  (∀ now clientId ip mt,
     let ident := getClientIdentifier clientId ip in
     let stored := default [] (mt !! ident) in
     let kept := filter (λ t, ¬ (now - t >= config.RATE_LIMIT_WINDOW)) stored in
     let '(r, mt') := checkLimit now clientId ip mt in
     if decide (config.MAX_MESSAGES_PER_MINUTE <= jslength kept) then
       allowed r = false ∧
       (∀ oldest, head kept = Some oldest →
          resetIn r = ceil_div (oldest + config.RATE_LIMIT_WINDOW - now) 1000)
     else
       allowed r = true ∧
       mt' = <[ident := kept ++ [now]]> mt ∧
       remaining r = config.MAX_MESSAGES_PER_MINUTE - jslength (kept ++ [now])) ∧
  (∀ clientId ip mt (first : Z) (rest : list Z) (last later : Z),
     let calls := first :: rest ++ [last] in
     length rest = 9%nat →
     Forall (λ t, first - t >= 60000)
            (default [] (mt !! getClientIdentifier clientId ip)) →
     Forall (λ a, Forall (λ b, b - a < 60000) calls) calls →
     Forall (λ a, later - a >= 60000) calls →
     ∃ rs mt1 r11 r12 mt2,
       checkLimits (first :: rest) clientId ip mt = (rs, mt1) ∧
       checkLimit last clientId ip mt1 = (r11, mt1) ∧
       checkLimit later clientId ip mt1 = (r12, mt2) ∧
       allowed <$> rs = replicate 10 true ∧
       remaining <$> rs = [9; 8; 7; 6; 5; 4; 3; 2; 1; 0] ∧
       allowed r11 = false ∧ 0 < resetIn r11 ∧
       resetIn r11 = ceil_div (first + 60000 - last) 1000 ∧
       allowed r12 = true).
Proof.
  split; [intros; apply checkLimit_spec|].
  intros clientId ip mt first rest last later calls Hlen Hold Hspan Hlater.
  set (ident := getClientIdentifier clientId ip) in *.
  assert (Hwin : ∀ a b, a ∈ calls → b ∈ calls → b - a < 60000).
  { intros a b Ha Hb. rewrite Forall_forall in Hspan.
    specialize (Hspan a Ha). rewrite Forall_forall in Hspan. auto. }
  assert (Hin : ∀ a, a ∈ first :: rest → a ∈ calls).
  { intros a Ha. unfold calls. rewrite app_comm_cons.
    apply elem_of_app. by left. }
  assert (Hlast : last ∈ calls).
  { unfold calls. rewrite app_comm_cons. apply elem_of_app. right.
    apply list_elem_of_here. }
  cbn [checkLimits].
  rewrite (checkLimit_expired clientId ip first mt) by exact Hold.
  destruct (checkLimits_fresh clientId ip rest
              (<[ident := [first]]> mt) [first])
    as (rs & mt1 & Hrun & Hst & Hall & Hrem).
  { by rewrite lookup_insert_eq. }
  { intros t n Ht Hn. apply Hwin; apply Hin; [done|].
    by apply list_elem_of_further. }
  { unfold jslength. rewrite Hlen. vm_compute. discriminate. }
  fold ident. rewrite Hrun.
  destruct (checkLimit_full clientId ip last mt1 first rest Hst)
    as (r11 & Hrej & Hno & _ & Hreset).
  { apply Forall_forall. intros t Ht. apply Hwin; auto. }
  { unfold jslength. cbn [length]. rewrite Hlen. vm_compute. discriminate. }
  assert (Hacc := checkLimit_expired clientId ip later mt1).
  cbv zeta in Hacc, Hst. fold ident in Hacc, Hst. rewrite Hst in Hacc.
  eexists _, mt1, r11, _, _.
  split; [reflexivity|]. split; [exact Hrej|].
  split; [apply Hacc|].
  { apply Forall_forall. intros t Ht. rewrite Forall_forall in Hlater.
    apply Hlater. auto. }
  rewrite Hlen in Hrem.
  assert (Hlen_rs : length rs = 9%nat).
  { apply (f_equal length) in Hrem. by rewrite !length_fmap in Hrem. }
  split.
  { rewrite fmap_cons, (allowed_all rs Hall), Hlen_rs. reflexivity. }
  split; [rewrite fmap_cons, Hrem; reflexivity|].
  split; [done|].
  rewrite Hreset. split; [|done].
  apply ceil_div_pos.
  assert (last - first < 60000) by (apply Hwin; auto using list_elem_of_here).
  unfold config.RATE_LIMIT_WINDOW. lia.
Qed.

Lemma rate_limit_exactness_witness :
  ∃ rs mt1 r11 r12 mt2,
    checkLimits [1000; 1001; 1002; 1003; 1004; 1005; 1006; 1007; 1008; 1009]
                (lit "c1") (Some (lit "10.0.0.1")) ∅ = (rs, mt1) ∧
    checkLimit 1500 (lit "c1") (Some (lit "10.0.0.1")) mt1 = (r11, mt1) ∧
    checkLimit 61500 (lit "c1") (Some (lit "10.0.0.1")) mt1 = (r12, mt2) ∧
    allowed <$> rs = replicate 10 true ∧
    remaining <$> rs = [9; 8; 7; 6; 5; 4; 3; 2; 1; 0] ∧
    allowed r11 = false ∧ 0 < resetIn r11 ∧
    resetIn r11 = ceil_div (1000 + 60000 - 1500) 1000 ∧
    allowed r12 = true.
Proof.
  apply (proj2 rate_limit_exactness (lit "c1") (Some (lit "10.0.0.1")) ∅
           1000 [1001; 1002; 1003; 1004; 1005; 1006; 1007; 1008; 1009]
           1500 61500).
  - reflexivity.
  - vm_compute. constructor.
  - repeat constructor; vm_compute; reflexivity.
  - repeat constructor; vm_compute; discriminate.
Defined.

(** C9 (a rejected call leaves the limiter's state unchanged).  Whenever
    [checkLimit] answers [allowed = false], the map after the call is the
    map before it: nothing is appended and the pruned array is not
    stored. *)
Theorem rejection_keeps_tracking now clientId ip mt :
  allowed (checkLimit now clientId ip mt).1 = false →
  (checkLimit now clientId ip mt).2 = mt ∧
  (checkLimit now clientId ip mt).2 !! getClientIdentifier clientId ip
    = mt !! getClientIdentifier clientId ip.
Proof.
  unfold checkLimit.
  destruct (jslength _ >=? config.MAX_MESSAGES_PER_MINUTE); simpl.
  - done.
  - discriminate.
Qed.

(** A rejected call on a map that still holds an expired timestamp: the
    expired timestamp stays in the map. *)
Lemma rejection_keeps_tracking_witness :
  let ident := getClientIdentifier (lit "c1") (Some (lit "10.0.0.1")) in
  let mt : gmap (list N) (list Z) :=
    {[ ident := [1; 1000; 1001; 1002; 1003; 1004; 1005; 1006; 1007; 1008;
                 1009] ]} in
  (checkLimit 60500 (lit "c1") (Some (lit "10.0.0.1")) mt).2 = mt ∧
  (checkLimit 60500 (lit "c1") (Some (lit "10.0.0.1")) mt).2 !! ident
    = mt !! ident.
Proof.
  cbv zeta.
  apply (rejection_keeps_tracking 60500 (lit "c1") (Some (lit "10.0.0.1"))).
  vm_compute. reflexivity.
Defined.

End RateLimiterFacts.

(** ** The registry as an insertion-ordered map *)

Section assoc.
Context {V : Type}.
Implicit Types (l : list (jsstring * V)) (k : jsstring) (v : V).

Lemma assoc_get_split k l v :
  assoc_get k l = Some v →
  ∃ l1 l2, l = l1 ++ (k, v) :: l2 ∧ assoc_get k l1 = None ∧
           ∀ v', map_set k v' l = l1 ++ (k, v') :: l2.
Proof.
  induction l as [|[k0 v0] l IH]; [done|]. cbn [assoc_get map_set].
  case_decide as Hk.
  - intros [= ->]. subst k0. exists [], l. done.
  - intros (l1 & l2 & -> & Hn & Hset)%IH.
    exists ((k0, v0) :: l1), l2. cbn [assoc_get app].
    rewrite decide_False by done.
    split; [done|]. split; [done|]. intros v'. by rewrite Hset.
Qed.

Lemma map_set_fresh k v l :
  assoc_get k l = None → map_set k v l = l ++ [(k, v)].
Proof.
  induction l as [|[k0 v0] l IH]; [done|]. cbn [assoc_get map_set app].
  case_decide; [done|]. intros ?. by rewrite IH.
Qed.

Lemma assoc_get_map_set k k' v l :
  assoc_get k' (map_set k v l) =
  if decide (k = k') then Some v else assoc_get k' l.
Proof.
  induction l as [|[k0 v0] l IH]; cbn [assoc_get map_set].
  - done.
  - destruct (decide (k0 = k)) as [->|Hk0]; cbn [assoc_get].
    + repeat case_decide; congruence.
    + rewrite IH. repeat case_decide; congruence.
Qed.

Lemma assoc_get_map_delete k k' l :
  assoc_get k' (map_delete k l) =
  if decide (k = k') then None else assoc_get k' l.
Proof.
  unfold map_delete.
  induction l as [|[k0 v0] l IH]; [by case_decide|].
  rewrite filter_cons. cbn [fst].
  destruct (decide (k0 ≠ k)) as [Hk0|Hk0]; cbn [assoc_get].
  - rewrite IH. repeat case_decide; congruence.
  - apply dec_stable in Hk0. subst k0. rewrite IH.
    repeat case_decide; congruence.
Qed.

Lemma assoc_get_None_delete k l :
  assoc_get k l = None → map_delete k l = l.
Proof.
  unfold map_delete.
  induction l as [|[k0 v0] l IH]; [done|]. cbn [assoc_get].
  case_decide as Hk; [done|]. intros Hl.
  rewrite filter_cons_True by done. by rewrite IH.
Qed.

Lemma assoc_get_elem k l v : assoc_get k l = Some v → (k, v) ∈ l.
Proof.
  intros (l1 & l2 & -> & _)%assoc_get_split.
  apply elem_of_app. right. apply list_elem_of_here.
Qed.

Lemma assoc_get_None_keys k l : assoc_get k l = None ↔ k ∉ l.*1.
Proof.
  induction l as [|[k0 v0] l IH]; cbn [assoc_get fmap list_fmap fst].
  - split; [|done]. intros _. apply not_elem_of_nil.
  - rewrite not_elem_of_cons. case_decide.
    + split; [done|]. intros [? _]. congruence.
    + rewrite IH. split; [intros ?; split; [congruence|done]|by intros [_ ?]].
Qed.

Lemma keys_map_set k v l : NoDup l.*1 → NoDup (map_set k v l).*1.
Proof.
  intros Hl. destruct (assoc_get k l) as [v0|] eqn:E.
  - apply assoc_get_split in E as (l1 & l2 & -> & _ & Hset).
    rewrite Hset. by rewrite !fmap_app, !fmap_cons in *.
  - rewrite map_set_fresh by done. rewrite fmap_app.
    apply NoDup_app. split; [done|]. split; [|apply NoDup_singleton].
    intros x Hx ->%list_elem_of_singleton.
    by apply assoc_get_None_keys in E.
Qed.

Lemma keys_map_delete k l : NoDup l.*1 → NoDup (map_delete k l).*1.
Proof.
  intros Hl. eapply sublist_NoDup; [exact Hl|].
  apply fmap_sublist, sublist_filter.
Qed.

(** With distinct keys, deleting a key removes exactly its entry. *)
Lemma map_delete_split k l1 l2 v :
  NoDup (l1 ++ (k, v) :: l2).*1 →
  map_delete k (l1 ++ (k, v) :: l2) = l1 ++ l2.
Proof.
  rewrite fmap_app, fmap_cons. cbn [fst].
  intros (H1 & Hd & [Hk H2]%NoDup_cons)%NoDup_app.
  unfold map_delete. rewrite filter_app, filter_cons_False by naive_solver.
  fold (map_delete k l1). fold (map_delete k l2).
  rewrite !assoc_get_None_delete; [done| |].
  - by apply assoc_get_None_keys.
  - apply assoc_get_None_keys. intros Hin.
    apply (Hd k Hin). apply list_elem_of_here.
Qed.

End assoc.

(** ** What each operation does to the registry *)

Module RegistryFacts.
Import Predicates.
Import ClientsManager ChatController.

Lemma names_cons k c l :
  names ((k, c) :: l) = option_list (username c) ++ names l.
Proof. unfold names. cbn [omap list_omap snd]. by destruct (username c). Qed.

Lemma names_app l1 l2 : names (l1 ++ l2) = names l1 ++ names l2.
Proof. apply omap_app. Qed.

Lemma elem_of_names u l :
  u ∈ names l ↔ ∃ e, e ∈ l ∧ username e.2 = Some u.
Proof. unfold names. apply list_elem_of_omap. Qed.

Lemma isUsernameTaken_true u w :
  isUsernameTaken u w = true ↔ u ∈ names (clients w).
Proof.
  unfold isUsernameTaken. rewrite elem_of_names, existsb_exists.
  split.
  - intros (e & He & Hu). exists e. apply list_elem_of_In in He.
    split; [done|]. by apply bool_decide_eq_true in Hu.
  - intros (e & He & Hu). exists e. apply list_elem_of_In in He.
    split; [done|]. by apply bool_decide_eq_true.
Qed.

Lemma isUsernameTaken_false u w :
  isUsernameTaken u w = false ↔ u ∉ names (clients w).
Proof.
  rewrite <- isUsernameTaken_true. by destruct (isUsernameTaken u w).
Qed.

Lemma NoDup_names l :
  NoDup (names l) ↔
  ∀ (i j : nat) (e1 e2 : jsstring * Client) (name : jsstring),
    l !! i = Some e1 → l !! j = Some e2 →
    username e1.2 = Some name → username e2.2 = Some name → i = j.
Proof.
  induction l as [|[k c] l IH].
  - split; [|intros; apply NoDup_nil_2]. intros _ i j e1 e2 n H. done.
  - rewrite names_cons. split.
    + intros Hnd [|i] [|j] e1 e2 n H1 H2 Hn1 Hn2; cbn in H1, H2.
      * done.
      * injection H1 as <-. cbn in Hn1. rewrite Hn1 in Hnd.
        apply NoDup_cons in Hnd as [Hnot _]. exfalso. apply Hnot.
        apply elem_of_names. exists e2. split; [|done].
        by eapply list_elem_of_lookup_2.
      * injection H2 as <-. cbn in Hn2. rewrite Hn2 in Hnd.
        apply NoDup_cons in Hnd as [Hnot _]. exfalso. apply Hnot.
        apply elem_of_names. exists e1. split; [|done].
        by eapply list_elem_of_lookup_2.
      * f_equal. apply NoDup_app in Hnd as (_ & _ & Hnd).
        eapply (proj1 IH Hnd); eauto.
    + intros Hp. assert (NoDup (names l)) as Hl.
      { apply IH. intros i j e1 e2 n H1 H2 Hn1 Hn2.
        assert (S i = S j) by (eapply (Hp (S i) (S j)); eauto). lia. }
      destruct (username c) as [n|] eqn:Hc; [|done].
      apply NoDup_cons. split; [|done].
      intros (e & [j Hj]%list_elem_of_lookup_1 & He)%elem_of_names.
      assert (0%nat = S j); [|done].
      eapply (Hp 0%nat (S j) (k, c) e); eauto.
Qed.

Lemma names_unique_alt w : names_unique w ↔ NoDup (names (clients w)).
Proof. symmetry. apply NoDup_names. Qed.

Lemma names_map_delete k l : names (map_delete k l) `sublist_of` names l.
Proof.
  unfold map_delete.
  induction l as [|[k0 c0] l IH]; [done|].
  rewrite filter_cons. case_decide.
  - rewrite !names_cons. by apply sublist_app.
  - rewrite names_cons. by apply sublist_inserts_l.
Qed.

(** Overwriting an entry keeps the names distinct when the new entry is
    anonymous, keeps the name of the entry it replaces, or brings a name
    that nobody holds. *)
Lemma names_map_set k c l :
  NoDup (names l) →
  username c = None ∨
  (∃ c0, assoc_get k l = Some c0 ∧ username c = username c0) ∨
  (∃ u, username c = Some u ∧ u ∉ names l) →
  NoDup (names (map_set k c l)).
Proof.
  intros Hl Hc. destruct (assoc_get k l) as [c0|] eqn:E.
  - apply assoc_get_split in E as Hs. destruct Hs as (l1 & l2 & -> & Hn & Hset).
    rewrite Hset. rewrite names_app, names_cons in *.
    destruct Hc as [Hc|[(c1 & [= <-] & Hc)|(u & Hc & Hu)]]; rewrite Hc.
    + eapply sublist_NoDup; [exact Hl|].
      apply sublist_app; [done|]. by apply sublist_inserts_l.
    + done.
    + change (option_list (Some u)) with [u]. cbn [app].
      assert (NoDup (names l1 ++ names l2)) as Hb.
      { eapply sublist_NoDup; [exact Hl|].
        apply sublist_app; [done|]. by apply sublist_inserts_l. }
      rewrite <- Permutation_middle. apply NoDup_cons. split; [|done].
      intros Hin. apply Hu. apply elem_of_app in Hin as [?|?];
        apply elem_of_app; [by left|right].
      apply elem_of_app. by right.
  - rewrite map_set_fresh by done. rewrite names_app, names_cons.
    destruct Hc as [Hc|[(c1 & [=] & _)|(u & Hc & Hu)]]; rewrite Hc.
    + by rewrite !app_nil_r.
    + change (option_list (Some u)) with [u].
      change (names []) with (@nil (list N)). rewrite app_nil_r.
      apply NoDup_app. split; [done|]. split; [|apply NoDup_singleton].
      intros x Hx ->%list_elem_of_singleton. done.
Qed.

(** *** Frames: what the sending operations leave alone *)

Lemma sendToClient_frame clientId data w :
  let w' := (sendToClient clientId data w).2 in
  clients w' = clients w ∧ messageTracking w' = messageTracking w ∧
  messageQueue w' = messageQueue w ∧
  isProcessingQueue w' = isProcessingQueue w ∧ sleepers w' = sleepers w ∧
  broadcasts w' = broadcasts w ∧ enqueued w' = enqueued w.
Proof. unfold sendToClient. by repeat case_match. Qed.

Lemma broadcast_frame data exclude w :
  let w' := (broadcast data exclude w).2 in
  clients w' = clients w ∧ messageTracking w' = messageTracking w ∧
  messageQueue w' = messageQueue w ∧
  isProcessingQueue w' = isProcessingQueue w ∧ sleepers w' = sleepers w ∧
  broadcasts w' = broadcasts w ++ [data] ∧ enqueued w' = enqueued w.
Proof. unfold broadcast. by repeat case_match. Qed.

Lemma clients_sendToClient clientId data w :
  clients (sendToClient clientId data w).2 = clients w.
Proof. apply sendToClient_frame. Qed.

Lemma clients_sendError now clientId message w :
  clients (sendError now clientId message w) = clients w.
Proof. apply clients_sendToClient. Qed.

Lemma clients_broadcast data exclude w :
  clients (broadcast data exclude w).2 = clients w.
Proof. apply broadcast_frame. Qed.

Lemma clients_drain queue : ∀ w, clients (drain queue w) = clients w.
Proof.
  induction queue as [|m queue IH]; intros w; cbn [drain]; [done|].
  case_match; [unfold with_sleepers; cbn [clients]|rewrite IH];
    by rewrite clients_broadcast.
Qed.

Lemma clients_queueMessage message w :
  clients (queueMessage message w) = clients w.
Proof.
  unfold queueMessage, processMessageQueue.
  case_match; [|done]. by rewrite clients_drain.
Qed.

Lemma clients_wake w : clients (wake w) = clients w.
Proof. unfold wake. case_match; [done|]. by rewrite clients_drain. Qed.

Lemma clients_handleChatMessage now clientId data w :
  clients (handleChatMessage now clientId data w) = clients w.
Proof.
  unfold handleChatMessage.
  repeat case_match;
    by rewrite ?clients_sendError, ?clients_queueMessage.
Qed.

Lemma clients_handlePing now clientId w :
  clients (handlePing now clientId w) = clients w.
Proof. apply clients_sendToClient. Qed.

Lemma clients_handleError now clientId w :
  clients (handleError now clientId w) = clients w.
Proof. unfold handleError. case_match; [apply clients_sendError|done]. Qed.

(** The registry after [handleJoin]. *)
Lemma clients_handleJoin now clientId data w :
  clients (handleJoin now clientId data w) =
  match getClient clientId w,
        validateUsername (prop data (lit "username")) with
  | Some c, Valid u =>
      if isUsernameTaken (sanitize u) w then clients w
      else map_set clientId (rename (Some (sanitize u)) now c) (clients w)
  | _, _ => clients w
  end.
Proof.
  unfold handleJoin.
  destruct (getClient clientId w) as [c|] eqn:Hc; [|done].
  destruct (validateUsername _) as [u|e]; [|apply clients_sendError].
  destruct (isUsernameTaken _ w); [apply clients_sendError|].
  rewrite clients_broadcast, clients_sendToClient.
  unfold setUsername. by rewrite Hc.
Qed.

Lemma clients_updateActivity now clientId w :
  clients (updateActivity now clientId w) =
  match getClient clientId w with
  | Some c => map_set clientId (rename (username c) now c) (clients w)
  | None => clients w
  end.
Proof. unfold updateActivity. by case_match. Qed.

(** *** Name uniqueness is kept by every operation *)

Lemma names_unique_frame w w' :
  clients w' = clients w → names_unique w → names_unique w'.
Proof. unfold names_unique. by intros ->. Qed.

Lemma names_unique_initial : names_unique initial.
Proof. apply names_unique_alt. apply NoDup_nil_2. Qed.

Lemma names_unique_addClient now clientId s a w :
  names_unique w → names_unique (addClient now clientId s a w).2.
Proof.
  rewrite !names_unique_alt. intros Hw. cbn.
  apply names_map_set; [done|]. by left.
Qed.

Lemma names_unique_removeClient clientId w :
  names_unique w → names_unique (removeClient clientId w).2.
Proof.
  rewrite !names_unique_alt. unfold removeClient.
  case_match; [|done]. cbn. intros Hw.
  eapply sublist_NoDup; [exact Hw|apply names_map_delete].
Qed.

Lemma names_unique_setUsername now clientId name w :
  isUsernameTaken name w = false →
  names_unique w → names_unique (setUsername now clientId name w).2.
Proof.
  rewrite !names_unique_alt, isUsernameTaken_false. intros Hfree Hw.
  unfold setUsername. case_match; [|done]. cbn.
  apply names_map_set; [done|]. right. right. by exists name.
Qed.

Lemma names_unique_handleJoin now clientId data w :
  names_unique w → names_unique (handleJoin now clientId data w).
Proof.
  rewrite !names_unique_alt, clients_handleJoin. intros Hw.
  destruct (getClient clientId w) as [c|]; [|done].
  destruct (validateUsername _) as [u|]; [|done].
  destruct (isUsernameTaken _ w) eqn:Ht; [done|].
  apply names_map_set; [done|]. right. right.
  exists (sanitize u). split; [done|]. by apply isUsernameTaken_false.
Qed.

Lemma names_unique_updateActivity now clientId w :
  names_unique w → names_unique (updateActivity now clientId w).
Proof.
  rewrite !names_unique_alt, clients_updateActivity. intros Hw.
  destruct (getClient clientId w) as [c|] eqn:Hc; [|done].
  apply names_map_set; [done|]. right. left. by exists c.
Qed.

Lemma names_unique_set_socket clientId s w :
  names_unique w → names_unique (set_socket clientId s w).
Proof.
  rewrite !names_unique_alt. unfold set_socket. intros Hw.
  destruct (getClient clientId w) as [c|] eqn:Hc; [|done]. cbn.
  apply names_map_set; [done|]. right. left. by exists c.
Qed.

Lemma names_unique_cleanupDeadConnections now w :
  names_unique w → names_unique (cleanupDeadConnections now w).2.
Proof.
  unfold cleanupDeadConnections. cbn [snd].
  generalize (omap (λ e : jsstring * Client,
                      if is_dead now e.2 then Some e.1 else None)
                   (clients w)).
  intros dead. revert w.
  induction dead as [|d dead IH]; intros w Hw; [done|].
  cbn [foldl]. by apply IH, names_unique_removeClient.
Qed.

Lemma names_unique_handleMessage now clientId rawData w :
  names_unique w → names_unique (handleMessage now clientId rawData w).
Proof.
  intros Hw. unfold handleMessage.
  repeat case_match;
    try (eapply names_unique_frame; [apply clients_sendError|]);
    try (eapply names_unique_frame; [apply clients_handleChatMessage|]);
    try (eapply names_unique_frame; [apply clients_handlePing|]);
    try apply names_unique_handleJoin;
    try apply names_unique_updateActivity; done.
Qed.

Lemma names_unique_handleDisconnect now clientId w :
  names_unique w → names_unique (handleDisconnect now clientId w).
Proof.
  intros Hw. unfold handleDisconnect. apply names_unique_removeClient.
  repeat case_match; try done.
  eapply names_unique_frame; [apply clients_broadcast|done].
Qed.

Lemma names_unique_step ev w : names_unique w → names_unique (step ev w).
Proof.
  intros Hw. destruct ev; cbn [step].
  - eapply names_unique_frame; [apply clients_sendToClient|].
    by apply names_unique_addClient.
  - by apply names_unique_handleMessage.
  - eapply names_unique_frame; [apply clients_handleError|done].
  - by apply names_unique_handleDisconnect.
  - by apply names_unique_cleanupDeadConnections.
  - done.
  - eapply names_unique_frame; [apply clients_wake|done].
  - by apply names_unique_set_socket.
Qed.

Lemma names_unique_run evs : ∀ w, names_unique w → names_unique (run evs w).
Proof.
  unfold run. induction evs as [|ev evs IH]; intros w Hw; [done|].
  cbn [foldl]. by apply IH, names_unique_step.
Qed.

(** C1 (name uniqueness).  In every state the server reaches from its
    start, no two registered connections hold the same non-null display
    name (names are compared code unit by code unit); and each operation
    that sets, removes or changes a name keeps this: [addClient],
    [handleJoin] (which calls [setUsername] only after [isUsernameTaken]
    answered false), [setUsername] under that guard, [removeClient],
    [cleanupDeadConnections], and every event of the server. *)
Theorem name_uniqueness_invariant :
  (∀ evs, names_unique (run evs initial)) ∧
  (∀ w, names_unique w →
     (∀ now clientId s a, names_unique (addClient now clientId s a w).2) ∧
     (∀ now clientId data, names_unique (handleJoin now clientId data w)) ∧
     (∀ now clientId name,
        isUsernameTaken name w = false →
        names_unique (setUsername now clientId name w).2) ∧
     (∀ clientId, names_unique (removeClient clientId w).2) ∧
     (∀ now, names_unique (cleanupDeadConnections now w).2) ∧
     (∀ ev, names_unique (step ev w))).
Proof.
  split.
  - intros evs. apply names_unique_run, names_unique_initial.
  - intros w Hw.
    split; [intros; by apply names_unique_addClient|].
    split; [intros; by apply names_unique_handleJoin|].
    split; [intros; by apply names_unique_setUsername|].
    split; [intros; by apply names_unique_removeClient|].
    split; [intros; by apply names_unique_cleanupDeadConnections|].
    intros; by apply names_unique_step.
Qed.

End RegistryFacts.

(** ** Joining *)

Module JoinFacts.
Import Predicates.
Import ClientsManager ChatController RegistryFacts.

Lemma map_set_view {V W} (f : V → W) k v (l : list (jsstring * V)) :
  (λ e : jsstring * V, (e.1, f e.2)) <$> map_set k v l =
  map_set k (f v) ((λ e : jsstring * V, (e.1, f e.2)) <$> l).
Proof.
  induction l as [|[k0 v0] l IH]; [done|].
  cbn [map_set fmap list_fmap fst snd]. case_decide; [done|].
  cbn [fmap list_fmap fst snd]. f_equal. apply IH.
Qed.

Lemma assoc_get_view {V W} (f : V → W) k (l : list (jsstring * V)) :
  assoc_get k ((λ e : jsstring * V, (e.1, f e.2)) <$> l) =
  f <$> assoc_get k l.
Proof.
  induction l as [|[k0 v0] l IH]; [done|].
  cbn [assoc_get fmap list_fmap fst snd]. by case_decide.
Qed.

Lemma map_set_same {V} k (v : V) l :
  assoc_get k l = Some v → map_set k v l = l.
Proof.
  intros (l1 & l2 & -> & _ & Hset)%assoc_get_split. apply Hset.
Qed.

Lemma name_view_frame w w' : clients w' = clients w → name_view w' = name_view w.
Proof. unfold name_view. by intros ->. Qed.

Lemma name_view_updateActivity now clientId w :
  name_view (updateActivity now clientId w) = name_view w.
Proof.
  unfold name_view. rewrite clients_updateActivity.
  destruct (getClient clientId w) as [c|] eqn:Hc; [|done].
  rewrite (map_set_view username). cbn [rename username].
  apply map_set_same. rewrite (assoc_get_view username).
  unfold getClient in Hc. by rewrite Hc.
Qed.

Lemma getClient_updateActivity now clientId w :
  is_Some (getClient clientId (updateActivity now clientId w)) ↔
  is_Some (getClient clientId w).
Proof.
  unfold getClient at 1. rewrite clients_updateActivity.
  destruct (getClient clientId w) as [c|] eqn:Hc.
  - rewrite assoc_get_map_set, decide_True by done. by split; eexists.
  - unfold getClient in Hc. by rewrite Hc.
Qed.

Lemma names_view w : names (clients w) = omap snd (name_view w).
Proof.
  unfold names, name_view.
  induction (clients w) as [|[k c] l IH]; [done|].
  rewrite fmap_cons. cbn [omap list_omap fst snd].
  destruct (username c); [f_equal|]; exact IH.
Qed.

Lemma isUsernameTaken_view name w w' :
  name_view w' = name_view w →
  isUsernameTaken name w' = isUsernameTaken name w.
Proof.
  intros Hv.
  assert (names (clients w') = names (clients w)) as Hn.
  { by rewrite !names_view, Hv. }
  destruct (isUsernameTaken name w) eqn:E.
  - apply isUsernameTaken_true. rewrite Hn. by apply isUsernameTaken_true.
  - apply isUsernameTaken_false. rewrite Hn. by apply isUsernameTaken_false.
Qed.

(** *** Who receives what *)

Lemma broadcast_loop_frames l data exclude :
  (broadcast_loop l data exclude).1.1 =
  (λ k, (k, data)) <$> recipients l exclude.
Proof.
  induction l as [|[k c] l IH]; [done|].
  cbn [broadcast_loop recipients omap list_omap fst snd].
  destruct (broadcast_loop l data exclude) as [[frames sc] fc].
  cbn [fst] in IH. subst frames.
  destruct (excluded exclude k); [done|].
  destruct (is_open c); [|done].
  by destruct (send_throws c).
Qed.

Lemma wire_broadcast data exclude w :
  wire (broadcast data exclude w).2 =
  wire w ++ ((λ k, (k, data)) <$> recipients (clients w) exclude).
Proof.
  unfold broadcast. rewrite <- broadcast_loop_frames.
  by destruct (broadcast_loop (clients w) data exclude) as [[frames sc] fc].
Qed.

Lemma wire_sendToClient clientId data w :
  wire (sendToClient clientId data w).2 =
  wire w ++ (if reachable clientId w then [(clientId, data)] else []).
Proof.
  unfold sendToClient, reachable.
  destruct (getClient clientId w) as [c|]; [|by rewrite app_nil_r].
  destruct (is_open c); [|by rewrite app_nil_r].
  destruct (send_throws c); [by rewrite app_nil_r|done].
Qed.

(** *** The name a connection holds *)

(** C6, as the code has it.  A connection is registered without a name,
    and an inbound frame changes the names of the registry in one case
    only: it is a [join] of a registered connection with a valid name
    that no registered connection holds, and then that connection gets
    the new name, whether it had one before or not.  Every other inbound
    frame (chat message, ping, rejected join, malformed frame) leaves
    every name as it was. *)
Theorem name_set_only_by_join :
  (∀ now clientId s a w,
     username <$> getClient clientId (addClient now clientId s a w).2
     = Some None) ∧
  (∀ now clientId rawData w,
     let w' := handleMessage now clientId rawData w in
     name_view w' = name_view w ∨
     ∃ data u,
       rawData = Some data ∧
       prop data (lit "type") = Some (JStr (lit "join")) ∧
       is_Some (getClient clientId w) ∧
       validateUsername (prop data (lit "username")) = Valid u ∧
       isUsernameTaken (sanitize u) w = false ∧
       name_view w' = map_set clientId (Some (sanitize u)) (name_view w)).
Proof.
  split.
  { intros. unfold getClient, addClient. cbn [snd clients with_clients].
    by rewrite assoc_get_map_set, decide_True. }
  intros now clientId rawData w. cbv zeta. unfold handleMessage.
  destruct rawData as [data|];
    [|left; apply name_view_frame, clients_sendError].
  destruct (validateMessage data);
    [|left; apply name_view_frame, clients_sendError].
  pose proof (name_view_updateActivity now clientId w) as Hv.
  set (w1 := updateActivity now clientId w) in *.
  assert (∀ m, name_view (sendError now clientId m w1) = name_view w) as He.
  { intros m. rewrite <- Hv. apply name_view_frame, clients_sendError. }
  destruct (prop data (lit "type")) as [[| | |type| |]|] eqn:Ht;
    try (left; apply He).
  destruct (decide (type = lit "join")) as [->|_].
  - unfold name_view at 1 3. rewrite clients_handleJoin.
    destruct (getClient clientId w1) as [c1|] eqn:Hc1; [|by left].
    destruct (validateUsername _) as [u|] eqn:Hu; [|by left].
    rewrite (isUsernameTaken_view _ w w1 Hv).
    destruct (isUsernameTaken (sanitize u) w) eqn:Htaken; [by left|].
    right. exists data, u. repeat (split; [done|]).
    split.
    { apply (getClient_updateActivity now). fold w1. by rewrite Hc1. }
    split; [done|]. split; [done|].
    rewrite (map_set_view username). cbn [rename username].
    fold (name_view w1). by rewrite Hv.
  - left. destruct (decide (type = lit "message")) as [->|_].
    { rewrite <- Hv. apply name_view_frame, clients_handleChatMessage. }
    destruct (decide (type = lit "ping")) as [->|_]; [|apply He].
    rewrite <- Hv. apply name_view_frame, clients_handlePing.
Qed.

(** C6 as stated fails: Ana's connection joins again as Bob and its
    stored name changes. *)
Lemma name_immutability_counterexample :
  let w := Scenarios.ana_joined in
  let w' := handleMessage 130 Scenarios.c1 (Scenarios.join (lit "Bob")) w in
  username <$> getClient Scenarios.c1 w = Some (Some (lit "Ana")) ∧
  username <$> getClient Scenarios.c1 w' = Some (Some (lit "Bob")) ∧
  username <$> getClient Scenarios.c1 w' ≠
  username <$> getClient Scenarios.c1 w.
Proof. vm_compute. done. Qed.

(** C5, as the code has it.  [setUsername] fails exactly when the id is
    unknown, and otherwise stores the name without looking at the other
    connections.  The name check is in [handleJoin]: a join of a
    registered connection with a valid name is rejected with
    USERNAME_TAKEN exactly when some registered connection, the joining
    one included, holds that name; otherwise the name is stored. *)
Theorem join_name_taken :
  (∀ now clientId name w,
     ((setUsername now clientId name w).1 = false ↔
      getClient clientId w = None) ∧
     (∀ c, getClient clientId w = Some c →
           getClient clientId (setUsername now clientId name w).2
           = Some (rename (Some name) now c))) ∧
  (∀ now clientId data w c u,
     getClient clientId w = Some c →
     validateUsername (prop data (lit "username")) = Valid u →
     sanitize u = u ∧
     (isUsernameTaken u w = true ↔
      ∃ e, e ∈ clients w ∧ username e.2 = Some u) ∧
     (isUsernameTaken u w = true →
      handleJoin now clientId data w =
      sendError now clientId config.MESSAGES.USERNAME_TAKEN w) ∧
     (isUsernameTaken u w = false →
      getClient clientId (handleJoin now clientId data w)
      = Some (rename (Some u) now c))).
Proof.
  split.
  - intros now clientId name w. unfold setUsername.
    destruct (getClient clientId w) as [c|] eqn:Hc.
    + split; [done|]. intros c' [= <-]. unfold getClient.
      cbn [snd clients with_clients].
      by rewrite assoc_get_map_set, decide_True.
    + done.
  - intros now clientId data w c u Hc Hu.
    assert (sanitize u = u) as Hs.
    { apply validateUsername_Valid in Hu as (s & _ & _ & _ & Hcl).
      by apply sanitize_valid. }
    split; [done|].
    split; [rewrite isUsernameTaken_true; apply elem_of_names|].
    split.
    + intros Ht. unfold handleJoin. by rewrite Hc, Hu, Hs, Ht.
    + intros Ht. unfold getClient at 1.
      rewrite clients_handleJoin, Hc, Hu, Hs, Ht.
      by rewrite assoc_get_map_set, decide_True.
Qed.

Lemma join_name_taken_witness :
  let w := Scenarios.ana_joined in
  let data := JObj [(lit "type", JStr (lit "join"));
                    (lit "username", JStr (lit " Ana "))] in
  isUsernameTaken (lit "Ana") w = true ∧
  handleJoin 130 Scenarios.c2 data w =
  sendError 130 Scenarios.c2 config.MESSAGES.USERNAME_TAKEN w.
Proof.
  cbv zeta.
  destruct (proj2 join_name_taken 130 Scenarios.c2
              (JObj [(lit "type", JStr (lit "join"));
                     (lit "username", JStr (lit " Ana "))])
              Scenarios.ana_joined
              {| client_id := Scenarios.c2; ws := Scenarios.open_socket;
                 username := None; ip := lit "10.0.0.2";
                 connectedAt := 120; lastActivity := 120 |}
              (lit "Ana"))
    as (_ & _ & Hrej & _).
  - vm_compute. reflexivity.
  - vm_compute. reflexivity.
  - split; [vm_compute; reflexivity|]. apply Hrej. vm_compute. reflexivity.
Defined.

(** C5 as stated fails: Ana's own connection joins as Ana again; nobody
    else holds the name, and the join is rejected as taken. *)
Lemma self_join_counterexample :
  let w := Scenarios.ana_joined in
  let w' := handleMessage 130 Scenarios.c1 (Scenarios.join (lit "Ana")) w in
  name_view w = [(Scenarios.c1, Some (lit "Ana")); (Scenarios.c2, None)] ∧
  wire w' =
    wire w ++ [(Scenarios.c1, Error config.MESSAGES.USERNAME_TAKEN 130)] ∧
  name_view w' = name_view w.
Proof. vm_compute. done. Qed.

(** C10 (sanitize is the identity on valid usernames).  A name that
    [validateUsername] accepts is the trimmed input and [sanitize]
    returns it unchanged; so after a successful [handleJoin] the name
    stored on the connection and the [username] of the [joined] and
    [userJoined] payloads are the trimmed input, code unit by code
    unit. *)
Theorem sanitize_identity_on_usernames v u :
  validateUsername v = Valid u →
  sanitize u = u ∧
  ∃ s, v = Some (JStr s) ∧ u = trim s ∧
    ∀ now clientId data w,
      prop data (lit "username") = v →
      is_Some (getClient clientId w) →
      isUsernameTaken (trim s) w = false →
      let w' := handleJoin now clientId data w in
      let joined :=
        Joined (trim s) (lit "Te has unido al chat exitosamente")
               (getActiveUsers w') in
      let userJoined :=
        UserJoined (trim s)
          (trim s ++ lit " " ++ config.MESSAGES.USER_JOINED) now
          (getActiveUsers w') in
      username <$> getClient clientId w' = Some (Some (trim s)) ∧
      broadcasts w' = broadcasts w ++ [userJoined] ∧
      wire w' =
        wire w ++
        (if reachable clientId w' then [(clientId, joined)] else []) ++
        ((λ k, (k, userJoined)) <$> recipients (clients w') (Some clientId)).
Proof.
  intros Hu.
  apply validateUsername_Valid in Hu as Hv.
  destruct Hv as (s & -> & -> & _ & Hcl).
  assert (sanitize (trim s) = trim s) as Hs by by apply sanitize_valid.
  split; [done|]. exists s. split; [done|]. split; [done|].
  intros now clientId data w Hd [c Hc] Ht. cbv zeta.
  assert (Hcl' := clients_handleJoin now clientId data w).
  rewrite Hc, Hd, Hu, Hs, Ht in Hcl'.
  split.
  { unfold getClient. rewrite Hcl'.
    by rewrite assoc_get_map_set, decide_True. }
  assert (∀ w1 w2, clients w1 = clients w2 →
                   getActiveUsers w1 = getActiveUsers w2) as Hact.
  { unfold getActiveUsers. by intros ?? ->. }
  assert (∀ w1 w2, clients w1 = clients w2 →
                   reachable clientId w1 = reachable clientId w2) as Hreach.
  { unfold reachable, getClient. by intros ?? ->. }
  unfold handleJoin in *. rewrite Hc, Hd, Hu, Hs, Ht in *.
  set (w1 := (setUsername now clientId (trim s) w).2) in *.
  assert (wire w1 = wire w ∧ broadcasts w1 = broadcasts w) as [Hw1 Hb1].
  { unfold w1, setUsername. by rewrite Hc. }
  set (j := Joined _ _ _) in *.
  set (w2 := (sendToClient clientId j w1).2) in *.
  assert (clients w2 = clients w1) as Hc2 by apply clients_sendToClient.
  set (uj := UserJoined _ _ _ _) in *.
  assert (clients (broadcast uj (Some clientId) w2).2 = clients w1) as Hc3.
  { by rewrite clients_broadcast. }
  rewrite (Hact _ w1 Hc3). rewrite (Hreach _ w1 Hc3). rewrite Hc3.
  split.
  - destruct (broadcast_frame uj (Some clientId) w2)
      as (_ & _ & _ & _ & _ & -> & _).
    destruct (sendToClient_frame clientId j w1)
      as (_ & _ & _ & _ & _ & Hb & _).
    fold w2 in Hb. rewrite Hb, Hb1. unfold uj. by rewrite (Hact w2 w1 Hc2).
  - rewrite wire_broadcast. unfold w2 at 1. rewrite wire_sendToClient.
    rewrite Hw1, Hc2, <- app_assoc. unfold uj. by rewrite (Hact w2 w1 Hc2).
Qed.

Lemma sanitize_identity_on_usernames_witness :
  sanitize (lit "Ana Li") = lit "Ana Li" ∧
  ∃ s, Some (JStr (lit "  Ana Li ")) = Some (JStr s) ∧ lit "Ana Li" = trim s.
Proof.
  destruct (sanitize_identity_on_usernames
              (Some (JStr (lit "  Ana Li "))) (lit "Ana Li"))
    as (Hs & s & Hv & Ht & _).
  - vm_compute. reflexivity.
  - split; [exact Hs|]. exists s. by split.
Defined.

End JoinFacts.

(** ** Leaving *)

Module DisconnectFacts.
Import Predicates.
Import ClientsManager ChatController RegistryFacts JoinFacts.

(** *** The registry holds each id once, in every reachable state *)

Lemma keys_unique_frame w w' :
  clients w' = clients w → keys_unique w → keys_unique w'.
Proof. unfold keys_unique. by intros ->. Qed.

Lemma keys_unique_removeClient clientId w :
  keys_unique w → keys_unique (removeClient clientId w).2.
Proof.
  unfold keys_unique, removeClient. case_match; [|done].
  apply keys_map_delete.
Qed.

Lemma keys_unique_step ev w : keys_unique w → keys_unique (step ev w).
Proof.
  unfold keys_unique. intros Hw. destruct ev; cbn [step].
  - unfold addClient. rewrite clients_sendToClient. by apply keys_map_set.
  - unfold handleMessage.
    assert (NoDup (clients (updateActivity now clientId w)).*1) as Hu.
    { rewrite clients_updateActivity. case_match; [|done].
      by apply keys_map_set. }
    repeat case_match;
      rewrite ?clients_sendError, ?clients_handleChatMessage,
        ?clients_handlePing; try done.
    rewrite clients_handleJoin. repeat case_match; try done.
    by apply keys_map_set.
  - by rewrite clients_handleError.
  - unfold handleDisconnect. apply keys_unique_removeClient.
    repeat case_match; try done.
    eapply keys_unique_frame; [apply clients_broadcast|done].
  - unfold cleanupDeadConnections. cbn [snd].
    generalize (omap (λ e : jsstring * Client,
                        if is_dead now e.2 then Some e.1 else None)
                     (clients w)).
    intros dead. revert w Hw.
    induction dead as [|d dead IH]; intros w Hw; [done|].
    cbn [foldl]. by apply IH, keys_unique_removeClient.
  - done.
  - by rewrite clients_wake.
  - unfold set_socket. case_match; [|done]. by apply keys_map_set.
Qed.

Lemma keys_unique_run evs : ∀ w, keys_unique w → keys_unique (run evs w).
Proof.
  unfold run. induction evs as [|ev evs IH]; intros w Hw; [done|].
  cbn [foldl]. by apply IH, keys_unique_step.
Qed.

Lemma keys_unique_reachable evs : keys_unique (run evs initial).
Proof. apply keys_unique_run. apply NoDup_nil_2. Qed.

(** *** The roster *)

Lemma getActiveUsers_active w : getActiveUsers w = active (clients w).
Proof. done. Qed.

Lemma active_names l u : u ∈ active l → user_username u ∈ names l.
Proof.
  unfold active. intros (e & He & Hu)%list_elem_of_omap.
  apply elem_of_names. exists e. split; [done|].
  destruct (username e.2) as [[|a n]|]; try done. by injection Hu as <-.
Qed.

Lemma filter_other_names name (us : list User) :
  (∀ u, u ∈ us → user_username u ≠ name) →
  filter (λ u, user_username u ≠ name) us = us.
Proof.
  induction us as [|u us IH]; intros H; [done|].
  rewrite filter_cons_True by (apply H, list_elem_of_here).
  f_equal. apply IH. intros u' Hu'. by apply H, list_elem_of_further.
Qed.

Lemma active_other name l :
  name ∉ names l → filter (λ u, user_username u ≠ name) (active l) = active l.
Proof.
  intros Hn. apply filter_other_names.
  intros u Hu <-. by apply Hn, active_names.
Qed.

(** Under name uniqueness, filtering the roster by the name of a
    connection removes that connection and nobody else. *)
Lemma roster_without clientId c name w :
  keys_unique w → names_unique w →
  getClient clientId w = Some c → username c = Some name →
  filter (λ u, user_username u ≠ name) (getActiveUsers w) =
  getActiveUsers (removeClient clientId w).2.
Proof.
  intros Hk Hn Hc Hname. unfold removeClient. rewrite Hc.
  rewrite !getActiveUsers_active. cbn [snd clients with_clients].
  apply names_unique_alt in Hn. unfold keys_unique, getClient in *.
  apply assoc_get_split in Hc as (l1 & l2 & Hl & _ & _).
  rewrite Hl in *. rewrite map_delete_split by done.
  rewrite names_app, names_cons, Hname in Hn.
  change (option_list (Some name)) with [name] in Hn. cbn [app] in Hn.
  apply NoDup_app in Hn as (_ & Hd & [Hn2 _]%NoDup_cons).
  unfold active. rewrite !omap_app. fold (active l1) (active l2).
  cbn [omap list_omap snd]. fold (active l2).
  rewrite filter_app, (active_other name l1).
  2:{ intros Hin. apply (Hd name Hin), list_elem_of_here. }
  f_equal. rewrite Hname. destruct name as [|a n].
  - by apply active_other.
  - rewrite filter_cons_False by (cbn; tauto). by apply active_other.
Qed.

Lemma recipients_reachable clientId w :
  keys_unique w →
  clientId ∈ recipients (clients w) None ↔ reachable clientId w = true.
Proof.
  intros Hk. unfold recipients, reachable, getClient, keys_unique in *.
  rewrite list_elem_of_omap. cbn [excluded]. split.
  - intros ([k c] & He & Hr). cbn [fst snd] in Hr.
    destruct (is_open c && negb (send_throws c)) eqn:Ho; [|done].
    injection Hr as ->.
    apply list_elem_of_split in He as (l1 & l2 & Hl). rewrite Hl in *.
    destruct (assoc_get clientId (l1 ++ (clientId, c) :: l2))
      as [c'|] eqn:Hc.
    + apply assoc_get_elem in Hc as Hin.
      apply list_elem_of_split in Hin as (l1' & l2' & Hl').
      assert (c' = c) as ->; [|done].
      rewrite fmap_app, fmap_cons in Hk. cbn [fst] in Hk.
      apply NoDup_app in Hk as (_ & Hd & [Hn2 _]%NoDup_cons).
      assert ((clientId, c') ∈ l1 ++ (clientId, c) :: l2) as Hin'.
      { rewrite Hl'. apply elem_of_app. right. apply list_elem_of_here. }
      apply elem_of_app in Hin' as [Hin'|Hin'].
      * exfalso. apply (Hd clientId); [|apply list_elem_of_here].
        apply list_elem_of_fmap. by exists (clientId, c').
      * apply elem_of_cons in Hin' as [[= ->]|Hin']; [done|].
        exfalso. apply Hn2. apply list_elem_of_fmap.
        by exists (clientId, c').
    + apply assoc_get_None_keys in Hc. exfalso. apply Hc.
      rewrite fmap_app, fmap_cons. apply elem_of_app. right.
      apply list_elem_of_here.
  - destruct (assoc_get clientId (clients w)) as [c|] eqn:Hc; [|done].
    intros Ho. exists (clientId, c). cbn [fst snd]. rewrite Ho.
    split; [|done]. by apply assoc_get_elem.
Qed.

(** What [handleDisconnect] does for a named connection, as the call is
    written: the [userLeft] payload, whose roster is the list of active
    users without the entries of that name, is handed to [broadcast]
    without an [excludeClientId]; then the connection is removed, and a
    second call changes nothing. *)
Lemma handleDisconnect_named now clientId w c name :
  keys_unique w → names_unique w →
  getClient clientId w = Some c → username c = Some name → name ≠ [] →
  let users := getActiveUsers (removeClient clientId w).2 in
  let payload :=
    UserLeft name (name ++ lit " " ++ config.MESSAGES.USER_LEFT) now users in
  let w' := handleDisconnect now clientId w in
  filter (λ u, user_username u ≠ name) (getActiveUsers w) = users ∧
  w' = (removeClient clientId (broadcast payload None w).2).2 ∧
  broadcasts w' = broadcasts w ++ [payload] ∧
  wire w' = wire w ++ ((λ k, (k, payload)) <$> recipients (clients w) None) ∧
  (clientId ∈ recipients (clients w) None ↔
   is_open c = true ∧ send_throws c = false) ∧
  clients w' = map_delete clientId (clients w) ∧
  getClient clientId w' = None ∧
  ∀ now', handleDisconnect now' clientId w' = w'.
Proof.
  intros Hk Hn Hc Hname Hne. cbv zeta.
  pose proof (roster_without clientId c name w Hk Hn Hc Hname) as Hr.
  split; [done|].
  assert (handleDisconnect now clientId w =
          (removeClient clientId
             (broadcast
                (UserLeft name (name ++ lit " " ++ config.MESSAGES.USER_LEFT)
                   now (getActiveUsers (removeClient clientId w).2))
                None w).2).2) as Hd.
  { unfold handleDisconnect. rewrite Hc, Hname.
    destruct name as [|a n]; [done|]. by rewrite Hr. }
  split; [done|]. rewrite Hd.
  set (payload := UserLeft _ _ _ _).
  set (w1 := (broadcast payload None w).2).
  assert (getClient clientId w1 = Some c) as Hc1.
  { unfold getClient, w1. by rewrite clients_broadcast. }
  assert (removeClient clientId w1 =
          (Some c, with_clients (map_delete clientId (clients w1)) w1)) as Hrm.
  { unfold removeClient. by rewrite Hc1. }
  rewrite Hrm. cbn [snd broadcasts wire clients with_clients].
  split; [apply broadcast_frame|].
  split; [apply wire_broadcast|].
  split.
  { rewrite recipients_reachable by done. unfold reachable. rewrite Hc.
    rewrite andb_true_iff, negb_true_iff. done. }
  split; [unfold w1; by rewrite clients_broadcast|].
  assert (getClient clientId
            (with_clients (map_delete clientId (clients w1)) w1) = None)
    as Hgone.
  { unfold getClient. cbn [clients with_clients].
    by rewrite assoc_get_map_delete, decide_True. }
  split; [done|].
  intros now'. unfold handleDisconnect. cbv zeta. rewrite Hgone.
  unfold removeClient. by rewrite Hgone.
Qed.

(** An [excludeClientId] only ever keeps its own id out. *)
Lemma excluded_other k k' : k' ≠ k → excluded (Some k) k' = false.
Proof.
  intros Hk. destruct k as [|a k]; [done|]. cbn [excluded].
  by rewrite bool_decide_eq_false.
Qed.

Lemma recipients_filter l exclude :
  recipients l exclude =
  filter (λ k, excluded exclude k = false) (recipients l None).
Proof.
  unfold recipients. induction l as [|[k c] l IH]; [done|].
  cbn [omap list_omap fst snd]. rewrite IH.
  change (excluded None k) with false. cbv iota.
  destruct (is_open c && negb (send_throws c)).
  - destruct (excluded exclude k) eqn:E.
    + by rewrite filter_cons_False by (rewrite E; done).
    + by rewrite filter_cons_True by done.
  - by destruct (excluded exclude k).
Qed.

Lemma broadcast_loop_fresh l data k :
  k ∉ l.*1 → broadcast_loop l data (Some k) = broadcast_loop l data None.
Proof.
  induction l as [|[k' c'] l IH]; [done|].
  rewrite fmap_cons, not_elem_of_cons. cbn [fst]. intros [Hk Hl].
  cbn [broadcast_loop]. rewrite (IH Hl), excluded_other by done. done.
Qed.

(** A connection whose socket is not open gets no frame from [broadcast];
    excluding it changes neither the frames nor the two counts. *)
Lemma broadcast_loop_closed l data k c :
  NoDup l.*1 → assoc_get k l = Some c → is_open c = false →
  broadcast_loop l data (Some k) = broadcast_loop l data None.
Proof.
  induction l as [|[k' c'] l IH]; [done|].
  rewrite fmap_cons. cbn [fst assoc_get].
  intros [Hk Hl]%NoDup_cons Hget Ho. cbn [broadcast_loop].
  case_decide as E.
  - injection Hget as ->. subst k'.
    rewrite (broadcast_loop_fresh l data k Hk).
    destruct (broadcast_loop l data None) as [[frames sc] fc].
    rewrite Ho. change (excluded None k) with false.
    by destruct (excluded (Some k) k).
  - rewrite (IH Hl Hget Ho), excluded_other by done. done.
Qed.

(** C8.  Disconnect behaviour.  [handleDisconnect] is the handler of the
    close event of a socket, which runs when the socket is no longer
    open.  When a named connection disconnects so, a [userLeft] payload
    is broadcast whose roster is the list of active users minus that
    connection, and the broadcast is the one with the id of the
    disconnecting connection excluded: the frame goes to exactly the
    other connections that take frames.  Only then is the connection
    removed from the registry.  A second call for the same id changes
    nothing: no broadcast, no frame, no error. *)
Theorem disconnect_behaviour now clientId w c name :
  keys_unique w → names_unique w →
  getClient clientId w = Some c → username c = Some name → name ≠ [] →
  is_open c = false →
  let users := getActiveUsers (removeClient clientId w).2 in
  let payload :=
    UserLeft name (name ++ lit " " ++ config.MESSAGES.USER_LEFT) now users in
  let w' := handleDisconnect now clientId w in
  filter (λ u, user_username u ≠ name) (getActiveUsers w) = users ∧
  w' = (removeClient clientId (broadcast payload (Some clientId) w).2).2 ∧
  broadcasts w' = broadcasts w ++ [payload] ∧
  wire w' =
    wire w ++
    ((λ k, (k, payload)) <$> recipients (clients w) (Some clientId)) ∧
  (∀ k, k ∈ recipients (clients w) (Some clientId) ↔
        k ≠ clientId ∧ reachable k w = true) ∧
  clients w' = map_delete clientId (clients w) ∧
  getClient clientId w' = None ∧
  ∀ now', handleDisconnect now' clientId w' = w'.
Proof.
  intros Hk Hn Hc Hname Hne Ho. cbv zeta.
  destruct (handleDisconnect_named now clientId w c name Hk Hn Hc Hname Hne)
    as (Hr & Hd & Hb & Hw & _ & Hcl & Hgone & Hagain).
  cbv zeta in *.
  assert (∀ data, broadcast data (Some clientId) w = broadcast data None w)
    as Hsame.
  { intros data. unfold broadcast.
    by rewrite (broadcast_loop_closed (clients w) data clientId c). }
  assert (reachable clientId w = false) as Hnot.
  { unfold reachable. by rewrite Hc, Ho. }
  assert (∀ k, k ∈ recipients (clients w) (Some clientId) ↔
               k ≠ clientId ∧ reachable k w = true) as Hrec.
  { intros k. rewrite recipients_filter, list_elem_of_filter.
    rewrite recipients_reachable by done. split.
    - intros [_ Hreach]. split; [|done]. intros ->. congruence.
    - intros [Hk' Hreach]. split; [|done]. by apply excluded_other. }
  split; [done|]. split; [by rewrite Hsame|]. split; [done|].
  split.
  { rewrite Hw, <- !broadcast_loop_frames.
    by rewrite (broadcast_loop_closed (clients w) _ clientId c). }
  split; [done|]. split; [done|]. split; [done|]. done.
Qed.

Lemma disconnect_behaviour_witness :
  clients
    (handleDisconnect 130 Scenarios.c1
       (step (EvSocket Scenarios.c1 Scenarios.closed_socket)
          Scenarios.ana_joined))
    = map_delete Scenarios.c1 (clients Scenarios.ana_joined) ∧
  wire
    (handleDisconnect 130 Scenarios.c1
       (step (EvSocket Scenarios.c1 Scenarios.closed_socket)
          Scenarios.ana_joined))
    = wire Scenarios.ana_joined ++
      [(Scenarios.c2,
        UserLeft (lit "Ana") (lit "Ana ha abandonado el chat") 130 [])].
Proof.
  destruct (disconnect_behaviour 130 Scenarios.c1
              (step (EvSocket Scenarios.c1 Scenarios.closed_socket)
                 Scenarios.ana_joined)
              {| client_id := Scenarios.c1; ws := Scenarios.closed_socket;
                 username := Some (lit "Ana"); ip := lit "10.0.0.1";
                 connectedAt := 100; lastActivity := 110 |}
              (lit "Ana"))
    as (_ & _ & _ & Hw & _ & Hcl & _ & _).
  - unfold keys_unique. apply (bool_decide_unpack _). vm_compute. exact I.
  - apply names_unique_alt. apply (bool_decide_unpack _). vm_compute.
    exact I.
  - vm_compute. reflexivity.
  - reflexivity.
  - discriminate.
  - reflexivity.
  - split; [rewrite Hcl; vm_compute; reflexivity
           |rewrite Hw; vm_compute; reflexivity].
Defined.

(** The exclusion is the work of the socket's state, not of an
    [excludeClientId]: the call is written without one, and on a state
    built by hand in which the socket of the leaving connection is still
    open, that connection is the first to get the frame. *)
Example disconnect_open_socket :
  ClientsManager.is_open <$> getClient Scenarios.c1 Scenarios.ana_joined
    = Some true ∧
  wire (handleDisconnect 130 Scenarios.c1 Scenarios.ana_joined) =
    wire Scenarios.ana_joined ++
    [(Scenarios.c1,
      UserLeft (lit "Ana") (lit "Ana ha abandonado el chat") 130 []);
     (Scenarios.c2,
      UserLeft (lit "Ana") (lit "Ana ha abandonado el chat") 130 [])].
Proof. vm_compute. done. Qed.

End DisconnectFacts.

(** ** The delivery queue *)

Module QueueFacts.
Import Predicates.
Import ClientsManager ChatController RegistryFacts.

Lemma coherent_qstate w w' : qstate w' = qstate w → coherent w → coherent w'.
Proof. unfold qstate, coherent. intros [= -> -> -> _ _]. done. Qed.

Lemma fifo_qstate w w' : qstate w' = qstate w → fifo w → fifo w'.
Proof. unfold qstate, fifo. intros [= -> _ _ -> ->]. done. Qed.

Lemma qstate_with_clients l w : qstate (with_clients l w) = qstate w.
Proof. done. Qed.

Lemma qstate_with_messageTracking t w :
  qstate (with_messageTracking t w) = qstate w.
Proof. done. Qed.

Lemma qstate_sendToClient clientId data w :
  qstate (sendToClient clientId data w).2 = qstate w.
Proof. unfold sendToClient. by repeat case_match. Qed.

Lemma qstate_sendError now clientId m w :
  qstate (sendError now clientId m w) = qstate w.
Proof. apply qstate_sendToClient. Qed.

Lemma message_log_broadcast data exclude w :
  message_log (broadcast data exclude w).2 =
  message_log w ++ (if is_message data then [data] else []).
Proof.
  unfold message_log.
  destruct (broadcast_frame data exclude w) as (_ & _ & _ & _ & _ & -> & _).
  rewrite filter_app. f_equal.
  destruct (is_message data) eqn:E.
  - by rewrite filter_cons_True.
  - rewrite filter_cons_False; [done|]. by rewrite E.
Qed.

Lemma qstate_broadcast data exclude w :
  is_message data = false → qstate (broadcast data exclude w).2 = qstate w.
Proof.
  intros Hd. unfold qstate. rewrite message_log_broadcast, Hd, app_nil_r.
  by destruct (broadcast_frame data exclude w)
    as (_ & _ & -> & -> & -> & _ & ->).
Qed.

Lemma qstate_removeClient clientId w :
  qstate (removeClient clientId w).2 = qstate w.
Proof. unfold removeClient. by case_match. Qed.

Lemma qstate_handleJoin now clientId data w :
  qstate (handleJoin now clientId data w) = qstate w.
Proof.
  unfold handleJoin, setUsername.
  repeat case_match;
    rewrite ?qstate_sendError, ?qstate_broadcast, ?qstate_sendToClient;
    done.
Qed.

Lemma qstate_handleDisconnect now clientId w :
  qstate (handleDisconnect now clientId w) = qstate w.
Proof.
  unfold handleDisconnect. rewrite qstate_removeClient.
  repeat case_match; rewrite ?qstate_broadcast; done.
Qed.

Lemma qstate_cleanupDeadConnections now w :
  qstate (cleanupDeadConnections now w).2 = qstate w.
Proof.
  unfold cleanupDeadConnections. cbn [snd].
  generalize (omap (λ e : jsstring * Client,
                      if is_dead now e.2 then Some e.1 else None)
                   (clients w)).
  intros dead. revert w.
  induction dead as [|d dead IH]; intros w; [done|].
  cbn [foldl]. by rewrite IH, qstate_removeClient.
Qed.

Lemma qstate_updateActivity now clientId w :
  qstate (updateActivity now clientId w) = qstate w.
Proof. unfold updateActivity. by case_match. Qed.

(** One run of the loop: a message is taken and broadcast; then the loop
    ends if the queue is empty and sleeps otherwise. *)
Lemma drain_cons message queue w :
  drain (message :: queue) w =
  let w1 :=
    (broadcast (message_payload message) None
               (with_messageQueue queue w)).2 in
  match queue with
  | [] => with_isProcessingQueue false (with_messageQueue [] w1)
  | _ :: _ => with_sleepers (S (sleepers w1)) w1
  end.
Proof. by destruct queue. Qed.

Lemma drain_cons_fields message queue w :
  let w' := drain (message :: queue) w in
  message_log w' = message_log w ++ [message_payload message] ∧
  messageQueue w' = queue ∧
  enqueued w' = enqueued w ∧
  (queue = [] → isProcessingQueue w' = false ∧ sleepers w' = sleepers w) ∧
  (queue ≠ [] →
   isProcessingQueue w' = isProcessingQueue w ∧
   sleepers w' = S (sleepers w)).
Proof.
  cbv zeta. rewrite drain_cons. cbv zeta.
  set (w0 := with_messageQueue queue w).
  pose proof (message_log_broadcast (message_payload message) None w0) as Hl.
  destruct (broadcast_frame (message_payload message) None w0)
    as (_ & _ & Hq & Hf & Hs & _ & He).
  set (w1 := (broadcast (message_payload message) None w0).2) in *.
  cbn in Hl, Hq, Hf, Hs, He.
  destruct queue as [|m' queue].
  - unfold message_log in *.
    cbn [broadcasts messageQueue enqueued isProcessingQueue sleepers
         with_isProcessingQueue with_messageQueue].
    by rewrite Hl, He, Hs.
  - unfold message_log in *.
    cbn [broadcasts messageQueue enqueued isProcessingQueue sleepers
         with_sleepers].
    rewrite Hl, He, Hs, Hf, Hq. done.
Qed.

Lemma queueMessage_ok message w :
  coherent w → fifo w →
  coherent (queueMessage message w) ∧ fifo (queueMessage message w) ∧
  enqueued (queueMessage message w) = enqueued w ++ [message].
Proof.
  unfold coherent, fifo, queueMessage, processMessageQueue.
  intros [(Hf & Hs & Hq)|(Hf & Hs & Hq)] Hfifo;
    cbn [isProcessingQueue messageQueue with_enqueued with_messageQueue];
    rewrite Hf; cbn [negb].
  - rewrite Hq in *. cbn [app].
    destruct (drain_cons_fields message []
                (with_isProcessingQueue true
                   (with_enqueued (enqueued w ++ [message])
                      (with_messageQueue [message] w))))
      as (Hl & Hq' & He & Hidle & _).
    destruct (Hidle eq_refl) as [Hf' Hs'].
    rewrite Hl, Hq', He, Hf', Hs'.
    cbn [enqueued sleepers with_isProcessingQueue with_enqueued
         with_messageQueue].
    split; [by left|]. split; [|done].
    rewrite fmap_app, <- Hfifo. cbn. by rewrite !app_nil_r.
  - cbn [isProcessingQueue sleepers messageQueue enqueued with_enqueued
         with_messageQueue].
    split; [right; split; [done|]; split; [done|]; by destruct (messageQueue w)|].
    split; [|done].
    change (message_log (with_enqueued (enqueued w ++ [message])
              (with_messageQueue (messageQueue w ++ [message]) w)))
      with (message_log w).
    by rewrite !fmap_app, app_assoc, Hfifo.
Qed.

Lemma wake_ok w :
  coherent w → fifo w →
  coherent (wake w) ∧ fifo (wake w) ∧ enqueued (wake w) = enqueued w.
Proof.
  unfold coherent, fifo, wake.
  intros [(Hf & Hs & Hq)|(Hf & Hs & Hq)] Hfifo; rewrite Hs.
  - split; [by left|]. done.
  - destruct (messageQueue w) as [|m queue] eqn:Hmq; [done|].
    destruct (drain_cons_fields m queue (with_sleepers 0 w))
      as (Hl & Hq' & He & Hidle & Hbusy).
    rewrite Hl, Hq', He.
    change (message_log (with_sleepers 0 w)) with (message_log w).
    cbn [enqueued with_sleepers].
    split; [|split; [|done]].
    + destruct queue as [|m' queue].
      * left. by destruct (Hidle eq_refl) as [-> ->].
      * right. destruct Hbusy as [-> ->]; [done|].
        cbn [isProcessingQueue sleepers with_sleepers]. done.
    + rewrite <- Hfifo. cbn [fmap list_fmap]. by rewrite <- app_assoc.
Qed.

Lemma handleChatMessage_ok now clientId data w :
  coherent w → fifo w →
  let w' := handleChatMessage now clientId data w in
  coherent w' ∧ fifo w' ∧ enqueued w `prefix_of` enqueued w'.
Proof.
  intros Hc Hf. cbv zeta. unfold handleChatMessage.
  assert (∀ w', qstate w' = qstate w →
                coherent w' ∧ fifo w' ∧ enqueued w `prefix_of` enqueued w')
    as Hsame.
  { intros w' Hq. split; [by eapply coherent_qstate|].
    split; [by eapply fifo_qstate|].
    unfold qstate in Hq. injection Hq as _ _ _ -> _. done. }
  destruct (getClient clientId w) as [c|]; [|by apply Hsame].
  destruct (username c) as [[|a u]|];
    try (apply Hsame, qstate_sendError).
  destruct (validateMessageContent _) as [trimmed|];
    [|apply Hsame, qstate_sendError].
  destruct (RateLimiter.checkLimit _ _ _ _) as [r t].
  destruct (negb (RateLimiter.allowed r)).
  - apply Hsame. by rewrite qstate_sendError.
  - set (m := Build_QueuedMessage _ _ _ _).
    destruct (queueMessage_ok m (with_messageTracking t w)) as (? & ? & He);
      [done..|].
    split; [done|]. split; [done|]. rewrite He. by eexists.
Qed.

Lemma queue_step ev w :
  coherent w → fifo w →
  coherent (step ev w) ∧ fifo (step ev w) ∧
  enqueued w `prefix_of` enqueued (step ev w).
Proof.
  intros Hc Hf.
  assert (∀ w0 w', coherent w0 → fifo w0 → enqueued w `prefix_of` enqueued w0 →
                   qstate w' = qstate w0 →
                coherent w' ∧ fifo w' ∧ enqueued w `prefix_of` enqueued w')
    as Hsame.
  { intros w0 w' ? ? ? Hq. split; [by eapply coherent_qstate|].
    split; [by eapply fifo_qstate|].
    unfold qstate in Hq. injection Hq as _ _ _ -> _. done. }
  destruct ev; cbn [step].
  - apply (Hsame w); [done..|]. unfold addClient.
    by rewrite qstate_sendToClient.
  - unfold handleMessage.
    assert (qstate (updateActivity now clientId w) = qstate w) as Hu
      by apply qstate_updateActivity.
    destruct rawData as [data|];
      [|apply (Hsame w); [done..|apply qstate_sendError]].
    destruct (validateMessage data);
      [|apply (Hsame w); [done..|apply qstate_sendError]].
    assert (∀ m, qstate (sendError now clientId m
                           (updateActivity now clientId w)) = qstate w) as He.
    { intros m. by rewrite qstate_sendError. }
    destruct (prop data (lit "type")) as [[| | |type| |]|];
      try (apply (Hsame w); [done..|apply He]).
    repeat case_decide.
    + apply (Hsame w); [done..|]. by rewrite qstate_handleJoin.
    + destruct (handleChatMessage_ok now clientId data
                  (updateActivity now clientId w))
        as (? & ? & Hp).
      { by eapply coherent_qstate. }
      { by eapply fifo_qstate. }
      split; [done|]. split; [done|].
      unfold qstate in Hu. injection Hu as _ _ _ Hen _.
      by rewrite Hen in Hp.
    + apply (Hsame w); [done..|].
      unfold handlePing. by rewrite qstate_sendToClient.
    + apply (Hsame w); [done..|apply He].
  - apply (Hsame w); [done..|]. unfold handleError.
    case_match; [apply qstate_sendError|done].
  - apply (Hsame w); [done..|]. apply qstate_handleDisconnect.
  - apply (Hsame w); [done..|]. apply qstate_cleanupDeadConnections.
  - apply (Hsame w); done.
  - destruct (wake_ok w) as (? & ? & ->); done.
  - apply (Hsame w); [done..|]. unfold set_socket. by case_match.
Qed.

Lemma queue_run evs : ∀ w,
  coherent w → fifo w →
  coherent (run evs w) ∧ fifo (run evs w) ∧
  enqueued w `prefix_of` enqueued (run evs w).
Proof.
  unfold run. induction evs as [|ev evs IH]; intros w Hc Hf; [done|].
  cbn [foldl]. destruct (queue_step ev w) as (Hc' & Hf' & Hp); [done..|].
  destruct (IH _ Hc' Hf') as (? & ? & Hp').
  split; [done|]. split; [done|]. by etrans.
Qed.

(** In the running server the queue is empty between events: a message
    is broadcast within the call of [queueMessage] that enqueues it, and
    no run ever sleeps. *)
Lemma idle_step ev w : idle w → idle (step ev w).
Proof.
  intros Hi.
  assert (∀ w', qstate w' = qstate w → idle w') as Hsame.
  { intros w' Hq. unfold qstate, idle in *. by injection Hq as -> -> -> _ _. }
  assert (∀ m w0, qstate w0 = qstate w → idle (queueMessage m w0)) as Hqm.
  { intros m w0 Hq. apply Hsame in Hq as (Hf & Hs & Hq).
    unfold idle, queueMessage, processMessageQueue.
    cbn [isProcessingQueue messageQueue with_enqueued with_messageQueue].
    rewrite Hf, Hq. cbn [negb app].
    destruct (drain_cons_fields m []
                (with_isProcessingQueue true
                   (with_enqueued (enqueued w0 ++ [m])
                      (with_messageQueue [m] w0))))
      as (_ & Hq' & _ & Hidle & _).
    destruct (Hidle eq_refl) as [Hf' Hs']. by rewrite Hq', Hf', Hs'. }
  destruct ev; cbn [step].
  - apply Hsame. unfold addClient. by rewrite qstate_sendToClient.
  - unfold handleMessage.
    assert (qstate (updateActivity now clientId w) = qstate w) as Hu
      by apply qstate_updateActivity.
    destruct rawData as [data|]; [|apply Hsame, qstate_sendError].
    destruct (validateMessage data); [|apply Hsame, qstate_sendError].
    assert (∀ m, qstate (sendError now clientId m
                           (updateActivity now clientId w)) = qstate w) as He.
    { intros m. by rewrite qstate_sendError. }
    destruct (prop data (lit "type")) as [[| | |type| |]|];
      try (apply Hsame, He).
    repeat case_decide.
    + apply Hsame. by rewrite qstate_handleJoin.
    + unfold handleChatMessage.
      destruct (getClient _ _) as [c|]; [|by apply Hsame].
      destruct (username c) as [[|x name]|]; try apply Hsame, He.
      destruct (validateMessageContent _); [|apply Hsame, He].
      destruct (RateLimiter.checkLimit _ _ _ _) as [r t].
      destruct (negb (RateLimiter.allowed r)).
      * apply Hsame. by rewrite qstate_sendError.
      * by apply Hqm.
    + apply Hsame. unfold handlePing. by rewrite qstate_sendToClient.
    + apply Hsame, He.
  - apply Hsame. unfold handleError.
    case_match; [apply qstate_sendError|done].
  - apply Hsame, qstate_handleDisconnect.
  - apply Hsame, qstate_cleanupDeadConnections.
  - by apply Hsame.
  - unfold wake. pose proof Hi as (_ & Hs & _). by rewrite Hs.
  - apply Hsame. unfold set_socket. by case_match.
Qed.

Lemma idle_reachable evs : idle (run evs initial).
Proof.
  assert (∀ w, idle w → idle (run evs w)) as H.
  { unfold run. induction evs as [|ev evs IH]; intros w Hw; [done|].
    cbn [foldl]. by apply IH, idle_step. }
  by apply H.
Qed.

Lemma drain_sleeps queue w :
  sleepers (drain queue w) = sleepers w ∨
  (sleepers (drain queue w) = S (sleepers w) ∧
   messageQueue (drain queue w) ≠ []).
Proof.
  destruct queue as [|m queue]; [by left|].
  destruct (drain_cons_fields m queue w) as (_ & Hq & _ & Hidle & Hbusy).
  destruct queue as [|m' queue].
  - left. by destruct (Hidle eq_refl) as [_ ->].
  - right. destruct Hbusy as [_ ->]; [done|]. by rewrite Hq.
Qed.

(** C3 (FIFO delivery, single drain).  From any state in which the queue
    and its flag agree ([coherent], [fifo]; the start state is one), after
    any sequence of events:
    - the chat messages broadcast so far, followed by the queued ones, are
      the enqueued ones in the order of enqueueing; so the broadcasts are
      a prefix of the enqueued sequence, and when the message enqueued at
      place [j] has been broadcast, every message enqueued at a place
      [i < j] was broadcast before it;
    - at most one run of [processMessageQueue] exists, and a sleeping run
      has a non-empty queue in front of it;
    - [queueMessage] starts no run while the flag is set: it only pushes;
    - a run goes to sleep only with a non-empty queue. *)
Theorem fifo_single_drain :
  (∀ evs w,
     coherent w → fifo w →
     let w' := run evs w in
     coherent w' ∧ fifo w' ∧
     enqueued w `prefix_of` enqueued w' ∧
     message_log w' `prefix_of` (message_payload <$> enqueued w') ∧
     (∀ (i j : nat) a b,
        (i < j)%nat →
        enqueued w' !! i = Some a → enqueued w' !! j = Some b →
        message_log w' !! j = Some (message_payload b) →
        message_log w' !! i = Some (message_payload a)) ∧
     (sleepers w' ≤ 1)%nat ∧
     (sleepers w' = 1%nat → messageQueue w' ≠ [])) ∧
  (coherent initial ∧ fifo initial) ∧
  (∀ message w,
     isProcessingQueue w = true →
     queueMessage message w =
     with_enqueued (enqueued w ++ [message])
       (with_messageQueue (messageQueue w ++ [message]) w)) ∧
  (∀ queue w,
     sleepers (drain queue w) = sleepers w ∨
     (sleepers (drain queue w) = S (sleepers w) ∧
      messageQueue (drain queue w) ≠ [])).
Proof.
  split; [|split; [|split]].
  - intros evs w Hc Hf. cbv zeta.
    destruct (queue_run evs w Hc Hf) as (Hc' & Hf' & Hp).
    set (w' := run evs w) in *.
    assert (message_log w' `prefix_of` (message_payload <$> enqueued w'))
      as Hpre.
    { rewrite <- Hf'. by eexists. }
    repeat (split; [done|]).
    split; [|split].
    + intros i j a b Hij Ha Hb Hlog.
      destruct Hpre as [rest Hrest].
      assert (i < length (message_log w'))%nat as Hi.
      { apply lookup_lt_Some in Hlog. lia. }
      assert ((message_payload <$> enqueued w') !! i
              = Some (message_payload a)) as Hia.
      { by rewrite list_lookup_fmap, Ha. }
      rewrite Hrest in Hia. by rewrite lookup_app_l in Hia.
    + destruct Hc' as [(_ & -> & _)|(_ & -> & _)]; lia.
    + destruct Hc' as [(_ & -> & _)|(_ & _ & ?)]; done.
  - split; [by left|done].
  - intros message w Hflag. unfold queueMessage.
    cbn [isProcessingQueue with_enqueued with_messageQueue].
    by rewrite Hflag.
  - apply drain_sleeps.
Qed.

Lemma fifo_single_drain_witness :
  let w' := run [EvTimer] draining in
  coherent w' ∧ fifo w' ∧
  message_log w' =
    [message_payload first_message; message_payload second_message].
Proof.
  cbv zeta.
  destruct (proj1 fifo_single_drain [EvTimer] draining)
    as (Hc & Hf & _).
  - right. vm_compute. done.
  - vm_compute. reflexivity.
  - split; [exact Hc|]. split; [exact Hf|]. vm_compute. reflexivity.
Defined.

End QueueFacts.

(** ** Sanitized content *)

Module SanitizeFacts.
Import Predicates.
Import ClientsManager ChatController RegistryFacts JoinFacts.

Lemma clean_same w w' :
  messageQueue w' = messageQueue w → enqueued w' = enqueued w →
  broadcasts w' = broadcasts w → wire w' = wire w →
  clean w → clean w'.
Proof. unfold clean. by intros -> -> -> ->. Qed.

Lemma clean_sendToClient clientId data w :
  clean_payload data → clean w → clean (sendToClient clientId data w).2.
Proof.
  intros Hd (Hq & He & Hb & Hw). unfold clean.
  destruct (sendToClient_frame clientId data w)
    as (_ & _ & -> & _ & _ & -> & ->).
  rewrite wire_sendToClient.
  repeat (split; [done|]). apply Forall_app. split; [done|].
  case_match; by repeat constructor.
Qed.

Lemma clean_sendError now clientId m w :
  clean w → clean (sendError now clientId m w).
Proof. by apply clean_sendToClient. Qed.

Lemma clean_broadcast data exclude w :
  clean_payload data → clean w → clean (broadcast data exclude w).2.
Proof.
  intros Hd (Hq & He & Hb & Hw). unfold clean.
  destruct (broadcast_frame data exclude w)
    as (_ & _ & -> & _ & _ & -> & ->).
  rewrite wire_broadcast.
  split; [done|]. split; [done|].
  split; [apply Forall_app; by repeat constructor|].
  apply Forall_app. split; [done|].
  apply Forall_fmap, Forall_forall. by intros k _.
Qed.

Lemma clean_removeClient clientId w :
  clean w → clean (removeClient clientId w).2.
Proof. unfold removeClient. by case_match. Qed.

Lemma clean_drain queue : ∀ w,
  Forall clean_queued queue → clean w → clean (drain queue w).
Proof.
  induction queue as [|m queue IH]; intros w Hq Hw.
  - destruct Hw as (_ & ? & ? & ?). by repeat split.
  - apply Forall_cons in Hq as [Hm Hq]. cbn [drain].
    assert (clean (broadcast (message_payload m) None
                     (with_messageQueue queue w)).2) as Hb.
    { apply clean_broadcast; [exact Hm|].
      destruct Hw as (_ & ? & ? & ?). by repeat split. }
    case_match; [|by apply IH].
    revert Hb. by apply clean_same.
Qed.

Lemma clean_queueMessage message w :
  clean_queued message → clean w → clean (queueMessage message w).
Proof.
  intros Hm (Hq & He & Hb & Hw). unfold queueMessage, processMessageQueue.
  assert (Forall clean_queued (messageQueue w ++ [message])) as Hq'.
  { apply Forall_app. by repeat constructor. }
  assert (Forall clean_queued (enqueued w ++ [message])) as He'.
  { apply Forall_app. by repeat constructor. }
  case_match; [|by repeat split].
  apply clean_drain; [done|]. by repeat split.
Qed.

Lemma clean_wake w : clean w → clean (wake w).
Proof.
  intros Hw. unfold wake. case_match; [done|].
  apply clean_drain; [apply Hw|]. revert Hw. by apply clean_same.
Qed.

Lemma clean_handleChatMessage now clientId data w :
  clean w → clean (handleChatMessage now clientId data w).
Proof.
  intros Hw. unfold handleChatMessage.
  destruct (getClient clientId w) as [c|]; [|done].
  destruct (username c) as [[|a u]|]; try by apply clean_sendError.
  destruct (validateMessageContent _) as [trimmed|];
    [|by apply clean_sendError].
  destruct (RateLimiter.checkLimit _ _ _ _) as [r t].
  assert (clean (with_messageTracking t w)) as Hw'.
  { revert Hw. by apply clean_same. }
  destruct (negb (RateLimiter.allowed r)); [by apply clean_sendError|].
  apply clean_queueMessage; [|done]. apply sanitize_clean.
Qed.

Lemma clean_handleJoin now clientId data w :
  clean w → clean (handleJoin now clientId data w).
Proof.
  intros Hw. unfold handleJoin.
  destruct (getClient clientId w) as [c|] eqn:Hc; [|done].
  destruct (validateUsername _) as [u|]; [|by apply clean_sendError].
  destruct (isUsernameTaken _ w); [by apply clean_sendError|].
  apply clean_broadcast; [done|]. apply clean_sendToClient; [done|].
  unfold setUsername. rewrite Hc. revert Hw. by apply clean_same.
Qed.

Lemma clean_handleMessage now clientId rawData w :
  clean w → clean (handleMessage now clientId rawData w).
Proof.
  intros Hw. unfold handleMessage.
  assert (clean (updateActivity now clientId w)) as Hu.
  { unfold updateActivity. case_match; [|done].
    revert Hw. by apply clean_same. }
  repeat case_match;
    auto using clean_sendError, clean_handleJoin, clean_handleChatMessage.
  unfold handlePing. by apply clean_sendToClient.
Qed.

Lemma clean_step ev w : clean w → clean (step ev w).
Proof.
  intros Hw. destruct ev; cbn [step].
  - unfold addClient. apply clean_sendToClient; [done|].
    revert Hw. by apply clean_same.
  - by apply clean_handleMessage.
  - unfold handleError. case_match; [by apply clean_sendError|done].
  - unfold handleDisconnect. apply clean_removeClient.
    repeat case_match; try done. by apply clean_broadcast.
  - unfold cleanupDeadConnections. cbn [snd].
    generalize (omap (λ e : jsstring * Client,
                        if is_dead now e.2 then Some e.1 else None)
                     (clients w)).
    intros dead. revert w Hw.
    induction dead as [|d dead IH]; intros w Hw; [done|].
    cbn [foldl]. by apply IH, clean_removeClient.
  - revert Hw. by apply clean_same.
  - by apply clean_wake.
  - unfold set_socket. case_match; [|done]. revert Hw. by apply clean_same.
Qed.

Lemma clean_run evs : ∀ w, clean w → clean (run evs w).
Proof.
  unfold run. induction evs as [|ev evs IH]; intros w Hw; [done|].
  cbn [foldl]. by apply IH, clean_step.
Qed.

(** C4 (sanitization).  [sanitize] replaces each of the six characters by
    its entity and leaves every other code unit alone, so its result has no
    less-than and no greater-than sign (nor double quote, apostrophe or
    slash); the script input comes out with the entities in place; and in
    every state the server reaches, the content of every chat message that
    was enqueued, broadcast or written to a socket is free of them. *)
Theorem sanitization :
  (∀ s, sanitize s = s ≫= escape) ∧
  (∀ s, Forall harmless (sanitize s)) ∧
  (∀ s, (60%N ∉ sanitize s) ∧ (62%N ∉ sanitize s)) ∧
  sanitize (lit "<script>alert(1)</script>") =
    lit "&lt;script&gt;alert(1)&lt;&#x2F;script&gt;" ∧
  (∀ evs,
     let w := run evs initial in
     Forall (λ m, (60%N ∉ q_content m) ∧ (62%N ∉ q_content m)) (enqueued w) ∧
     Forall clean_payload (broadcasts w) ∧
     Forall (λ f : jsstring * Payload, clean_payload f.2) (wire w)).
Proof.
  assert (∀ s, Forall harmless s → (60%N ∉ s) ∧ (62%N ∉ s)) as Hno.
  { intros s Hs. rewrite Forall_forall in Hs.
    split; intros Hin; apply Hs in Hin; unfold harmless in Hin; tauto. }
  split; [apply sanitize_escape|].
  split; [apply sanitize_clean|].
  split; [intros s; apply Hno, sanitize_clean|].
  split; [vm_compute; reflexivity|].
  intros evs. cbv zeta.
  destruct (clean_run evs initial) as (_ & He & Hb & Hw).
  { unfold clean. cbn. by repeat split. }
  split; [|done].
  eapply Forall_impl; [exact He|]. intros m Hm. by apply Hno.
Qed.

End SanitizeFacts.

(** ** Usernames *)

Module UsernameFacts.
Import Predicates.

Lemma validPattern_class_admitted c :
  validPattern_class c = true ↔ admitted c.
Proof.
  unfold validPattern_class, admitted.
  rewrite !orb_true_iff, !andb_true_iff, !N.leb_le, !N.eqb_eq.
  rewrite !elem_of_cons, elem_of_nil. tauto.
Qed.

Lemma validPattern_test_spec s :
  validPattern_test s = true ↔ s ≠ [] ∧ Forall admitted s.
Proof.
  unfold validPattern_test.
  rewrite andb_true_iff, negb_true_iff, bool_decide_eq_false.
  rewrite forallb_forall, Forall_forall.
  split; intros [? H]; (split; [done|]); intros c Hc.
  - apply validPattern_class_admitted, H. by apply list_elem_of_In.
  - apply validPattern_class_admitted, H. by apply list_elem_of_In.
Qed.

Lemma validateUsername_string s :
  validateUsername (Some (JStr s)) = Valid (trim s) ∧
    2 <= jslength (trim s) <= 30 ∧ Forall admitted (trim s)
  ∨
  is_valid (validateUsername (Some (JStr s))) = false ∧
    (jslength (trim s) < 2 ∨ jslength (trim s) > 30 ∨
     ∃ c, c ∈ trim s ∧ ¬ admitted c).
Proof.
  unfold validateUsername, truthy.
  destruct (decide (s = [])) as [->|Hs].
  { right. split; [done|]. left. vm_compute. reflexivity. }
  rewrite bool_decide_eq_false_2 by done. cbn [negb]. cbv zeta.
  unfold config.MIN_USERNAME_LENGTH, config.MAX_USERNAME_LENGTH.
  destruct (jslength (trim s) <? 2) eqn:E1.
  { right. apply Z.ltb_lt in E1. split; [done|]. by left. }
  destruct (jslength (trim s) >? 30) eqn:E2.
  { right. rewrite Z.gtb_ltb in E2. apply Z.ltb_lt in E2.
    split; [done|]. right. left. lia. }
  apply Z.ltb_ge in E1. rewrite Z.gtb_ltb in E2. apply Z.ltb_ge in E2.
  destruct (validPattern_test (trim s)) eqn:E3; cbn [negb].
  - left. apply validPattern_test_spec in E3 as [_ E3]. done.
  - right. split; [done|]. right. right.
    assert (¬ Forall admitted (trim s)) as Hn.
    { intros Hall. assert (validPattern_test (trim s) = true); [|congruence].
      apply validPattern_test_spec. split; [|done].
      intros Ht. rewrite Ht in E1. unfold jslength in E1. cbn in E1. lia. }
    apply not_Forall_Exists in Hn; [|intros c; unfold admitted; apply _].
    apply Exists_exists in Hn as (c & Hc & Hnc). by exists c.
Qed.

(** C7, as the code has it.  [validateUsername] rejects whatever is not a
    string; on a string it trims and rejects exactly when the trimmed
    length is outside [2, 30] or the trimmed string holds a code unit
    outside the class of [validPattern]: the ASCII letters, the twelve
    letters a, e, i, o, u with acute accent (both cases) and n with tilde
    (both cases), the digits, whitespace, underscore and hyphen.  A string
    whose trimmed form has 2 to 30 code units, all of the class, is
    accepted, and the accepted name is the trimmed string. *)
Theorem username_validation :
  (∀ v, (∀ s, v ≠ Some (JStr s)) → is_valid (validateUsername v) = false) ∧
  (∀ s,
     is_valid (validateUsername (Some (JStr s))) = false ↔
     jslength (trim s) < 2 ∨ jslength (trim s) > 30 ∨
     ∃ c, c ∈ trim s ∧ ¬ admitted c) ∧
  (∀ s,
     2 <= jslength (trim s) <= 30 → Forall admitted (trim s) →
     validateUsername (Some (JStr s)) = Valid (trim s)) ∧
  (∀ c, validPattern_class c = true ↔ admitted c).
Proof.
  split; [|split; [|split]].
  - intros v Hv. unfold validateUsername.
    destruct v as [[| | |s| |]|]; try done. by destruct (Hv s).
  - intros s. destruct (validateUsername_string s)
      as [(Hv & Hlen & Hall)|(Hv & Hwhy)].
    + rewrite Hv. cbn [is_valid]. split; [done|].
      intros [?|[?|(c & Hc & Hnc)]]; [lia..|].
      rewrite Forall_forall in Hall. destruct Hnc. by apply Hall.
    + by rewrite Hv.
  - intros s Hlen Hall. destruct (validateUsername_string s)
      as [(Hv & _)|(_ & [?|[?|(c & Hc & Hnc)]])]; [done|lia..|].
    rewrite Forall_forall in Hall. destruct Hnc. by apply Hall.
  - apply validPattern_class_admitted.
Qed.

Lemma username_validation_witness :
  validateUsername (Some (JStr (lit "  Mar_1-a  "))) = Valid (lit "Mar_1-a").
Proof.
  apply (proj1 (proj2 (proj2 username_validation)) (lit "  Mar_1-a  ")).
  - vm_compute. split; discriminate.
  - apply Forall_forall. intros c Hc.
    apply validPattern_class_admitted.
    revert c Hc. apply Forall_forall. vm_compute.
    repeat constructor.
Defined.

(** C7 as stated fails: the string M, u with diaeresis, l, l, e, r has six
    characters, all letters, and is rejected. *)
Lemma username_accented_counterexample :
  let s := [77; 252; 108; 108; 101; 114]%N in
  forallb spec_username_char s = true ∧
  trim s = s ∧ jslength s = 6 ∧
  validateUsername (Some (JStr s)) =
    Invalid (lit "El nombre contiene caracteres no permitidos").
Proof. vm_compute. done. Qed.

(** Two characters of the class, but one left after trimming. *)
Example padded_name_rejected :
  forallb validPattern_class (lit " a") = true ∧
  is_valid (validateUsername (Some (JStr (lit " a")))) = false.
Proof. vm_compute. done. Qed.

End UsernameFacts.

(** ** The scenarios of the specification *)

Module ScenarioFacts.
Import ClientsManager ChatController Predicates Scenarios.

(** Ana gets [joined] with herself in the roster. *)
Example scenario_join :
  (Scenarios.c1,
   Joined (lit "Ana") (lit "Te has unido al chat exitosamente")
     [{| user_username := lit "Ana"; user_connectedAt := 100 |}])
  ∈ wire ana_joined.
Proof. vm_compute. repeat constructor. Qed.

(** A chat message goes to the sender and to every other open
    connection, at once. *)
Example scenario_message :
  let w := step (EvMessage 130 c1 (say (lit "hola"))) ana_joined in
  wire w = wire ana_joined ++
           [(c1, Message (lit "Ana") (lit "hola") 130);
            (c2, Message (lit "Ana") (lit "hola") 130)] ∧
  messageQueue w = [] ∧ isProcessingQueue w = false.
Proof. vm_compute. done. Qed.

(** A chat message before any join is answered with an error and
    nothing is broadcast. *)
Example scenario_not_joined :
  let w := step (EvMessage 130 c2 (say (lit "hola"))) ana_joined in
  wire w = wire ana_joined ++
           [(c2, Error (lit "Debes unirte al chat primero") 130)] ∧
  broadcasts w = broadcasts ana_joined.
Proof. vm_compute. done. Qed.

(** Ana's socket closes and the close handler runs: the others get
    [userLeft] with a roster without Ana, Ana's closed socket gets
    nothing. *)
Example scenario_leave :
  let w := run [EvSocket c1 closed_socket; EvClose 130 c1] ana_joined in
  wire w = wire ana_joined ++
           [(c2, UserLeft (lit "Ana") (lit "Ana ha abandonado el chat") 130 [])] ∧
  getClient c1 w = None.
Proof. vm_compute. done. Qed.

End ScenarioFacts.

(** * Properties beyond the claims *)

(** ** RateLimiter *)

Module LimiterProperties.
Import RateLimiter RateLimiterFacts Views.

Lemma in_window_app w l1 l2 :
  in_window w (l1 ++ l2) = in_window w l1 ++ in_window w l2.
Proof. unfold in_window. apply filter_app. Qed.

Lemma in_window_length w l : jslength (in_window w l) <= jslength l.
Proof.
  unfold jslength, in_window. pose proof (length_filter (λ ts, w < ts) l). lia.
Qed.

Lemma in_window_elem w l t : t ∈ in_window w l ↔ w < t ∧ t ∈ l.
Proof. unfold in_window. apply list_elem_of_filter. Qed.

Lemma in_window_twice w1 w2 l :
  w1 <= w2 → in_window w2 (in_window w1 l) = in_window w2 l.
Proof.
  intros Hw. unfold in_window. induction l as [|t l IH]; [done|].
  destruct (decide (w1 < t)) as [H1|H1].
  - rewrite (filter_cons_True (λ ts, w1 < ts)) by done.
    rewrite !filter_cons. by rewrite IH.
  - rewrite (filter_cons_False (λ ts, w1 < ts)) by done.
    rewrite (filter_cons_False (λ ts, w2 < ts)) by lia. done.
Qed.

(** What [checkLimit] stores for the identifier it serves. *)
Lemma checkLimit_stored now clientId ip mt :
  let ident := getClientIdentifier clientId ip in
  let kept := in_window (now - config.RATE_LIMIT_WINDOW)
                        (default [] (mt !! ident)) in
  if allowed (checkLimit now clientId ip mt).1 then
    jslength kept < config.MAX_MESSAGES_PER_MINUTE ∧
    (checkLimit now clientId ip mt).2 = <[ident := kept ++ [now]]> mt
  else
    config.MAX_MESSAGES_PER_MINUTE <= jslength kept ∧
    (checkLimit now clientId ip mt).2 = mt.
Proof.
  cbv zeta. unfold checkLimit.
  destruct (jslength _ >=? config.MAX_MESSAGES_PER_MINUTE) eqn:E; cbn.
  - apply Z.geb_le in E. done.
  - rewrite Z.geb_leb in E. apply Z.leb_gt in E. done.
Qed.

(** X1.  Within any burst of calls for one client whose clock readings
    are pairwise less than the window apart, at most ten calls are
    accepted, whatever the limiter held before. *)
Theorem burst_bound clientId ip mt (nows : list Z) :
  (∀ a b, a ∈ nows → b ∈ nows → b - a < config.RATE_LIMIT_WINDOW) →
  Z.of_nat (count_allowed (checkLimits nows clientId ip mt).1)
  <= config.MAX_MESSAGES_PER_MINUTE.
Proof.
  set (ident := getClientIdentifier clientId ip).
  assert (∀ nows mt pre acc,
            default [] (mt !! ident) = pre ++ acc →
            (∀ t n, t ∈ acc ++ nows → n ∈ nows →
                    n - t < config.RATE_LIMIT_WINDOW) →
            Z.of_nat (count_allowed (checkLimits nows clientId ip mt).1)
              + jslength acc
            <= Z.max (jslength acc) config.MAX_MESSAGES_PER_MINUTE) as Hgen.
  { clear nows mt. induction nows as [|n nows IH]; intros mt pre acc Hst Hwin.
    { cbn. lia. }
    cbn [checkLimits].
    pose proof (checkLimit_stored n clientId ip mt) as Hc. cbv zeta in Hc.
    fold ident in Hc. rewrite Hst, in_window_app in Hc.
    rewrite (in_window_all _ acc) in Hc.
    2:{ apply Forall_forall. intros t Ht.
        assert (n - t < config.RATE_LIMIT_WINDOW); [|lia].
        apply Hwin; [apply elem_of_app; by left|apply list_elem_of_here]. }
    destruct (checkLimit n clientId ip mt) as [r mt'] eqn:Hr. cbn [fst snd] in Hc.
    destruct (checkLimits nows clientId ip mt') as [rs mt''] eqn:Hrs.
    cbn [fst]. unfold count_allowed. rewrite filter_cons.
    destruct (allowed r) eqn:Ha.
    - destruct Hc as [Hlen ->].
      rewrite decide_True by done. cbn [length].
      specialize (IH (<[ident := (in_window (n - config.RATE_LIMIT_WINDOW) pre
                                   ++ acc) ++ [n]]> mt)
                     (in_window (n - config.RATE_LIMIT_WINDOW) pre)
                     (acc ++ [n])).
      rewrite Hrs in IH. cbn [fst] in IH. unfold count_allowed in IH.
      unfold jslength in *. rewrite length_app in *. cbn [length] in *.
      assert (Z.of_nat (length (filter (λ r, allowed r = true) rs))
              + Z.of_nat (length acc + 1)
              <= Z.max (Z.of_nat (length acc + 1))
                       config.MAX_MESSAGES_PER_MINUTE); [|lia].
      apply IH.
      + rewrite lookup_insert_eq. cbn. by rewrite <- app_assoc.
      + intros t m Ht Hm. apply Hwin; [|by apply list_elem_of_further].
        rewrite <- app_assoc in Ht. done.
    - destruct Hc as [Hlen ->].
      rewrite decide_False by (by intros [=]).
      specialize (IH mt pre acc Hst). rewrite Hrs in IH. cbn [fst] in IH.
      apply IH. intros t m Ht Hm. apply Hwin; [|by apply list_elem_of_further].
      apply elem_of_app in Ht as [Ht|Ht]; apply elem_of_app;
        [by left|right; by apply list_elem_of_further]. }
  intros Hwin.
  specialize (Hgen nows mt (default [] (mt !! ident)) []).
  unfold jslength in Hgen. cbn [length] in Hgen.
  unfold config.MAX_MESSAGES_PER_MINUTE in *.
  assert (Z.of_nat (count_allowed (checkLimits nows clientId ip mt).1)
          + Z.of_nat 0 <= Z.max (Z.of_nat 0) 10); [|lia].
  apply Hgen; [by rewrite app_nil_r|].
  intros t n Ht Hn. cbn [app] in Ht. by apply Hwin.
Qed.

Lemma burst_bound_witness :
  Z.of_nat (count_allowed
              (checkLimits [5; 1; 9; 3; 7; 2; 8; 4; 6; 1; 5; 9; 0]
                 (lit "c1") None ∅).1) <= 10.
Proof.
  apply (burst_bound (lit "c1") None ∅ [5; 1; 9; 3; 7; 2; 8; 4; 6; 1; 5; 9; 0]).
  intros a b Ha Hb.
  assert (Forall (λ x, 0 <= x <= 9) [5; 1; 9; 3; 7; 2; 8; 4; 6; 1; 5; 9; 0])
    as Hall by (repeat constructor; lia).
  rewrite Forall_forall in Hall.
  apply Hall in Ha, Hb. unfold config.RATE_LIMIT_WINDOW. lia.
Defined.

Lemma tracking_bounded_checkLimit now clientId ip mt :
  tracking_bounded mt → tracking_bounded (checkLimit now clientId ip mt).2.
Proof.
  intros Hb. pose proof (checkLimit_stored now clientId ip mt) as Hc.
  cbv zeta in Hc. destruct (allowed _).
  - destruct Hc as [Hlen ->]. apply map_Forall_insert_2; [|done].
    cbn beta. unfold jslength in *. rewrite length_app. cbn [length]. lia.
  - by destruct Hc as [_ ->].
Qed.

Lemma lookup_cleanup now mt ident :
  default [] (cleanup now mt !! ident) =
  in_window (now - config.RATE_LIMIT_WINDOW) (default [] (mt !! ident)).
Proof.
  unfold cleanup. rewrite lookup_omap.
  destruct (mt !! ident) as [ts|]; [|done]. cbn -[in_window].
  case_bool_decide as Hv; [by rewrite Hv|done].
Qed.

Lemma tracking_bounded_cleanup now mt :
  tracking_bounded mt → tracking_bounded (cleanup now mt).
Proof.
  intros Hb ident ts Hts. unfold cleanup in Hts.
  rewrite lookup_omap in Hts.
  destruct (mt !! ident) as [ts0|] eqn:E; [|done]. cbn -[in_window] in Hts.
  case_bool_decide; [done|]. injection Hts as <-.
  pose proof (Hb ident ts0 E) as Hlen. cbn beta in Hlen.
  pose proof (in_window_length (now - config.RATE_LIMIT_WINDOW) ts0). lia.
Qed.

Lemma tracking_bounded_resetClient clientId ip mt :
  tracking_bounded mt → tracking_bounded (resetClient clientId ip mt).
Proof. intros Hb. by apply map_Forall_delete. Qed.

(** X3.  A call of [checkLimit] touches the array of its own identifier
    only: every other identifier keeps what it had, whether the call is
    accepted or not. *)
Theorem check_leaves_others now clientId ip mt other :
  other ≠ getClientIdentifier clientId ip →
  (checkLimit now clientId ip mt).2 !! other = mt !! other.
Proof.
  intros Hne. pose proof (checkLimit_stored now clientId ip mt) as Hc.
  cbv zeta in Hc. destruct (allowed _).
  - destruct Hc as [_ ->]. by rewrite lookup_insert_ne.
  - by destruct Hc as [_ ->].
Qed.

Lemma check_leaves_others_witness :
  (checkLimit 1000 (lit "c1") (Some (lit "10.0.0.1"))
     {[ lit "ip:10.0.0.2" := [990] ]}).2 !! lit "ip:10.0.0.2" = Some [990].
Proof.
  rewrite (check_leaves_others 1000 (lit "c1") (Some (lit "10.0.0.1"))).
  - vm_compute. reflexivity.
  - vm_compute. discriminate.
Defined.

(** X4.  The limiter keys on the address when there is one: all
    connections from one known address share one window, so the answer
    does not depend on the connection id.  Without a usable address
    (missing, empty or ['unknown']) it keys on the connection id, distinct
    ids get distinct identifiers, and no such identifier is ever the
    identifier of an address. *)
Theorem identifier_scope :
  (∀ now c1 c2 ip mt,
     known_ip ip → checkLimit now c1 ip mt = checkLimit now c2 ip mt) ∧
  (∀ c1 c2 ip,
     ¬ known_ip ip →
     getClientIdentifier c1 ip = getClientIdentifier c2 ip → c1 = c2) ∧
  (∀ c1 c2 ip1 ip2,
     known_ip ip1 → ¬ known_ip ip2 →
     getClientIdentifier c1 ip1 ≠ getClientIdentifier c2 ip2).
Proof.
  assert (∀ c ip, known_ip ip →
            ∃ a, ip = Some a ∧ getClientIdentifier c ip = lit "ip:" ++ a) as Hk.
  { intros c ip (a & -> & Ha & Hu). exists a. split; [done|].
    unfold getClientIdentifier.
    by rewrite !bool_decide_eq_false_2. }
  assert (∀ c ip, ¬ known_ip ip →
            getClientIdentifier c ip = lit "client:" ++ c) as Hu.
  { intros c [a|] Hn; [|done]. unfold getClientIdentifier.
    case_bool_decide; [done|]. case_bool_decide; [done|].
    destruct Hn. by exists a. }
  split; [|split].
  - intros now c1 c2 ip mt Hip. unfold checkLimit.
    destruct (Hk c1 ip Hip) as (a & -> & ->).
    destruct (Hk c2 (Some a) Hip) as (a' & [= <-] & ->). done.
  - intros c1 c2 ip Hn. rewrite !Hu by done. by intros ?%app_inv_head.
  - intros c1 c2 ip1 ip2 H1 H2.
    destruct (Hk c1 ip1 H1) as (a & _ & ->). rewrite Hu by done.
    discriminate.
Qed.

Lemma identifier_scope_witness :
  checkLimit 1000 (lit "c1") (Some (lit "10.0.0.1")) ∅ =
  checkLimit 1000 (lit "c2") (Some (lit "10.0.0.1")) ∅.
Proof.
  apply (proj1 identifier_scope).
  exists (lit "10.0.0.1"). split; [done|]. split; discriminate.
Defined.

(** X5.  [cleanup] is invisible to the admission decisions: a call of
    [checkLimit] or [getClientStats] at or after the time of the cleanup
    answers the same with and without it.  What it leaves behind is
    tidy: no empty array, and only timestamps of the window it was run
    for. *)
Theorem cleanup_transparent now now' clientId ip mt :
  now <= now' →
  (checkLimit now' clientId ip (cleanup now mt)).1 =
    (checkLimit now' clientId ip mt).1 ∧
  getClientStats now' clientId ip (cleanup now mt) =
    getClientStats now' clientId ip mt ∧
  (∀ ident ts, cleanup now mt !! ident = Some ts →
     ts ≠ [] ∧ Forall (λ t, now - t < config.RATE_LIMIT_WINDOW) ts).
Proof.
  intros Hle.
  assert (∀ ident,
            in_window (now' - config.RATE_LIMIT_WINDOW)
                      (default [] (cleanup now mt !! ident)) =
            in_window (now' - config.RATE_LIMIT_WINDOW)
                      (default [] (mt !! ident))) as Hsame.
  { intros ident. rewrite lookup_cleanup. apply in_window_twice. lia. }
  split; [|split].
  - unfold checkLimit. rewrite Hsame.
    by destruct (jslength _ >=? config.MAX_MESSAGES_PER_MINUTE).
  - unfold getClientStats. by rewrite Hsame.
  - intros ident ts Hts. unfold cleanup in Hts. rewrite lookup_omap in Hts.
    destruct (mt !! ident) as [ts0|]; [|done]. cbn -[in_window] in Hts.
    case_bool_decide as Hv; [done|]. injection Hts as <-.
    split; [done|]. apply Forall_forall.
    intros t [Ht _]%in_window_elem. lia.
Qed.

Lemma cleanup_transparent_witness :
  (checkLimit 70000 (lit "c1") None
     (cleanup 65000 {[ lit "client:c1" := [1000; 20000; 64000] ]})).1 =
  (checkLimit 70000 (lit "c1") None
     {[ lit "client:c1" := [1000; 20000; 64000] ]}).1.
Proof.
  apply (cleanup_transparent 65000 70000 (lit "c1") None). lia.
Defined.

(** X6.  [getClientStats] and [checkLimit] agree: a call is accepted
    exactly when the statistics of that moment show a positive
    [remaining]; [messagesSent + remaining] is the limit; and right after
    an accepted call the statistics show the [remaining] that the call
    reported. *)
Theorem stats_agree now clientId ip mt :
  let r := (checkLimit now clientId ip mt).1 in
  let mt' := (checkLimit now clientId ip mt).2 in
  (allowed r = true ↔ 0 < stats_remaining (getClientStats now clientId ip mt)) ∧
  messagesSent (getClientStats now clientId ip mt) +
    stats_remaining (getClientStats now clientId ip mt) = 10 ∧
  0 <= messagesSent (getClientStats now clientId ip mt) ∧
  (allowed r = true →
   stats_remaining (getClientStats now clientId ip mt') = remaining r ∧
   messagesSent (getClientStats now clientId ip mt') =
     messagesSent (getClientStats now clientId ip mt) + 1).
Proof.
  cbv zeta.
  pose proof (checkLimit_stored now clientId ip mt) as Hc. cbv zeta in Hc.
  set (ident := getClientIdentifier clientId ip) in *.
  set (kept := in_window _ _) in *.
  assert (getClientStats now clientId ip mt =
          {| stats_identifier := ident; messagesSent := jslength kept;
             limit := 10; stats_remaining := 10 - jslength kept;
             windowSeconds := 60 |}) as Hs by done.
  rewrite Hs. cbn [stats_remaining messagesSent].
  unfold config.MAX_MESSAGES_PER_MINUTE in *.
  split; [|split; [lia|split; [unfold jslength; lia|]]].
  - destruct (allowed _); [|split; [done|]]; lia.
  - intros Ha. rewrite Ha in Hc. destruct Hc as [Hlen Hmt].
    assert (in_window (now - config.RATE_LIMIT_WINDOW) (kept ++ [now])
            = kept ++ [now]) as Hk.
    { rewrite in_window_app. unfold kept at 1. rewrite in_window_twice by lia.
      fold kept. f_equal. apply in_window_all.
      repeat constructor. unfold config.RATE_LIMIT_WINDOW. lia. }
    unfold getClientStats. fold ident. rewrite Hmt, lookup_insert_eq.
    cbn [default from_option stats_remaining messagesSent]. unfold id.
    rewrite Hk. unfold config.MAX_MESSAGES_PER_MINUTE.
    split.
    + unfold checkLimit. fold ident. fold kept.
      destruct (jslength kept >=? config.MAX_MESSAGES_PER_MINUTE) eqn:E;
        [|done].
      apply Z.geb_le in E. unfold config.MAX_MESSAGES_PER_MINUTE in E. lia.
    + unfold jslength. rewrite length_app. cbn [length]. lia.
Qed.

(** X7.  A rejection tells the client to wait between 1 and 60 seconds,
    as long as no stored timestamp lies in the future of the call. *)
Theorem resetIn_bounds now clientId ip mt :
  Forall (λ t, t <= now)
         (default [] (mt !! getClientIdentifier clientId ip)) →
  allowed (checkLimit now clientId ip mt).1 = false →
  1 <= resetIn (checkLimit now clientId ip mt).1 <= 60.
Proof.
  intros Hpast. unfold checkLimit.
  set (kept := in_window _ _).
  destruct (jslength kept >=? config.MAX_MESSAGES_PER_MINUTE) eqn:E;
    [|done].
  intros _. cbn [fst resetIn]. apply Z.geb_le in E.
  destruct kept as [|o kept'] eqn:Hk.
  { unfold jslength, config.MAX_MESSAGES_PER_MINUTE in E. cbn in E. lia. }
  cbn [head default].
  assert (o ∈ in_window (now - config.RATE_LIMIT_WINDOW)
                (default [] (mt !! getClientIdentifier clientId ip))) as Ho.
  { fold kept. rewrite Hk. apply list_elem_of_here. }
  apply in_window_elem in Ho as [Hlo Hin].
  rewrite Forall_forall in Hpast. apply Hpast in Hin.
  unfold config.RATE_LIMIT_WINDOW in *.
  change (1 <= ceil_div (o + 60000 - now) 1000 <= 60). unfold ceil_div.
  assert (-60 <= (- (o + 60000 - now)) / 1000).
  { apply Z.div_le_lower_bound; lia. }
  assert ((- (o + 60000 - now)) / 1000 < 0).
  { apply Z.div_lt_upper_bound; lia. }
  lia.
Qed.

Lemma resetIn_bounds_witness :
  1 <= resetIn (checkLimit 1500 (lit "c1") None
                  {[ lit "client:c1" :=
                       [1000; 1001; 1002; 1003; 1004; 1005; 1006; 1007;
                        1008; 1009] ]}).1 <= 60.
Proof.
  apply (resetIn_bounds 1500 (lit "c1") None).
  - vm_compute. repeat constructor; discriminate.
  - vm_compute. reflexivity.
Defined.

(** X8.  [resetClient] gives the allowance back: the next call for that
    client is accepted with nine messages left, whatever was stored; the
    other identifiers are not touched. *)
Theorem reset_restores now clientId ip mt :
  let mt' := resetClient clientId ip mt in
  allowed (checkLimit now clientId ip mt').1 = true ∧
  remaining (checkLimit now clientId ip mt').1 = 9 ∧
  (∀ other, other ≠ getClientIdentifier clientId ip →
            mt' !! other = mt !! other).
Proof.
  cbv zeta. unfold resetClient.
  rewrite (checkLimit_expired clientId ip now).
  - split; [done|]. split; [done|]. intros other Hne.
    by rewrite lookup_delete_ne.
  - cbv zeta. by rewrite lookup_delete_eq.
Qed.

End LimiterProperties.

(** ** ClientsManager *)

Module RegistryProperties.
Import ClientsManager Predicates Views RegistryFacts JoinFacts DisconnectFacts.

Lemma clients_removeClient clientId w :
  clients (removeClient clientId w).2 = map_delete clientId (clients w).
Proof.
  unfold removeClient. destruct (getClient clientId w) eqn:E; [done|].
  cbn [snd]. symmetry. by apply assoc_get_None_delete.
Qed.

(** X9.  Registering and removing round-trip: after [addClient] the id
    maps to a fresh anonymous client and no other id changes; [removeClient]
    returns that client and frees the id; removing once more returns
    [null] and changes nothing; and if the id was free before, the registry
    is back to what it was. *)
Theorem registry_round_trip now clientId s a w :
  let fresh :=
    {| client_id := clientId; ws := s; username := None; ip := a;
       connectedAt := now; lastActivity := now |} in
  let w1 := (addClient now clientId s a w).2 in
  let w2 := (removeClient clientId w1).2 in
  getClient clientId w1 = Some fresh ∧
  (∀ other, other ≠ clientId → getClient other w1 = getClient other w) ∧
  (removeClient clientId w1).1 = Some fresh ∧
  getClient clientId w2 = None ∧
  (∀ other, other ≠ clientId → getClient other w2 = getClient other w) ∧
  removeClient clientId w2 = (None, w2) ∧
  (getClient clientId w = None → clients w2 = clients w).
Proof.
  cbv zeta. set (fresh := Build_Client _ _ _ _ _ _).
  set (w1 := (addClient now clientId s a w).2).
  assert (getClient clientId w1 = Some fresh) as H1.
  { unfold getClient, w1, addClient. cbn [snd clients with_clients].
    by rewrite assoc_get_map_set, decide_True. }
  assert (∀ other, other ≠ clientId →
                   getClient other w1 = getClient other w) as H1o.
  { intros other Hne. unfold getClient, w1, addClient.
    cbn [snd clients with_clients].
    by rewrite assoc_get_map_set, decide_False. }
  assert (getClient clientId (removeClient clientId w1).2 = None) as H2.
  { unfold getClient. rewrite clients_removeClient.
    by rewrite assoc_get_map_delete, decide_True. }
  split; [done|]. split; [done|].
  split; [unfold removeClient; by rewrite H1|].
  split; [done|].
  split.
  { intros other Hne. unfold getClient at 1. rewrite clients_removeClient.
    rewrite assoc_get_map_delete, decide_False by done. by apply H1o. }
  split; [unfold removeClient at 1; by rewrite H2|].
  intros Hfree. rewrite clients_removeClient.
  unfold w1, addClient. cbn [snd clients with_clients].
  unfold getClient in Hfree. rewrite map_set_fresh by done.
  unfold map_delete. rewrite filter_app, filter_cons_False by (cbn; tauto).
  rewrite filter_nil, app_nil_r. by apply assoc_get_None_delete.
Qed.

Lemma count_named_spec l :
  count_named l = jslength (active l) ∧
  count_named l = jslength (filter (λ e : jsstring * Client, named e.2 = true) l) ∧
  jslength l - count_named l =
    jslength (filter (λ e : jsstring * Client, named e.2 = false) l).
Proof.
  induction l as [|[k c] l (IH1 & IH2 & IH3)]; [done|].
  unfold active, jslength in *.
  destruct c as [cid s0 [[|x n]|] a ca la];
    cbn [count_named omap list_omap snd username].
  - rewrite filter_cons_False, filter_cons_True by done. cbn [length]. lia.
  - rewrite filter_cons_True, filter_cons_False by done. cbn [length]. lia.
  - rewrite filter_cons_False, filter_cons_True by done. cbn [length]. lia.
Qed.

(** X10.  The statistics partition the registry: [activeUsers] is the
    length of the roster of [getActiveUsers], [anonymousClients] counts
    the connections without a name, the two add up to [totalClients],
    which is also the length of [getAllClients]; none is negative. *)
Theorem stats_partition w :
  let st := ClientsManager.getStats w in
  activeUsers st = jslength (getActiveUsers w) ∧
  activeUsers st = getActiveUserCount w ∧
  anonymousClients st =
    jslength (filter (λ e : jsstring * Client, named e.2 = false) (clients w)) ∧
  totalClients st = activeUsers st + anonymousClients st ∧
  totalClients st = jslength (getAllClients w) ∧
  0 <= activeUsers st <= totalClients st ∧ 0 <= anonymousClients st.
Proof.
  cbv zeta. unfold ClientsManager.getStats, getActiveUserCount, getClientCount,
    getAllClients.
  cbn [activeUsers anonymousClients totalClients].
  destruct (count_named_spec (clients w)) as (H1 & H2 & H3).
  rewrite getActiveUsers_active.
  unfold jslength in *. rewrite length_fmap.
  repeat split; lia.
Qed.

(** X11.  What [broadcast] does.  A frame goes to a connection exactly
    when it is registered, not the excluded one, open, and its [send] does
    not throw: a closed socket or a throwing [send] does not stop the
    others.  [successCount] counts the frames written and [failCount] the
    throwing sends.  A non-empty [excludeClientId] removes that id from
    the recipients and nobody else; an empty one excludes nobody.  The
    registry is left as it was. *)
Theorem broadcast_outcome data exclude w :
  let frames := (λ k, (k, data)) <$> recipients (clients w) exclude in
  let w' := (broadcast data exclude w).2 in
  wire w' = wire w ++ frames ∧
  clients w' = clients w ∧
  (∀ k, (k, data) ∈ frames ↔
        ∃ c, (k, c) ∈ clients w ∧ excluded exclude k = false ∧
             is_open c = true ∧ send_throws c = false) ∧
  (broadcast data exclude w).1.1 = length frames ∧
  (broadcast data exclude w).1.2 =
    length (filter (λ e : jsstring * Client,
                      excluded exclude e.1 = false ∧ is_open e.2 = true ∧
                      send_throws e.2 = true) (clients w)) ∧
  (∀ e, exclude = Some e → e ≠ [] →
        recipients (clients w) exclude =
        filter (λ k, k ≠ e) (recipients (clients w) None)) ∧
  (exclude = Some [] →
   recipients (clients w) exclude = recipients (clients w) None).
Proof.
  cbv zeta.
  split; [apply wire_broadcast|]. split; [apply clients_broadcast|].
  split.
  { intros k. rewrite list_elem_of_fmap. unfold recipients.
    setoid_rewrite list_elem_of_omap. split.
    - intros (k' & [= <-] & [k0 c] & Hin & Hk). cbn [fst snd] in Hk.
      destruct (excluded exclude k0) eqn:Hex; [done|].
      destruct (is_open c) eqn:Ho; [|done].
      destruct (send_throws c) eqn:Ht; [done|].
      injection Hk as <-. by exists c.
    - intros (c & Hin & Hex & Ho & Ht). exists k. split; [done|].
      exists (k, c). cbn [fst snd]. by rewrite Hex, Ho, Ht. }
  assert (∀ l,
            (broadcast_loop l data exclude).1.2 = length (recipients l exclude) ∧
            (broadcast_loop l data exclude).2 =
              length (filter (λ e : jsstring * Client,
                                excluded exclude e.1 = false ∧
                                is_open e.2 = true ∧
                                send_throws e.2 = true) l)) as Hloop.
  { induction l as [|[k c] l [IH1 IH2]]; [done|].
    cbn [broadcast_loop]. unfold recipients in *.
    cbn [omap list_omap fst snd]. rewrite filter_cons. cbn [fst snd].
    destruct (broadcast_loop l data exclude) as [[frames sc] fc].
    cbn [fst snd] in *. subst sc fc.
    destruct (excluded exclude k); [by rewrite decide_False by (intros [? _]; done)|].
    destruct (is_open c); cbn [andb];
      [|by rewrite decide_False by (intros (_ & ? & _); done)].
    destruct (send_throws c); cbn [negb].
    - by rewrite decide_True.
    - by rewrite decide_False by (intros (_ & _ & ?); done). }
  unfold broadcast. destruct (Hloop (clients w)) as [Hs Hf].
  destruct (broadcast_loop (clients w) data exclude) as [[frames sc] fc].
  cbn [fst snd] in *.
  split; [by rewrite length_fmap|]. split; [done|].
  split.
  - intros e -> He. unfold recipients. clear Hs Hf Hloop.
    induction (clients w) as [|[k c] l IH]; [done|].
    cbn [omap list_omap fst snd]. rewrite IH. unfold excluded.
    destruct e as [|x e]; [done|].
    case_bool_decide as Hk.
    + destruct (is_open c && negb (send_throws c)); [|done].
      by rewrite filter_cons_False by (intros ?; done).
    + destruct (is_open c && negb (send_throws c)); [|done].
      by rewrite filter_cons_True.
  - by intros ->.
Qed.

(** X12.  [broadcastToActiveUsers] writes to the recipients of
    [broadcast] that have a display name, and to nobody else: an
    anonymous connection never gets such a frame.  Its result counts the
    frames written, and the registry is left as it was. *)
Theorem broadcastToActiveUsers_outcome data exclude w :
  let frames := (broadcastToActiveUsers_loop (clients w) data exclude).1 in
  let w' := (broadcastToActiveUsers data exclude w).2 in
  wire w' = wire w ++ frames ∧
  clients w' = clients w ∧
  (broadcastToActiveUsers data exclude w).1 = length frames ∧
  (∀ f, f ∈ frames ↔
        ∃ c, f = (f.1, data) ∧ (f.1, c) ∈ clients w ∧ named c = true ∧
             excluded exclude f.1 = false ∧
             is_open c = true ∧ send_throws c = false) ∧
  frames `sublist_of` (λ k, (k, data)) <$> recipients (clients w) exclude.
Proof.
  cbv zeta. unfold broadcastToActiveUsers.
  assert (∀ l, (broadcastToActiveUsers_loop l data exclude).2 =
               length (broadcastToActiveUsers_loop l data exclude).1) as Hlen.
  { induction l as [|[k c] l IH]; [done|]. cbn [broadcastToActiveUsers_loop].
    destruct (broadcastToActiveUsers_loop l data exclude) as [frames sc].
    cbn [fst snd] in IH. subst sc.
    by repeat case_match. }
  specialize (Hlen (clients w)).
  destruct (broadcastToActiveUsers_loop (clients w) data exclude)
    as [frames sc] eqn:Hloop.
  cbn [fst snd] in *.
  split; [done|]. split; [done|]. split; [done|].
  assert (frames = (broadcastToActiveUsers_loop (clients w) data exclude).1)
    as -> by by rewrite Hloop.
  clear. split.
  - intros f. induction (clients w) as [|[k c] l IH].
    { cbn. split; [by intros ?%elem_of_nil|].
      by intros (c & _ & ?%elem_of_nil & _). }
    cbn [broadcastToActiveUsers_loop].
    destruct (broadcastToActiveUsers_loop l data exclude) as [frames sc].
    cbn [fst] in *.
    assert (f ∈ frames →
            ∃ c0, f = (f.1, data) ∧ (f.1, c0) ∈ (k, c) :: l ∧
                  named c0 = true ∧ excluded exclude f.1 = false ∧
                  is_open c0 = true ∧ send_throws c0 = false) as Hold.
    { intros (c0 & ? & ? & ?)%IH. exists c0. split; [done|].
      split; [by apply list_elem_of_further|done]. }
    assert ((∃ c0, f = (f.1, data) ∧ (f.1, c0) ∈ (k, c) :: l ∧
                   named c0 = true ∧ excluded exclude f.1 = false ∧
                   is_open c0 = true ∧ send_throws c0 = false) →
            f ∈ frames ∨
            (f = (k, data) ∧ named c = true ∧ excluded exclude k = false ∧
             is_open c = true ∧ send_throws c = false)) as Hnew.
    { intros (c0 & Hf & [[= <- <-]|Hin]%elem_of_cons & Hrest).
      - right. by rewrite Hf at 1.
      - left. apply IH. by exists c0. }
    unfold named in *.
    destruct (username c) as [[|x n]|] eqn:Hu; cbn [fst].
    + split; [done|]. intros [?|(_ & ? & _)]%Hnew; done.
    + destruct (excluded exclude k) eqn:Hex; cbn [fst].
      { split; [done|]. intros [?|(_ & _ & ? & _)]%Hnew; done. }
      destruct (is_open c) eqn:Ho; cbn [fst].
      2:{ split; [done|]. intros [?|(_ & _ & _ & ? & _)]%Hnew; done. }
      destruct (send_throws c) eqn:Ht; cbn [fst].
      { split; [done|]. intros [?|(_ & _ & _ & _ & ?)]%Hnew; done. }
      rewrite elem_of_cons. split.
      * intros [->|?]; [|by apply Hold].
        exists c. cbn [fst]. rewrite Hu.
        repeat split; try done. apply list_elem_of_here.
      * intros [?|(? & _)]%Hnew; [by right|by left].
    + split; [done|]. intros [?|(_ & ? & _)]%Hnew; done.
  - unfold recipients. induction (clients w) as [|[k c] l IH]; [done|].
    cbn [broadcastToActiveUsers_loop omap list_omap fst snd].
    destruct (broadcastToActiveUsers_loop l data exclude) as [frames sc].
    cbn [fst] in *.
    destruct (username c) as [[|x n]|], (excluded exclude k), (is_open c),
      (send_throws c); cbn [fst andb negb]; rewrite ?fmap_cons;
      first [done | by apply sublist_skip | by apply sublist_cons].
Qed.

Lemma clients_remove_all (dead : list jsstring) : ∀ w,
  clients (foldl (λ w clientId, (removeClient clientId w).2) w dead) =
  filter (λ e : jsstring * Client, e.1 ∉ dead) (clients w).
Proof.
  induction dead as [|d dead IH]; intros w.
  - cbn [foldl]. symmetry. induction (clients w) as [|e l IHl]; [done|].
    rewrite filter_cons_True by apply not_elem_of_nil. by rewrite IHl.
  - cbn [foldl]. rewrite IH, clients_removeClient. unfold map_delete.
    rewrite list_filter_filter. apply list_filter_iff.
    intros e. rewrite not_elem_of_cons. tauto.
Qed.

Lemma keys_functional {V} (l : list (jsstring * V)) k v v' :
  NoDup l.*1 → (k, v) ∈ l → (k, v') ∈ l → v = v'.
Proof.
  induction l as [|[k0 v0] l IH]; [by intros _ ?%elem_of_nil|].
  rewrite fmap_cons. cbn [fst]. intros [Hk Hnd]%NoDup_cons.
  assert (∀ x, (k0, x) ∈ l → False) as Hfresh.
  { intros x Hx. apply Hk. apply list_elem_of_fmap. by exists (k0, x). }
  intros [[= -> ->]|H1]%elem_of_cons [[= ?]|H2]%elem_of_cons; subst.
  - done.
  - by destruct (Hfresh v').
  - by destruct (Hfresh v).
  - by apply IH.
Qed.

Lemma filter_ext_in {A} (P Q : A → Prop)
    `{!∀ x, Decision (P x), !∀ x, Decision (Q x)} (l : list A) :
  (∀ x, x ∈ l → (P x ↔ Q x)) → filter P l = filter Q l.
Proof.
  induction l as [|a l IH]; intros Hext; [done|].
  rewrite !filter_cons.
  assert (P a ↔ Q a) as Ha by apply Hext, list_elem_of_here.
  rewrite IH by (intros x Hx; by apply Hext, list_elem_of_further).
  destruct (decide (P a)), (decide (Q a)); tauto.
Qed.

Lemma filter_bool_length {A} (b : A → bool) (l : list A) :
  (length (filter (λ x, b x = true) l) + length (filter (λ x, b x = false) l)
   = length l)%nat.
Proof.
  induction l as [|a l IH]; [done|]. rewrite !filter_cons.
  destruct (b a) eqn:E.
  - rewrite decide_True, decide_False by done. cbn [length]. lia.
  - rewrite decide_False, decide_True by done. cbn [length]. lia.
Qed.

Lemma dead_ids_length now (l : list (jsstring * Client)) :
  length (omap (λ e : jsstring * Client,
                  if is_dead now e.2 then Some e.1 else None) l) =
  length (filter (λ e : jsstring * Client, is_dead now e.2 = true) l).
Proof.
  induction l as [|e l IH]; [done|]. cbn [omap list_omap].
  rewrite filter_cons. destruct (is_dead now e.2).
  - rewrite decide_True by done. cbn [length]. by rewrite IH.
  - by rewrite decide_False.
Qed.

(** X13.  [cleanupDeadConnections] removes exactly the connections whose
    socket is not open or that were inactive for more than five minutes,
    and keeps the others as they are and in their order; the number it
    returns is the number of connections removed; every connection left
    is open and was active within the last five minutes.  (The registry
    holds each id once, as a [Map] does.) *)
Theorem cleanup_outcome now w :
  keys_unique w →
  let w' := (cleanupDeadConnections now w).2 in
  clients w' =
    filter (λ e : jsstring * Client, is_dead now e.2 = false) (clients w) ∧
  Z.of_nat (cleanupDeadConnections now w).1 =
    jslength (clients w) - jslength (clients w') ∧
  (∀ k c, getClient k w' = Some c →
          getClient k w = Some c ∧ is_open c = true ∧
          now - lastActivity c <= 300000).
Proof.
  intros Hk. cbv zeta. unfold keys_unique in Hk.
  assert (clients (cleanupDeadConnections now w).2 =
          filter (λ e : jsstring * Client, is_dead now e.2 = false) (clients w))
    as Hcl.
  { unfold cleanupDeadConnections. cbn [snd]. rewrite clients_remove_all.
    apply filter_ext_in. intros [k c] He. cbn [fst snd].
    rewrite list_elem_of_omap. split.
    - intros Hn. destruct (is_dead now c) eqn:Hd; [|done].
      destruct Hn. exists (k, c). cbn [fst snd]. by rewrite Hd.
    - intros Hd ([k' c'] & He' & Hsome). cbn [fst snd] in Hsome.
      destruct (is_dead now c') eqn:Hd'; [|done]. injection Hsome as ->.
      assert (c' = c) as -> by by eapply keys_functional.
      congruence. }
  split; [done|]. split.
  - rewrite Hcl. unfold cleanupDeadConnections. cbn [fst].
    rewrite dead_ids_length. unfold jslength.
    pose proof (filter_bool_length (λ e : jsstring * Client, is_dead now e.2)
                  (clients w)). cbn beta in *. lia.
  - intros k c Hc. unfold getClient in *. rewrite Hcl in Hc.
    apply assoc_get_elem in Hc as Hin.
    apply list_elem_of_filter in Hin as [Hd Hin]. cbn [snd] in Hd.
    split.
    + destruct (assoc_get k (clients w)) as [c0|] eqn:E.
      * apply assoc_get_elem in E. f_equal. by eapply keys_functional.
      * apply assoc_get_None_keys in E. destruct E.
        apply list_elem_of_fmap. by exists (k, c).
    + unfold is_dead in Hd. apply orb_false_iff in Hd as [Hi Ho].
      apply negb_false_iff in Ho. split; [done|].
      rewrite Z.gtb_ltb in Hi. apply Z.ltb_ge in Hi. lia.
Qed.

Lemma cleanup_outcome_witness :
  clients (cleanupDeadConnections 500000 Scenarios.ana_joined).2 = [] ∧
  Z.of_nat (cleanupDeadConnections 500000 Scenarios.ana_joined).1 = 2.
Proof.
  destruct (cleanup_outcome 500000 Scenarios.ana_joined) as (Hc & Hn & _).
  - unfold keys_unique. apply (bool_decide_unpack _). vm_compute. exact I.
  - split; [rewrite Hc|rewrite Hn, Hc]; vm_compute; reflexivity.
Defined.

(** X14.  [getClientByUsername] and [isUsernameTaken] agree: a name is
    taken exactly when the search finds a connection; what it finds is a
    registered connection that holds the name; and when names are unique
    it is the only one. *)
Theorem find_by_name name w :
  (isUsernameTaken name w = true ↔ is_Some (getClientByUsername name w)) ∧
  (∀ e, getClientByUsername name w = Some e →
        e ∈ clients w ∧ username e.2 = Some name) ∧
  (names_unique w →
   ∀ e e', getClientByUsername name w = Some e →
           e' ∈ clients w → username e'.2 = Some name → e' = e).
Proof.
  assert (∀ e, getClientByUsername name w = Some e →
               e ∈ clients w ∧ username e.2 = Some name) as Hfound.
  { intros e He. unfold getClientByUsername in He.
    apply find_some in He as [Hin Hn].
    split; [by apply list_elem_of_In|]. by apply bool_decide_eq_true in Hn. }
  split; [|split; [done|]].
  - rewrite isUsernameTaken_true, elem_of_names. split.
    + intros (e & Hin & Hn). unfold getClientByUsername.
      destruct (find _ (clients w)) as [e0|] eqn:E; [by eexists|].
      exfalso. apply list_elem_of_In in Hin.
      apply (find_none _ _ E) in Hin.
      apply bool_decide_eq_false in Hin. done.
    + intros [e He]. exists e. by apply Hfound.
  - intros Hu e e' He Hin' Hn'. destruct (Hfound e He) as [Hin Hn].
    apply list_elem_of_lookup_1 in Hin as [i Hi].
    apply list_elem_of_lookup_1 in Hin' as [j Hj].
    assert (j = i) as -> by (eapply (Hu j i); eauto).
    congruence.
Qed.

Lemma find_by_name_witness :
  is_Some (getClientByUsername (lit "Ana") Scenarios.ana_joined).
Proof.
  apply (proj1 (find_by_name (lit "Ana") Scenarios.ana_joined)).
  vm_compute. reflexivity.
Defined.

End RegistryProperties.

(** ** The address of a connection *)

Module RequestProperties.
Import ClientsManager Views.

Lemma trimStart_split s :
  ∃ pre, s = pre ++ trimStart s ∧ Forall (λ c, is_whitespace c = true) pre.
Proof.
  induction s as [|c s (pre & Hs & Hpre)]; [by exists []|].
  cbn [trimStart]. destruct (is_whitespace c) eqn:E.
  - exists (c :: pre). split; [by rewrite Hs at 1|by constructor].
  - by exists [].
Qed.

Lemma trimStart_head s c :
  head (trimStart s) = Some c → is_whitespace c = false.
Proof.
  induction s as [|x s IH]; [done|]. cbn [trimStart].
  destruct (is_whitespace x) eqn:E; [done|]. by intros [= <-].
Qed.

Lemma trimStart_fix s :
  (∀ c, head s = Some c → is_whitespace c = false) → trimStart s = s.
Proof.
  destruct s as [|x s]; [done|]. intros H. cbn [trimStart].
  by rewrite (H x).
Qed.

Lemma head_reverse {A} (l : list A) : head (reverse l) = last l.
Proof.
  induction l as [|x l IH] using rev_ind; [done|].
  by rewrite reverse_app, last_snoc.
Qed.

(** [trim] cuts whitespace off both ends and nothing else. *)
Lemma trim_shape s :
  (∃ pre post, s = pre ++ trim s ++ post ∧
               Forall (λ c, is_whitespace c = true) pre ∧
               Forall (λ c, is_whitespace c = true) post) ∧
  (∀ c, head (trim s) = Some c → is_whitespace c = false) ∧
  (∀ c, last (trim s) = Some c → is_whitespace c = false).
Proof.
  unfold trim, trimEnd.
  destruct (trimStart_split s) as (pre & Hs & Hpre).
  set (t := trimStart s) in *.
  destruct (trimStart_split (reverse t)) as (post & Ht & Hpost).
  set (u := trimStart (reverse t)) in *.
  assert (t = reverse u ++ reverse post) as Ht'.
  { rewrite <- reverse_app, <- Ht. by rewrite reverse_involutive. }
  split; [|split].
  - exists pre, (reverse post). split; [by rewrite <- Ht'|].
    split; [done|]. by apply Forall_reverse.
  - intros c Hc. apply (trimStart_head s). fold t. rewrite Ht'.
    destruct (reverse u); [done|]. done.
  - intros c Hc. apply (trimStart_head (reverse t)). fold u.
    by rewrite <- (reverse_involutive u), head_reverse.
Qed.

Lemma trim_idempotent s : trim (trim s) = trim s.
Proof.
  destruct (trim_shape s) as (_ & Hh & Hl).
  unfold trim at 1. rewrite (trimStart_fix (trim s)) by done.
  unfold trimEnd. rewrite trimStart_fix; [by rewrite reverse_involutive|].
  intros c. rewrite head_reverse. apply Hl.
Qed.

Lemma before_comma_split s :
  (44%N ∉ before_comma s) ∧
  (s = before_comma s ∨ ∃ rest, s = before_comma s ++ 44%N :: rest).
Proof.
  induction s as [|c s [IH1 IH2]].
  - split; [apply not_elem_of_nil|by left].
  - cbn [before_comma]. destruct (c =? 44)%N eqn:E.
    + apply N.eqb_eq in E as ->. split; [apply not_elem_of_nil|].
      right. by exists s.
    + apply N.eqb_neq in E. split.
      * rewrite not_elem_of_cons. by split.
      * destruct IH2 as [IH2|[rest IH2]]; [left|right; exists rest];
          by rewrite IH2 at 1.
Qed.

(** X16.  Where the address of a connection comes from.  A non-empty
    [X-Forwarded-For] wins: the address is what stands before its first
    comma, trimmed, so it holds no comma and neither starts nor ends with
    whitespace.  Otherwise a non-empty [X-Real-IP] is taken as it is, then
    the address of the socket, then ['unknown'].  The address can only be
    empty through [X-Forwarded-For]; and the limiter keys on the
    connection id exactly when the address is empty or ['unknown']. *)
Theorem client_ip_from_request r :
  let a := getClientIp r in
  (present (x_forwarded_for r) = true →
   ∃ fwd, x_forwarded_for r = Some fwd ∧
     a = trim (before_comma fwd) ∧
     (fwd = before_comma fwd ∨ ∃ rest, fwd = before_comma fwd ++ 44%N :: rest) ∧
     (44%N ∉ a) ∧
     (∀ c, head a = Some c → is_whitespace c = false) ∧
     (∀ c, last a = Some c → is_whitespace c = false) ∧
     trim a = a) ∧
  (present (x_forwarded_for r) = false →
   a ≠ [] ∧
   (present (x_real_ip r) = true → Some a = x_real_ip r) ∧
   (present (x_real_ip r) = false →
    (present (remoteAddress r) = true → Some a = remoteAddress r) ∧
    (present (remoteAddress r) = false → a = lit "unknown"))) ∧
  (∀ clientId,
     RateLimiter.getClientIdentifier clientId (Some a) = lit "client:" ++ clientId
     ↔ a = [] ∨ a = lit "unknown").
Proof.
  cbv zeta. unfold getClientIp. split; [|split].
  - intros Hf. rewrite Hf.
    destruct (x_forwarded_for r) as [fwd|]; [|done]. exists fwd. cbn [default].
    destruct (before_comma_split fwd) as [Hno Hsp].
    destruct (trim_shape (before_comma fwd)) as ((pre & post & Hs & _) & Hh & Hl).
    repeat (split; [done|]). split.
    { intros Hin. apply Hno. rewrite Hs.
      apply elem_of_app. right. apply elem_of_app. by left. }
    split; [done|]. split; [done|]. apply trim_idempotent.
  - intros Hf. rewrite Hf.
    destruct (x_real_ip r) as [[|x real]|]; cbn [present default];
      try (destruct (remoteAddress r) as [[|y rem]|]; cbn [present default]);
      repeat split; try done.
  - intros clientId. unfold RateLimiter.getClientIdentifier.
    set (a := if present _ then _ else _).
    destruct (decide (a = [])) as [->|Ha].
    { cbn. split; [by left|done]. }
    rewrite (bool_decide_eq_false_2 (a = [])) by done.
    destruct (decide (a = lit "unknown")) as [->|Hu].
    { cbn. split; [by right|done]. }
    rewrite bool_decide_eq_false_2 by done. cbn [negb andb].
    split; [discriminate|]. by intros [?|?].
Qed.

Lemma client_ip_from_request_witness :
  getClientIp {| x_forwarded_for := Some (lit " 10.1.2.3 , 172.16.0.1");
                 x_real_ip := Some (lit "192.168.0.9");
                 remoteAddress := Some (lit "127.0.0.1") |}
  = lit "10.1.2.3".
Proof.
  destruct (proj1 (client_ip_from_request
                     {| x_forwarded_for := Some (lit " 10.1.2.3 , 172.16.0.1");
                        x_real_ip := Some (lit "192.168.0.9");
                        remoteAddress := Some (lit "127.0.0.1") |}))
    as (fwd & Hf & Ha & _).
  - reflexivity.
  - injection Hf as <-. rewrite Ha. vm_compute. reflexivity.
Defined.

(** An [X-Forwarded-For] that starts with a comma gives the empty
    address, and the limiter then keys on the connection id. *)
Example empty_forwarded_address :
  getClientIp {| x_forwarded_for := Some (lit ", 10.1.2.3");
                 x_real_ip := None; remoteAddress := None |} = [] ∧
  RateLimiter.getClientIdentifier (lit "c1") (Some []) = lit "client:c1".
Proof. vm_compute. done. Qed.

End RequestProperties.

(** ** ChatController: validation and sanitization *)

Module ContentProperties.
Import ChatController Views.

(** X17.  [validateMessageContent] accepts exactly the strings whose
    trimmed form has 1 to 500 code units, and hands back the trimmed
    string; the bounds are tested after trimming.  An empty string or a
    value that is not a string is invalid content, a string of whitespace
    only is too short, a trimmed string of more than 500 code units is too
    long. *)
Theorem message_content_validation v :
  (∀ t, validateMessageContent v = Valid t ↔
        ∃ s, v = Some (JStr s) ∧ t = trim s ∧ 1 <= jslength t <= 500) ∧
  ((∀ s, v ≠ Some (JStr s)) ∨ v = Some (JStr []) →
   validateMessageContent v =
     Invalid (lit "Contenido inv" ++ [225%N] ++ lit "lido")) ∧
  (∀ s, v = Some (JStr s) → s ≠ [] → trim s = [] →
        validateMessageContent v = Invalid config.MESSAGES.MESSAGE_TOO_SHORT) ∧
  (∀ s, v = Some (JStr s) → 500 < jslength (trim s) →
        validateMessageContent v = Invalid config.MESSAGES.MESSAGE_TOO_LONG).
Proof.
  assert (∀ s, s ≠ [] →
            validateMessageContent (Some (JStr s)) =
            if jslength (trim s) <? 1 then
              Invalid config.MESSAGES.MESSAGE_TOO_SHORT
            else if jslength (trim s) >? 500 then
              Invalid config.MESSAGES.MESSAGE_TOO_LONG
            else Valid (trim s)) as Hstr.
  { intros s Hs. unfold validateMessageContent, truthy.
    by rewrite bool_decide_eq_false_2. }
  split; [|split; [|split]].
  - intros t. split.
    + destruct v as [[| | |s| |]|]; try done.
      destruct (decide (s = [])) as [->|Hs]; [done|].
      rewrite Hstr by done.
      destruct (jslength (trim s) <? 1) eqn:E1; [done|].
      destruct (jslength (trim s) >? 500) eqn:E2; [done|].
      intros [= <-]. exists s. apply Z.ltb_ge in E1.
      rewrite Z.gtb_ltb in E2. apply Z.ltb_ge in E2. done.
    + intros (s & -> & -> & Hlo & Hhi).
      assert (s ≠ []) as Hs.
      { intros ->. unfold jslength in Hlo. cbn in Hlo. lia. }
      rewrite Hstr by done.
      destruct (jslength (trim s) <? 1) eqn:E1; [apply Z.ltb_lt in E1; lia|].
      destruct (jslength (trim s) >? 500) eqn:E2; [|done].
      rewrite Z.gtb_ltb in E2. apply Z.ltb_lt in E2. lia.
  - intros [Hv| ->]; [|done].
    destruct v as [[| | |s| |]|]; try done. by destruct (Hv s).
  - intros s -> Hs Ht. rewrite Hstr by done. by rewrite Ht.
  - intros s -> Hlen.
    assert (s ≠ []) as Hs.
    { intros ->. unfold jslength in Hlen. cbn in Hlen. lia. }
    rewrite Hstr by done.
    destruct (jslength (trim s) <? 1) eqn:E1; [apply Z.ltb_lt in E1; lia|].
    destruct (jslength (trim s) >? 500) eqn:E2; [done|].
    rewrite Z.gtb_ltb in E2. apply Z.ltb_ge in E2. lia.
Qed.

Lemma special_dec c : Decision (special c).
Proof. unfold special. apply _. Defined.

Lemma escape_length c :
  (special c → (4 <= length (escape c) <= 6)%nat ∧ 38%N ∈ escape c) ∧
  (¬ special c → escape c = [c]).
Proof.
  unfold escape, special.
  destruct (c =? 38)%N eqn:E1;
    [split; [intros _; split; [cbn; lia|apply list_elem_of_here]|
             apply N.eqb_eq in E1; tauto]|].
  destruct (c =? 60)%N eqn:E2;
    [split; [intros _; split; [cbn; lia|apply list_elem_of_here]|
             apply N.eqb_eq in E2; tauto]|].
  destruct (c =? 62)%N eqn:E3;
    [split; [intros _; split; [cbn; lia|apply list_elem_of_here]|
             apply N.eqb_eq in E3; tauto]|].
  destruct (c =? 34)%N eqn:E4;
    [split; [intros _; split; [cbn; lia|apply list_elem_of_here]|
             apply N.eqb_eq in E4; tauto]|].
  destruct (c =? 39)%N eqn:E5;
    [split; [intros _; split; [cbn; lia|apply list_elem_of_here]|
             apply N.eqb_eq in E5; tauto]|].
  destruct (c =? 47)%N eqn:E6;
    [split; [intros _; split; [cbn; lia|apply list_elem_of_here]|
             apply N.eqb_eq in E6; tauto]|].
  apply N.eqb_neq in E1, E2, E3, E4, E5, E6.
  split; [|done]. intros H. exfalso. tauto.
Qed.

Lemma sanitize_cons c s : sanitize (c :: s) = escape c ++ sanitize s.
Proof.
  change (c :: s) with ([c] ++ s). by rewrite sanitize_app, sanitize_one.
Qed.

Lemma sanitize_length s :
  (length s <= length (sanitize s) <= 6 * length s)%nat ∧
  (length (sanitize s) = length s → Forall (λ c, ¬ special c) s) ∧
  (Exists special s → 38%N ∈ sanitize s).
Proof.
  induction s as [|c s (IH1 & IH2 & IH3)].
  - split; [cbn; lia|]. split; [done|]. by intros ?%Exists_nil.
  - rewrite sanitize_cons, length_app. cbn [length].
    destruct (escape_length c) as [Hsp Hno].
    destruct (special_dec c) as [Hc|Hc].
    + destruct (Hsp Hc) as [Hlen Hamp]. split; [lia|].
      split; [lia|]. intros _. apply elem_of_app. by left.
    + rewrite (Hno Hc). cbn [length]. split; [lia|]. split.
      * intros Hl. constructor; [done|]. apply IH2. lia.
      * intros [?|?]%Exists_cons; [done|].
        apply elem_of_app. right. by apply IH3.
Qed.

(** X18.  [sanitize] never shortens a string and at most multiplies its
    length by six; it returns its argument unchanged exactly when none of
    the six characters occurs in it.  It is not idempotent: sanitizing a
    sanitized string changes it again exactly when the original held one
    of the six characters, because every entity starts with an
    ampersand. *)
Theorem sanitize_fixpoint s :
  (length s <= length (sanitize s) <= 6 * length s)%nat ∧
  (sanitize s = s ↔ Forall (λ c, ¬ special c) s) ∧
  (sanitize (sanitize s) = sanitize s ↔ Forall (λ c, ¬ special c) s).
Proof.
  destruct (sanitize_length s) as (Hlen & Hfix & Hamp).
  assert (∀ x, Forall (λ c, ¬ special c) x → sanitize x = x) as Hid.
  { induction x as [|c x IH]; [done|]. intros [Hc Hx]%Forall_cons.
    rewrite sanitize_cons, (proj2 (escape_length c) Hc), IH by done. done. }
  split; [done|]. split.
  - split; [|apply Hid]. intros Hs. apply Hfix. by rewrite Hs.
  - split; [|intros Hs; rewrite (Hid s Hs); by apply Hid].
    intros Hs.
    destruct (decide (Forall (λ c, ¬ special c) s)) as [?|Hn]; [done|].
    apply not_Forall_Exists in Hn; [|intros c; apply _].
    assert (Exists special s) as Hex.
    { apply Exists_exists in Hn as (c & Hc & Hsp). apply Exists_exists.
      exists c. split; [done|].
      destruct (special_dec c); [done|]. by destruct Hsp. }
    apply Hamp in Hex.
    destruct (sanitize_length (sanitize s)) as (_ & Hfix' & _).
    assert (Forall (λ c, ¬ special c) (sanitize s)) as Hclean.
    { apply Hfix'. by rewrite Hs. }
    rewrite Forall_forall in Hclean. destruct (Hclean _ Hex). by left.
Qed.

End ContentProperties.

(** ** ChatController: the handlers *)

Module HandlerProperties.
Import ClientsManager ChatController Predicates Views.
Import RegistryFacts JoinFacts DisconnectFacts QueueFacts.

Lemma quiet_refl w : quiet w w.
Proof. by repeat split. Qed.

Lemma quiet_trans w1 w2 w3 : quiet w1 w2 → quiet w2 w3 → quiet w1 w3.
Proof.
  unfold quiet. intros (? & ? & ? & ? & ? & ? & ?) (? & ? & ? & ? & ? & ? & ?).
  repeat split; congruence.
Qed.

Lemma quiet_sendToClient clientId data w :
  quiet w (sendToClient clientId data w).2.
Proof. apply sendToClient_frame. Qed.

Lemma writes_refl P w w' : wire w' = wire w → writes P w w'.
Proof. intros Hw. exists []. by rewrite app_nil_r. Qed.

Lemma writes_trans P w1 w2 w3 :
  writes P w1 w2 → writes P w2 w3 → writes P w1 w3.
Proof.
  intros (f1 & H1 & Hf1) (f2 & H2 & Hf2). exists (f1 ++ f2).
  split; [by rewrite H2, H1, app_assoc|]. by apply Forall_app.
Qed.

Lemma writes_sendToClient (P : jsstring * Payload → Prop) clientId data w :
  P (clientId, data) → writes P w (sendToClient clientId data w).2.
Proof.
  intros Hp. eexists. split; [apply wire_sendToClient|].
  case_match; by repeat constructor.
Qed.

Lemma writes_broadcast (P : jsstring * Payload → Prop) data exclude w :
  (∀ k, P (k, data)) → writes P w (broadcast data exclude w).2.
Proof.
  intros Hp. eexists. split; [apply wire_broadcast|].
  apply Forall_fmap, Forall_forall. intros k _. apply Hp.
Qed.

Lemma writes_drain (P : jsstring * Payload → Prop) queue : ∀ w,
  (∀ k u c t, P (k, Message u c t)) → writes P w (drain queue w).
Proof.
  induction queue as [|m queue IH]; intros w Hp; [by apply writes_refl|].
  cbn [drain].
  assert (writes P w (broadcast (message_payload m) None
                        (with_messageQueue queue w)).2) as Hb.
  { apply (writes_broadcast P _ _ (with_messageQueue queue w)).
    intros k. apply Hp. }
  case_match; [exact Hb|]. eapply writes_trans; [exact Hb|by apply IH].
Qed.

Lemma writes_queueMessage (P : jsstring * Payload → Prop) message w :
  (∀ k u c t, P (k, Message u c t)) → writes P w (queueMessage message w).
Proof.
  intros Hp. unfold queueMessage, processMessageQueue.
  case_match; [|by apply writes_refl].
  eapply writes_trans; [|by apply writes_drain]. by apply writes_refl.
Qed.

Lemma trk_drain queue : ∀ w,
  messageTracking (drain queue w) = messageTracking w.
Proof.
  induction queue as [|m queue IH]; intros w; [done|]. cbn [drain].
  destruct (broadcast_frame (message_payload m) None
              (with_messageQueue queue w)) as (_ & Ht & _).
  case_match; [exact Ht|]. by rewrite IH, Ht.
Qed.

Lemma trk_queueMessage message w :
  messageTracking (queueMessage message w) = messageTracking w.
Proof.
  unfold queueMessage, processMessageQueue.
  case_match; [|done]. by rewrite trk_drain.
Qed.

Lemma enqueued_drain queue : ∀ w, enqueued (drain queue w) = enqueued w.
Proof.
  induction queue as [|m queue IH]; intros w; [done|]. cbn [drain].
  destruct (broadcast_frame (message_payload m) None
              (with_messageQueue queue w)) as (_ & _ & _ & _ & _ & _ & He).
  case_match; [exact He|]. by rewrite IH, He.
Qed.

Lemma enqueued_queueMessage message w :
  enqueued (queueMessage message w) = enqueued w ++ [message].
Proof.
  unfold queueMessage, processMessageQueue.
  case_match; [|done]. by rewrite enqueued_drain.
Qed.

(** X19.  What a chat message costs.  Either [handleChatMessage] does
    nothing but answer the sender with at most one [error] frame: the
    limiter, the queue, the broadcasts and the registry stay as they
    were; this is the case for an unknown or anonymous connection, for
    invalid content and for a message the limiter rejects.  Or the
    connection has a name, the content is valid and the limiter accepts:
    then the limiter has recorded the call and the message, sanitized, is
    enqueued under the sender's name with the time of the call. *)
Theorem chat_message_outcome now clientId data w :
  let w' := handleChatMessage now clientId data w in
  (quiet w w' ∧
   (wire w' = wire w ∨ ∃ m, wire w' = wire w ++ [(clientId, Error m now)]))
  ∨
  (∃ c name trimmed r,
     getClient clientId w = Some c ∧ username c = Some name ∧ name ≠ [] ∧
     validateMessageContent (prop data (lit "content")) = Valid trimmed ∧
     RateLimiter.checkLimit now clientId (Some (ip c)) (messageTracking w)
       = (r, messageTracking w') ∧
     RateLimiter.allowed r = true ∧
     clients w' = clients w ∧
     enqueued w' =
       enqueued w ++ [{| q_clientId := clientId; q_username := name;
                         q_content := sanitize trimmed;
                         q_timestamp := now |}]).
Proof.
  cbv zeta.
  assert (∀ m w0, quiet w w0 → wire w0 = wire w →
            quiet w (sendError now clientId m w0) ∧
            (wire (sendError now clientId m w0) = wire w ∨
             ∃ m', wire (sendError now clientId m w0)
                   = wire w ++ [(clientId, Error m' now)])) as Herr.
  { intros m w0 Hq Hw. unfold sendError. split.
    - eapply quiet_trans; [exact Hq|apply quiet_sendToClient].
    - rewrite wire_sendToClient, Hw. case_match.
      + right. by exists m.
      + left. by rewrite app_nil_r. }
  unfold handleChatMessage.
  destruct (getClient clientId w) as [c|] eqn:Hc;
    [|left; split; [apply quiet_refl|by left]].
  destruct (username c) as [[|x name]|] eqn:Hu;
    try (left; apply Herr; [apply quiet_refl|done]).
  destruct (validateMessageContent _) as [trimmed|] eqn:Hv;
    [|left; apply Herr; [apply quiet_refl|done]].
  destruct (RateLimiter.checkLimit _ _ _ _) as [r t] eqn:Hr.
  destruct (RateLimiter.allowed r) eqn:Ha; cbn [negb].
  - right. exists c, (x :: name), trimmed, r.
    rewrite trk_queueMessage, clients_queueMessage, enqueued_queueMessage.
    repeat (split; [done|]). done.
  - left. apply Herr; [|done].
    pose proof (LimiterProperties.checkLimit_stored now clientId
                  (Some (ip c)) (messageTracking w)) as Hs.
    cbv zeta in Hs. rewrite Hr in Hs. cbn [fst snd] in Hs.
    rewrite Ha in Hs. destruct Hs as [_ ->]. by repeat split.
Qed.

(** X20.  Replies go to the sender only.  Whatever frame arrives, every
    frame the server writes while handling it is either addressed to the
    connection the frame came from, or is one of the two fanned-out kinds,
    [userJoined] and [message]; so an [error], [joined] or [pong] frame
    never reaches another connection. *)
Theorem replies_to_sender_only now clientId rawData w :
  writes (λ f, f.1 = clientId ∨ is_fanout f.2 = true)
         w (handleMessage now clientId rawData w) ∧
  (∀ fs, wire (handleMessage now clientId rawData w) = wire w ++ fs →
     ∀ k p, (k, p) ∈ fs → k ≠ clientId →
            (∃ u m t us, p = UserJoined u m t us) ∨
            (∃ u c t, p = Message u c t)).
Proof.
  set (P := λ f : jsstring * Payload, f.1 = clientId ∨ is_fanout f.2 = true).
  assert (writes P w (handleMessage now clientId rawData w)) as Hw.
  { assert (∀ m wa w0, writes P wa w0 →
                         writes P wa (sendError now clientId m w0)) as Herr.
    { intros m wa w0 H0. eapply writes_trans; [exact H0|].
      apply writes_sendToClient. by left. }
    assert (writes P w (updateActivity now clientId w)) as Hu.
    { apply writes_refl. unfold updateActivity. by case_match. }
    unfold handleMessage.
    destruct rawData as [data|]; [|by apply Herr, writes_refl].
    destruct (validateMessage data); [|by apply Herr, writes_refl].
    destruct (prop data (lit "type")) as [[| | |type| |]|];
      try by apply Herr.
    repeat case_decide; [| | |by apply Herr].
    - eapply writes_trans; [exact Hu|]. unfold handleJoin.
      destruct (getClient clientId _) as [c|] eqn:Hc; [|by apply writes_refl].
      destruct (validateUsername _) as [u|];
        [|apply Herr; by apply writes_refl].
      destruct (isUsernameTaken _ _); [apply Herr; by apply writes_refl|].
      eapply writes_trans; [|apply writes_broadcast; intros k; by right].
      eapply writes_trans; [|apply writes_sendToClient; by left].
      apply writes_refl. unfold setUsername. by rewrite Hc.
    - eapply writes_trans; [exact Hu|]. unfold handleChatMessage.
      destruct (getClient clientId _) as [c|]; [|by apply writes_refl].
      destruct (username c) as [[|x name]|];
        try (apply Herr; by apply writes_refl).
      destruct (validateMessageContent _);
        [|apply Herr; by apply writes_refl].
      destruct (RateLimiter.checkLimit _ _ _ _) as [r t].
      destruct (negb (RateLimiter.allowed r));
        [apply Herr; by apply writes_refl|].
      eapply writes_trans; [|apply writes_queueMessage; intros; by right].
      by apply writes_refl.
    - eapply writes_trans; [exact Hu|]. unfold handlePing.
      apply writes_sendToClient. by left. }
  split; [exact Hw|].
  intros fs Hfs k p Hin Hk. destruct Hw as (fs' & Hfs' & Hall).
  rewrite Hfs in Hfs'. apply app_inv_head in Hfs' as <-.
  rewrite Forall_forall in Hall. destruct (Hall _ Hin) as [?|Hf]; [done|].
  cbn [snd] in Hf. destruct p; try done; [left|right]; by repeat eexists.
Qed.

Lemma reachable_updateActivity now clientId w :
  reachable clientId (updateActivity now clientId w) = reachable clientId w.
Proof.
  unfold reachable. destruct (getClient clientId w) as [c|] eqn:Hc.
  - assert (getClient clientId (updateActivity now clientId w)
            = Some (rename (username c) now c)) as ->; [|done].
    unfold getClient at 1. rewrite clients_updateActivity, Hc.
    by rewrite assoc_get_map_set, decide_True.
  - unfold updateActivity. by rewrite Hc, Hc.
Qed.

Lemma validateMessage_typed data type :
  prop data (lit "type") = Some (JStr type) → type ≠ [] →
  validateMessage data = Valid ().
Proof.
  intros Ht Hne. unfold validateMessage.
  destruct data; try done. rewrite Ht. cbn [truthy typeof_object negb orb].
  by rewrite bool_decide_eq_false_2.
Qed.

(** X21.  A ping is answered and costs nothing: the sender gets one
    [pong] frame with the time of the call if its socket takes it, nobody
    else gets anything, and apart from the sender's last activity nothing
    changes: no name, no limiter entry, no queue, no broadcast. *)
Theorem ping_outcome now clientId data w :
  prop data (lit "type") = Some (JStr (lit "ping")) →
  let w' := handleMessage now clientId (Some data) w in
  wire w' =
    wire w ++ (if reachable clientId w then [(clientId, Pong now)] else []) ∧
  clients w' = clients (updateActivity now clientId w) ∧
  name_view w' = name_view w ∧
  messageTracking w' = messageTracking w ∧
  qstate w' = qstate w ∧ broadcasts w' = broadcasts w.
Proof.
  intros Ht. cbv zeta. unfold handleMessage.
  rewrite (validateMessage_typed data (lit "ping")) by done. rewrite Ht.
  rewrite decide_False by discriminate.
  rewrite decide_False by discriminate.
  rewrite decide_True by done.
  unfold handlePing.
  set (w1 := updateActivity now clientId w).
  destruct (sendToClient_frame clientId (Pong now) w1)
    as (Hc & Hm & Hq & Hf & Hs & Hb & He).
  assert (wire w1 = wire w ∧ messageTracking w1 = messageTracking w ∧
          broadcasts w1 = broadcasts w) as (Hw1 & Hm1 & Hb1).
  { unfold w1, updateActivity. by case_match. }
  split.
  { rewrite wire_sendToClient, Hw1. unfold w1.
    by rewrite reachable_updateActivity. }
  split; [done|].
  split.
  { rewrite <- (name_view_updateActivity now clientId w).
    by apply name_view_frame. }
  split; [by rewrite Hm|].
  split; [rewrite qstate_sendToClient; apply qstate_updateActivity|].
  by rewrite Hb.
Qed.

Lemma ping_outcome_witness :
  wire (handleMessage 130 Scenarios.c2
          (Some (JObj [(lit "type", JStr (lit "ping"))])) Scenarios.ana_joined)
  = wire Scenarios.ana_joined ++ [(Scenarios.c2, Pong 130)].
Proof.
  rewrite (proj1 (ping_outcome 130 Scenarios.c2
                    (JObj [(lit "type", JStr (lit "ping"))])
                    Scenarios.ana_joined eq_refl)).
  vm_compute. reflexivity.
Defined.

Lemma keys_map_set_present {V} k (v : V) l :
  is_Some (assoc_get k l) → (map_set k v l).*1 = l.*1.
Proof.
  intros [v0 (l1 & l2 & -> & _ & ->)%assoc_get_split].
  by rewrite !fmap_app, !fmap_cons.
Qed.

Lemma keys_elem {V} k (l : list (jsstring * V)) :
  k ∈ l.*1 ↔ is_Some (assoc_get k l).
Proof.
  destruct (assoc_get k l) as [v|] eqn:E.
  - split; [by eexists|]. intros _. apply assoc_get_elem in E.
    apply list_elem_of_fmap. by exists (k, v).
  - apply assoc_get_None_keys in E. split; [done|]. by intros [? ?].
Qed.

Lemma keys_updateActivity now clientId w :
  (clients (updateActivity now clientId w)).*1 = (clients w).*1.
Proof.
  rewrite clients_updateActivity.
  destruct (getClient clientId w) eqn:E; [|done].
  apply keys_map_set_present. unfold getClient in E. by rewrite E.
Qed.

Lemma keys_handleMessage now clientId rawData w :
  (clients (handleMessage now clientId rawData w)).*1 = (clients w).*1.
Proof.
  unfold handleMessage.
  repeat case_match;
    rewrite ?clients_sendError, ?clients_handleChatMessage,
      ?clients_handlePing, ?keys_updateActivity; try done.
  rewrite clients_handleJoin.
  destruct (getClient clientId (updateActivity now clientId w)) eqn:E;
    [|apply keys_updateActivity].
  repeat case_match; try apply keys_updateActivity.
  rewrite keys_map_set_present; [apply keys_updateActivity|].
  unfold getClient in E. by rewrite E.
Qed.

(** X22.  Who is registered changes through three events only.  A
    connection event registers its id; a close event removes its id and
    no other; a cleanup removes ids and adds none.  Every other event, be
    it a frame of any kind (malformed, rejected by the limiter, a join, a
    ping), a socket error, a timer or a socket changing state, leaves the
    registered ids exactly as they were, in the same order. *)
Theorem registry_membership ev w :
  match ev with
  | EvConnection _ clientId _ _ =>
      clientId ∈ (clients (step ev w)).*1 ∧
      ∀ k, k ≠ clientId → k ∈ (clients (step ev w)).*1 ↔ k ∈ (clients w).*1
  | EvClose _ clientId =>
      (clients (step ev w)).*1 = filter (λ k, k ≠ clientId) (clients w).*1
  | EvCleanup _ =>
      (clients (step ev w)).*1 `sublist_of` (clients w).*1
  | _ => (clients (step ev w)).*1 = (clients w).*1
  end.
Proof.
  destruct ev; cbn [step].
  - unfold addClient. rewrite clients_sendToClient.
    cbn [clients with_clients].
    split.
    + apply keys_elem. rewrite assoc_get_map_set, decide_True by done.
      by eexists.
    + intros k Hk. rewrite !keys_elem.
      by rewrite assoc_get_map_set, decide_False.
  - apply keys_handleMessage.
  - by rewrite clients_handleError.
  - unfold handleDisconnect.
    rewrite RegistryProperties.clients_removeClient.
    assert (∀ l : list (jsstring * Client),
              (map_delete clientId l).*1 = filter (λ k, k ≠ clientId) l.*1)
      as Hd.
    { unfold map_delete. induction l as [|[k c] l IH]; [done|].
      rewrite fmap_cons, !filter_cons. cbn [fst].
      case_decide; [rewrite fmap_cons|]; by rewrite IH. }
    rewrite Hd. repeat case_match; by rewrite ?clients_broadcast.
  - unfold cleanupDeadConnections. cbn [snd].
    rewrite RegistryProperties.clients_remove_all.
    apply fmap_sublist, sublist_filter.
  - done.
  - by rewrite clients_wake.
  - unfold set_socket. destruct (getClient clientId w) eqn:E; [|done].
    cbn [clients with_clients]. apply keys_map_set_present.
    unfold getClient in E. by rewrite E.
Qed.

(** X23.  A connection that never joined leaves in silence: when the id
    is unknown or its connection has no name, [handleDisconnect] writes
    no frame and broadcasts nothing; it only frees the id, and for an
    unknown id the state is exactly what it was. *)
Theorem anonymous_disconnect now clientId w :
  (∀ c, getClient clientId w = Some c → named c = false) →
  let w' := handleDisconnect now clientId w in
  wire w' = wire w ∧ broadcasts w' = broadcasts w ∧
  clients w' = map_delete clientId (clients w) ∧
  (getClient clientId w = None → w' = w).
Proof.
  intros Hanon. cbv zeta. unfold handleDisconnect.
  assert (match getClient clientId w with
          | Some c =>
              match username c with
              | Some (a :: u) =>
                  (broadcast
                     (UserLeft (a :: u)
                        ((a :: u) ++ lit " " ++ config.MESSAGES.USER_LEFT) now
                        (filter (λ u0, user_username u0 ≠ a :: u)
                                (getActiveUsers w))) None w).2
              | _ => w
              end
          | None => w
          end = w) as ->.
  { destruct (getClient clientId w) as [c|] eqn:Hc; [|done].
    specialize (Hanon c eq_refl). unfold named in Hanon.
    by destruct (username c) as [[|a u]|]. }
  rewrite RegistryProperties.clients_removeClient.
  unfold removeClient. destruct (getClient clientId w); by repeat split.
Qed.

Lemma anonymous_disconnect_witness :
  wire (handleDisconnect 130 Scenarios.c2 Scenarios.ana_joined)
  = wire Scenarios.ana_joined.
Proof.
  apply (anonymous_disconnect 130 Scenarios.c2 Scenarios.ana_joined).
  intros c Hc. vm_compute in Hc. by injection Hc as <-.
Defined.

(** X26.  Immediate delivery.  In every state the running server
    reaches, the queue is empty, its flag is down and no run of
    [processMessageQueue] sleeps: each accepted chat message is broadcast
    within the call that enqueues it, so the broadcast chat messages are
    exactly the enqueued ones, and [getStats] always reports a queue
    length of zero. *)
Theorem immediate_delivery evs :
  let w := run evs initial in
  idle w ∧
  message_log w = message_payload <$> enqueued w ∧
  stats_messageQueue (ChatController.getStats w) = 0.
Proof.
  cbv zeta. pose proof (idle_reachable evs) as Hi.
  destruct (queue_run evs initial) as (_ & Hf & _); [by left|done|].
  destruct Hi as (Hflag & Hs & Hq).
  split; [done|]. split.
  - unfold fifo in Hf. rewrite Hq in Hf. by rewrite app_nil_r in Hf.
  - unfold ChatController.getStats. cbn [stats_messageQueue]. by rewrite Hq.
Qed.

End HandlerProperties.

(** ** The server as a whole *)

Module ServerProperties.
Import ClientsManager ChatController Predicates Views.
Import RegistryFacts JoinFacts DisconnectFacts QueueFacts.
Import LimiterProperties RegistryProperties HandlerProperties.

Lemma trk_sendToClient clientId data w :
  messageTracking (sendToClient clientId data w).2 = messageTracking w.
Proof. apply sendToClient_frame. Qed.

Lemma trk_broadcast data exclude w :
  messageTracking (broadcast data exclude w).2 = messageTracking w.
Proof. apply broadcast_frame. Qed.

Lemma trk_sendError now clientId m w :
  messageTracking (sendError now clientId m w) = messageTracking w.
Proof. apply trk_sendToClient. Qed.

Lemma trk_removeClient clientId w :
  messageTracking (removeClient clientId w).2 = messageTracking w.
Proof. unfold removeClient. by case_match. Qed.

Lemma trk_handleJoin now clientId data w :
  messageTracking (handleJoin now clientId data w) = messageTracking w.
Proof.
  unfold handleJoin.
  destruct (getClient clientId w) as [c|] eqn:Hc; [|done].
  destruct (validateUsername _); [|apply trk_sendError].
  destruct (isUsernameTaken _ _); [apply trk_sendError|].
  rewrite trk_broadcast, trk_sendToClient.
  unfold setUsername. by rewrite Hc.
Qed.

Lemma tracking_bounded_step ev w :
  tracking_bounded (messageTracking w) →
  tracking_bounded (messageTracking (step ev w)).
Proof.
  intros Hb. destruct ev as [now k s a|now k rawData|now k|now k|now|now| |k s];
    cbn [step].
  - unfold addClient. by rewrite trk_sendToClient.
  - unfold handleMessage.
    assert (messageTracking (updateActivity now k w) = messageTracking w)
      as Hu.
    { unfold updateActivity. by case_match. }
    destruct rawData as [data|]; [|by rewrite trk_sendError].
    destruct (validateMessage data); [|by rewrite trk_sendError].
    destruct (prop data (lit "type")) as [[| | |type| |]|];
      try by rewrite trk_sendError, Hu.
    repeat case_decide.
    + by rewrite trk_handleJoin, Hu.
    + destruct (chat_message_outcome now k data (updateActivity now k w))
        as [[(_ & -> & _) _]|(c & name & t & r & _ & _ & _ & _ & Hr & _)].
      * by rewrite Hu.
      * apply (f_equal snd) in Hr. cbn [snd] in Hr. rewrite <- Hr, Hu.
        by apply tracking_bounded_checkLimit.
    + unfold handlePing. by rewrite trk_sendToClient, Hu.
    + by rewrite trk_sendError, Hu.
  - unfold handleError. case_match; by rewrite ?trk_sendError.
  - unfold handleDisconnect. rewrite trk_removeClient.
    repeat case_match; by rewrite ?trk_broadcast.
  - unfold cleanupDeadConnections. cbn [snd].
    generalize (omap (λ e : jsstring * Client,
                        if is_dead now e.2 then Some e.1 else None)
                     (clients w)).
    intros dead. revert w Hb.
    induction dead as [|d dead IH]; intros w Hb; [done|].
    cbn [foldl]. apply IH. by rewrite trk_removeClient.
  - cbn [messageTracking with_messageTracking].
    by apply tracking_bounded_cleanup.
  - unfold wake. case_match; [done|]. by rewrite trk_drain.
  - unfold set_socket. by case_match.
Qed.

(** X2.  The limiter's memory is bounded per identifier: in every state
    the running server reaches, no identifier holds more than ten
    timestamps.  Each operation of the limiter keeps that bound; and
    right after an accepted call the array of the identifier ends with the
    time of the call and holds only timestamps of the current window. *)
Theorem limiter_bounded :
  (∀ evs, tracking_bounded (messageTracking (run evs initial))) ∧
  (∀ mt, tracking_bounded mt →
     (∀ now c ip, tracking_bounded (RateLimiter.checkLimit now c ip mt).2) ∧
     (∀ now, tracking_bounded (RateLimiter.cleanup now mt)) ∧
     (∀ c ip, tracking_bounded (RateLimiter.resetClient c ip mt))) ∧
  (∀ now c ip mt,
     RateLimiter.allowed (RateLimiter.checkLimit now c ip mt).1 = true →
     ∃ ts,
       (RateLimiter.checkLimit now c ip mt).2
         !! RateLimiter.getClientIdentifier c ip = Some (ts ++ [now]) ∧
       Forall (λ t, now - t < config.RATE_LIMIT_WINDOW) ts ∧
       jslength (ts ++ [now]) <= config.MAX_MESSAGES_PER_MINUTE).
Proof.
  split; [|split].
  - intros evs.
    assert (∀ w, tracking_bounded (messageTracking w) →
                 tracking_bounded (messageTracking (run evs w))) as H.
    { unfold run. induction evs as [|ev evs IH]; intros w Hw; [done|].
      cbn [foldl]. by apply IH, tracking_bounded_step. }
    apply H. apply map_Forall_empty.
  - intros mt Hb.
    split; [intros; by apply tracking_bounded_checkLimit|].
    split; [intros; by apply tracking_bounded_cleanup|].
    intros; by apply tracking_bounded_resetClient.
  - intros now c ip mt Ha.
    pose proof (checkLimit_stored now c ip mt) as Hs. cbv zeta in Hs.
    rewrite Ha in Hs. destruct Hs as [Hlen ->]. eexists.
    split; [apply lookup_insert_eq|]. split.
    + apply Forall_forall. intros t [Ht _]%in_window_elem. lia.
    + unfold jslength in *. rewrite length_app. cbn [length]. lia.
Qed.

Lemma limiter_bounded_witness :
  ∃ ts,
    (RateLimiter.checkLimit 70000 (lit "c1") None
       {[ lit "client:c1" := [1000; 20000; 64000] ]}).2
      !! RateLimiter.getClientIdentifier (lit "c1") None = Some (ts ++ [70000]) ∧
    Forall (λ t, 70000 - t < config.RATE_LIMIT_WINDOW) ts ∧
    jslength (ts ++ [70000]) <= config.MAX_MESSAGES_PER_MINUTE.
Proof.
  apply (proj2 (proj2 limiter_bounded) 70000 (lit "c1") None).
  vm_compute. reflexivity.
Defined.

Lemma assoc_get_of_elem {V} k (v : V) (l : list (jsstring * V)) :
  NoDup l.*1 → (k, v) ∈ l → assoc_get k l = Some v.
Proof.
  intros Hnd Hin. destruct (assoc_get k l) as [v'|] eqn:E.
  - apply assoc_get_elem in E. f_equal. by eapply keys_functional.
  - apply assoc_get_None_keys in E. destruct E.
    apply list_elem_of_fmap. by exists (k, v).
Qed.

(** The entry of the sender after a well-formed frame. *)
Lemma handleMessage_touches now clientId data w c :
  getClient clientId w = Some c →
  is_valid (validateMessage data) = true →
  ∃ c1, getClient clientId (handleMessage now clientId (Some data) w) = Some c1 ∧
        lastActivity c1 = now ∧ ws c1 = ws c ∧
        connectedAt c1 = connectedAt c.
Proof.
  intros Hc Hv.
  assert (getClient clientId (updateActivity now clientId w)
          = Some (rename (username c) now c)) as H0.
  { unfold getClient at 1. rewrite clients_updateActivity, Hc.
    by rewrite assoc_get_map_set, decide_True. }
  assert (∀ w1, clients w1 = clients (updateActivity now clientId w) →
                ∃ c1, getClient clientId w1 = Some c1 ∧
                      lastActivity c1 = now ∧ ws c1 = ws c ∧
                      connectedAt c1 = connectedAt c) as Hsame.
  { intros w1 Hw1. exists (rename (username c) now c).
    unfold getClient in *. by rewrite Hw1, H0. }
  unfold handleMessage. destruct (validateMessage data); [|done].
  destruct (prop data (lit "type")) as [[| | |type| |]|];
    try apply Hsame, clients_sendError.
  repeat case_decide.
  - assert (Hj := clients_handleJoin now clientId data
                    (updateActivity now clientId w)).
    rewrite H0 in Hj.
    destruct (validateUsername _) as [u|]; [|by apply Hsame].
    destruct (isUsernameTaken _ _); [by apply Hsame|].
    eexists. unfold getClient at 1. rewrite Hj.
    rewrite assoc_get_map_set, decide_True by done. done.
  - apply Hsame, clients_handleChatMessage.
  - apply Hsame, clients_handlePing.
  - apply Hsame, clients_sendError.
Qed.

(** X15.  Activity keeps a connection.  After a well-formed frame from a
    registered connection its last activity is the time of the frame,
    whatever the frame asks for; so a cleanup within five minutes of it
    keeps the connection as long as its socket is open.  A frame that
    cannot be parsed, or that has no type, does not count as activity: the
    registry is left exactly as it was. *)
Theorem activity_keeps_alive :
  (∀ now now' clientId data w c,
     keys_unique w →
     getClient clientId w = Some c → is_open c = true →
     is_valid (validateMessage data) = true →
     now' - now <= 300000 →
     let w1 := handleMessage now clientId (Some data) w in
     ∃ c1, getClient clientId w1 = Some c1 ∧ lastActivity c1 = now ∧
           getClient clientId (cleanupDeadConnections now' w1).2 = Some c1) ∧
  (∀ now clientId rawData w,
     rawData = None ∨
     (∃ data, rawData = Some data ∧ is_valid (validateMessage data) = false) →
     clients (handleMessage now clientId rawData w) = clients w).
Proof.
  split.
  - intros now now' clientId data w c Hk Hc Ho Hv Hle. cbv zeta.
    destruct (handleMessage_touches now clientId data w c Hc Hv)
      as (c1 & Hc1 & Hl & Hws & _).
    exists c1. split; [done|]. split; [done|].
    set (w1 := handleMessage now clientId (Some data) w) in *.
    assert (keys_unique w1) as Hk1.
    { apply (keys_unique_step (EvMessage now clientId (Some data)) w Hk). }
    destruct (cleanup_outcome now' w1 Hk1) as (Hcl & _).
    unfold getClient. rewrite Hcl.
    apply assoc_get_of_elem.
    + eapply sublist_NoDup; [exact Hk1|].
      apply fmap_sublist, sublist_filter.
    + apply list_elem_of_filter. split; [|by apply assoc_get_elem].
      cbn [snd]. unfold is_dead, is_open in *. rewrite Hws, Ho, Hl.
      cbn [negb]. rewrite orb_false_r, Z.gtb_ltb. apply Z.ltb_ge. lia.
  - intros now clientId rawData w [->|(data & -> & Hv)].
    + apply clients_sendError.
    + unfold handleMessage. destruct (validateMessage data); [done|].
      apply clients_sendError.
Qed.

Lemma activity_keeps_alive_witness :
  ∃ c1,
    getClient Scenarios.c2
      (handleMessage 200000 Scenarios.c2
         (Some (JObj [(lit "type", JStr (lit "ping"))])) Scenarios.ana_joined)
      = Some c1 ∧
    lastActivity c1 = 200000 ∧
    getClient Scenarios.c2
      (cleanupDeadConnections 500000
         (handleMessage 200000 Scenarios.c2
            (Some (JObj [(lit "type", JStr (lit "ping"))]))
            Scenarios.ana_joined)).2
      = Some c1.
Proof.
  apply (proj1 activity_keeps_alive 200000 500000 Scenarios.c2
           (JObj [(lit "type", JStr (lit "ping"))]) Scenarios.ana_joined
           {| client_id := Scenarios.c2; ws := Scenarios.open_socket;
              username := None; ip := lit "10.0.0.2";
              connectedAt := 120; lastActivity := 120 |}).
  - unfold keys_unique. apply (bool_decide_unpack _). vm_compute. exact I.
  - vm_compute. reflexivity.
  - reflexivity.
  - reflexivity.
  - lia.
Defined.

Lemma active_app l1 l2 : active (l1 ++ l2) = active l1 ++ active l2.
Proof. apply omap_app. Qed.

(** X24.  A successful join puts the joiner on the roster and touches
    nobody else: the roster of [getActiveUsers] then holds the joiner
    under the new name with the time it connected; every other connection
    keeps its registry entry; and the roster grows by one when the joiner
    had no name and keeps its length when the joiner changed names. *)
Theorem join_roster now clientId data w c u :
  getClient clientId w = Some c →
  validateUsername (prop data (lit "username")) = Valid u →
  isUsernameTaken u w = false →
  let w' := handleJoin now clientId data w in
  {| user_username := u; user_connectedAt := connectedAt c |}
    ∈ getActiveUsers w' ∧
  (∀ k, k ≠ clientId → getClient k w' = getClient k w) ∧
  jslength (getActiveUsers w') =
    jslength (getActiveUsers w) + (if named c then 0 else 1).
Proof.
  intros Hc Hu Ht. cbv zeta.
  assert (sanitize u = u ∧ u ≠ []) as [Hs Hne].
  { apply validateUsername_Valid in Hu as (s & _ & _ & [Hlen _] & Hcl).
    split; [by apply sanitize_valid|].
    intros ->. unfold jslength, config.MIN_USERNAME_LENGTH in Hlen.
    cbn in Hlen. lia. }
  assert (Hcl := clients_handleJoin now clientId data w).
  rewrite Hc, Hu, Hs, Ht in Hcl.
  unfold getClient in Hc.
  apply assoc_get_split in Hc as (l1 & l2 & Hl & _ & Hset).
  rewrite Hset in Hcl.
  rewrite !getActiveUsers_active, Hcl, Hl, !active_app.
  destruct u as [|x n]; [done|].
  assert (active ((clientId, rename (Some (x :: n)) now c) :: l2) =
          {| user_username := x :: n; user_connectedAt := connectedAt c |}
            :: active l2) as Hnew by done.
  assert (active ((clientId, c) :: l2) =
          (if named c
           then [{| user_username := default [] (username c);
                    user_connectedAt := connectedAt c |}]
           else []) ++ active l2) as Hold.
  { unfold active, named. cbn [omap list_omap snd].
    by destruct (username c) as [[|y m]|]. }
  rewrite Hnew, Hold.
  split; [apply elem_of_app; right; apply list_elem_of_here|].
  split.
  - intros k Hk. unfold getClient. rewrite Hcl, Hl.
    rewrite <- (Hset (rename (Some (x :: n)) now c)), <- Hl.
    by rewrite assoc_get_map_set, decide_False.
  - unfold jslength. rewrite !length_app. cbn [length].
    destruct (named c); cbn [length app]; lia.
Qed.

Lemma join_roster_witness :
  {| user_username := lit "Bea"; user_connectedAt := 120 |}
    ∈ getActiveUsers
        (handleJoin 130 Scenarios.c2
           (JObj [(lit "type", JStr (lit "join"));
                  (lit "username", JStr (lit "Bea"))]) Scenarios.ana_joined).
Proof.
  apply (join_roster 130 Scenarios.c2
           (JObj [(lit "type", JStr (lit "join"));
                  (lit "username", JStr (lit "Bea"))]) Scenarios.ana_joined
           {| client_id := Scenarios.c2; ws := Scenarios.open_socket;
              username := None; ip := lit "10.0.0.2";
              connectedAt := 120; lastActivity := 120 |} (lit "Bea")).
  - vm_compute. reflexivity.
  - vm_compute. reflexivity.
  - vm_compute. reflexivity.
Defined.

(** One tick of the timer on a sleeping run. *)
Lemma wake_one m queue w :
  sleepers w = 1%nat → messageQueue w = m :: queue →
  let w' := step EvTimer w in
  message_log w' = message_log w ++ [message_payload m] ∧
  messageQueue w' = queue ∧ enqueued w' = enqueued w ∧
  (queue ≠ [] → sleepers w' = 1%nat) ∧
  (queue = [] → idle w').
Proof.
  intros Hs Hq. cbv zeta. cbn [step]. unfold wake. rewrite Hs, Hq.
  destruct (drain_cons_fields m queue (with_sleepers 0 w))
    as (Hl & Hq' & He & Hidle & Hbusy).
  repeat (split; [done|]). split.
  - intros Hne. by destruct (Hbusy Hne) as [_ ->].
  - intros ->. destruct (Hidle eq_refl) as [Hf Hs']. by repeat split.
Qed.

(** X25.  A sleeping run empties the queue, one message per tick of the
    timer and in queue order: after [k] ticks the first [k] queued
    messages have been broadcast, in order, and the others are still
    queued; while messages are left the run sleeps again, and with the
    last one the queue is empty, the flag is down and no run is left. *)
Theorem queue_drains (queue : list QueuedMessage) : ∀ (k : nat) w,
  sleepers w = 1%nat → messageQueue w = queue → (k ≤ length queue)%nat →
  let w' := run (replicate k EvTimer) w in
  message_log w' = message_log w ++ (message_payload <$> take k queue) ∧
  messageQueue w' = drop k queue ∧
  enqueued w' = enqueued w ∧
  ((k < length queue)%nat → sleepers w' = 1%nat) ∧
  ((0 < k)%nat → k = length queue → idle w').
Proof.
  intros k. revert queue.
  induction k as [|k IH]; intros queue w Hs Hq Hk; cbv zeta.
  - rewrite take_0, drop_0, fmap_nil, app_nil_r.
    cbn [replicate run foldl]. repeat (split; [done|]). intros; lia.
  - destruct queue as [|m queue]; [cbn in Hk; lia|]. cbn [length] in Hk.
    destruct (wake_one m queue w Hs Hq) as (Hl & Hq' & He & Hbusy & Hidle).
    change (run (replicate (S k) EvTimer) w)
      with (run (replicate k EvTimer) (step EvTimer w)).
    set (w1 := step EvTimer w) in *.
    destruct k as [|k].
    + cbn [replicate run foldl take drop fmap list_fmap length].
      repeat (split; [done|]). split.
      * intros Hlt. apply Hbusy. destruct queue; [cbn in Hlt; lia|done].
      * intros _ Hlen. apply Hidle. destruct queue; [done|cbn in Hlen; lia].
    + assert (queue ≠ []) as Hne by (destruct queue; [cbn in Hk; lia|done]).
      destruct (IH queue w1 (Hbusy Hne) Hq') as (Hl2 & Hq2 & He2 & Hb2 & Hi2);
        [lia|].
      cbv zeta in *.
      split; [rewrite Hl2, Hl; cbn [take fmap list_fmap];
              by rewrite <- app_assoc|].
      split; [done|]. split; [by rewrite He2|].
      split; [intros Hlt; apply Hb2; cbn [length] in Hlt; lia|].
      intros _ Hlen. apply Hi2; [lia|]. cbn [length] in Hlen. lia.
Qed.

Lemma queue_drains_witness :
  message_log (run (replicate 1 EvTimer) draining)
    = message_log draining ++ [message_payload second_message] ∧
  idle (run (replicate 1 EvTimer) draining).
Proof.
  destruct (queue_drains [second_message] 1 draining)
    as (Hl & _ & _ & _ & Hi); [reflexivity|reflexivity|cbn; lia|].
  split; [exact Hl|]. apply Hi; [lia|reflexivity].
Defined.

(** X27.  A connection event registers the socket under its id without a
    name, and greets it: a [connection] frame with that id goes to the new
    socket if it takes frames, and to nobody else.  A fresh id is
    appended to the registry; an id that is already registered is
    overwritten in place, so the registered ids stay the same and the old
    name is gone. *)
Theorem connection_outcome now clientId s a w :
  let fresh :=
    {| client_id := clientId; ws := s; username := None; ip := a;
       connectedAt := now; lastActivity := now |} in
  let w' := step (EvConnection now clientId s a) w in
  getClient clientId w' = Some fresh ∧
  wire w' =
    wire w ++
    (if takes_frames fresh
     then [(clientId,
            Connection config.MESSAGES.CONNECTION_SUCCESS clientId now)]
     else []) ∧
  (getClient clientId w = None →
   clients w' = clients w ++ [(clientId, fresh)]) ∧
  (is_Some (getClient clientId w) → (clients w').*1 = (clients w).*1) ∧
  messageTracking w' = messageTracking w ∧ qstate w' = qstate w ∧
  broadcasts w' = broadcasts w.
Proof.
  cbv zeta. cbn [step]. unfold addClient.
  set (fresh := Build_Client _ _ _ _ _ _).
  set (w0 := with_clients (map_set clientId fresh (clients w)) w).
  assert (getClient clientId w0 = Some fresh) as H0.
  { unfold getClient, w0. cbn [clients with_clients].
    by rewrite assoc_get_map_set, decide_True. }
  destruct (sendToClient_frame clientId
              (Connection config.MESSAGES.CONNECTION_SUCCESS clientId now) w0)
    as (Hc & Hm & _ & _ & _ & Hb & _).
  split; [unfold getClient in *; by rewrite Hc|].
  split.
  { rewrite wire_sendToClient. unfold reachable. by rewrite H0. }
  split.
  { intros Hfree. rewrite Hc. unfold w0. cbn [clients with_clients].
    by apply map_set_fresh. }
  split.
  { intros Hsome. rewrite Hc. unfold w0. cbn [clients with_clients].
    by apply keys_map_set_present. }
  split; [by rewrite Hm|]. split; [by rewrite qstate_sendToClient|].
  by rewrite Hb.
Qed.

End ServerProperties.
